(** * Verification of the AOSPI5 build-file patch scripts

    The repository holds standalone Python scripts that read one Android.bp
    file, apply a fixed list of textual rules and write the file back:

    - [scripts/fix_profiling.py]
    - [scripts/fix_virtualization.py]
    - [scripts/fix_virtualization2.py]
    - [scripts/fix_virtualization3.py]
    - [scripts/fix_virtualization4.py]

    The file first embeds the Python string operations the scripts use
    ([in], [str.startswith], [str.replace], [str.strip], slicing, and the two
    regular expressions), then each script as a function from the file
    content to the new content and the lines printed, and finally the whole
    run against a file system. *)

From Stdlib Require Import List Ascii String Bool Arith Lia DecimalString.
From stdpp Require Import base list strings gmap.
Import ListNotations.
Open Scope list_scope.

(** ** Text *)

(** A Python [str] is modelled as the list of its characters (code points
    below 256). *)
Abbreviation text := (list ascii).

Notation "'txt' s" := (list_ascii_of_string s%string) (at level 9, only parsing).

Definition dq : ascii := "034"%char.   (* the double quote *)
Definition nl : ascii := "010"%char.   (* line feed, Python's \n *)
Definition tab : ascii := "009"%char.  (* Python's \t *)
Definition sp : ascii := " "%char.

(** ** Python string primitives *)

Module Py.

(** [s.startswith(p)] *)
Fixpoint startswith (s p : text) : bool :=
  match p, s with
  | [], _ => true
  | _ :: _, [] => false
  | a :: p', b :: s' => Ascii.eqb a b && startswith s' p'
  end.

(** [sub in s] *)
Fixpoint str_in (sub s : text) : bool :=
  startswith s sub ||
  match s with
  | [] => false
  | _ :: s' => str_in sub s'
  end.

(** The scan of [s.replace(old, new)] for a non-empty [old]: left to right,
    every match is replaced and the scan resumes after the match; [skip]
    counts the characters of the current match still to be dropped. *)
Fixpoint replace_scan (old new : text) (skip : nat) (s : text) : text :=
  match s with
  | [] => []
  | c :: s' =>
      match skip with
      | S k => replace_scan old new k s'
      | O =>
          if startswith s old
          then new ++ replace_scan old new (length old - 1) s'
          else c :: replace_scan old new 0 s'
      end
  end.

(** [s.replace(old, new)]: all occurrences.  With an empty [old] Python
    puts [new] before every character and at the end. *)
Definition replace (old new s : text) : text :=
  match old with
  | [] => new ++ flat_map (fun c => c :: new) s
  | _ :: _ => replace_scan old new 0 s
  end.

(** [s.replace(old, new, 1)]: the first occurrence only. *)
Fixpoint replace1 (old new s : text) : text :=
  if startswith s old then new ++ drop (length old) s
  else match s with
       | [] => []
       | c :: s' => c :: replace1 old new s'
       end.

(** [c.isspace()] for the code points below 256. *)
Definition isspace (c : ascii) : bool :=
  let n := nat_of_ascii c in
  ((9 <=? n) && (n <=? 13)) || ((28 <=? n) && (n <=? 32))
  || (n =? 133) || (n =? 160).

(** [s.lstrip()], [s.rstrip()], [s.strip()] *)
Fixpoint lstrip (s : text) : text :=
  match s with
  | [] => []
  | c :: s' => if isspace c then lstrip s' else s
  end.

Definition rstrip (s : text) : text := rev (lstrip (rev s)).

Definition strip (s : text) : text := lstrip (rstrip s).

(** [s[i:j]] for [0 <= i <= j] *)
Definition slice (s : text) (i j : nat) : text := take (j - i) (drop i s).

End Py.

(** ** The two regular expressions *)

Module Re.

(** [re.sub(pattern, repl, s)] for a pattern that is a literal (no
    metacharacter) and non-empty: the matches are the occurrences found
    left to right without overlap, which is the scan of [str.replace];
    [repl] is the template with its group references expanded. *)
Definition sub_literal (pattern repl s : text) : text :=
  Py.replace pattern repl s.

(** [ \t] *)
Definition is_blank (c : ascii) : bool := Ascii.eqb c sp || Ascii.eqb c tab.

(** The greedy [[ \t]*] at the head of [s]. *)
Fixpoint blanks (s : text) : text :=
  match s with
  | c :: s' => if is_blank c then c :: blanks s' else []
  | [] => []
  end.

(** A match of [(lit)([ \t]+)]: where it starts and its two groups. *)
Record rmatch := { m_start : nat; group1 : text; group2 : text }.

Definition group0 (m : rmatch) : text := group1 m ++ group2 m.
Definition m_end (m : rmatch) : nat := m_start m + length (group0 m).

(** [re.search] of [(lit)([ \t]+)] in the text whose suffix from [pos] on is
    [s]: the leftmost position where [lit] and at least one blank follow. *)
Fixpoint search_from (lit : text) (pos : nat) (s : text) : option rmatch :=
  match s with
  | [] => None
  | _ :: s' =>
      let rest := drop (length lit) s in
      if Py.startswith s lit && negb (match blanks rest with [] => true | _ => false end)
      then Some {| m_start := pos; group1 := lit; group2 := blanks rest |}
      else search_from lit (S pos) s'
  end.

Definition search (lit s : text) : option rmatch := search_from lit 0 s.

End Re.

(** ** What a rule did *)

Inductive PatchResult := applied | skipped_already_present | not_found.

(** The state a script threads through its loop: the content and the lines
    printed so far. *)
Abbreviation state := (text * list text)%type.

Definition print (line : text) (st : state) : state := (st.1, st.2 ++ [line]).
Definition set_content (c : text) (st : state) : state := (c, st.2).

(** [name: "<module>",] *)
Definition name_line (module : text) : text :=
  txt "name: " ++ dq :: module ++ dq :: txt ",".

(** ** scripts/fix_virtualization.py *)

Module FixVirtualization.

Definition modules_to_disable : list text :=
  [ txt "microdroid_kernel_signed";
    txt "microdroid_kernel_16k_signed";
    txt "microdroid_gki_kernel_signed";
    txt "microdroid_gki_kernel_16k_signed";
    txt "microdroid_kernel";
    txt "microdroid_kernel_16k";
    txt "microdroid_gki_kernel";
    txt "microdroid_gki_kernel_16k" ].

(** [rf'(name: "{module}",)\n']; the module names are interpolated without
    escaping.  Those of [modules_to_disable] hold no metacharacter of the
    expression language, so for them the pattern is a literal; a name that
    holds one is outside what this definition models. *)
Definition pattern (module : text) : text := name_line module ++ [nl].

(** [rf'\1\n    enabled: false,'] with group 1 expanded. *)
Definition inserted : text := txt "    enabled: false,".
Definition replacement (module : text) : text :=
  name_line module ++ nl :: inserted.

(** [f'name: "{module}",\n    enabled: false'] *)
Definition disabled_mark (module : text) : text :=
  name_line module ++ nl :: txt "    enabled: false".

(** The condition of the [if]. *)
Definition guard (module content : text) : bool :=
  Py.str_in (name_line module) content
  && negb (Py.str_in (disabled_mark module) content).

(** The body of the [for] loop. *)
Definition disable (module : text) (st : state) : state :=
  if guard module st.1
  then print (txt "Disabled: " ++ module)
         (set_content (Re.sub_literal (pattern module) (replacement module) st.1) st)
  else st.

(** Which of the three outcomes the [if] amounts to: the [and] tests the
    name first, the mark second. *)
Definition outcome (module content : text) : PatchResult :=
  if negb (Py.str_in (name_line module) content) then not_found
  else if Py.str_in (disabled_mark module) content then skipped_already_present
  else applied.

Definition run_rules (modules : list text) (st : state) : state :=
  fold_left (fun st m => disable m st) modules st.

(** The script between its read and its write, and its last [print]. *)
Definition patch (content : text) : state :=
  run_rules modules_to_disable (content, []).

Definition main (content : text) : state := print (txt "Done!") (patch content).

End FixVirtualization.

(** ** scripts/fix_virtualization3.py *)

Module FixVirtualization3.

Definition problematic_modules : list text :=
  [ txt "microdroid_kernel_signed";
    txt "microdroid_kernel_16k_signed";
    txt "microdroid_kernel";
    txt "microdroid_kernel_16k";
    txt "microdroid_gki-android15-6.6_kernel_signed";
    txt "microdroid_gki-android15-6.6_kernel_signed_supports_uefi_boot";
    txt "microdroid_gki-android15-6.6_kernel_signed-lz4";
    txt "microdroid_gki-android15-6.6_kernel";
    txt "microdroid_gki-android16-6.12_kernel_signed";
    txt "microdroid_gki-android16-6.12_kernel_signed_supports_uefi_boot";
    txt "microdroid_gki-android16-6.12_kernel_signed-lz4";
    txt "microdroid_gki-android16-6.12_kernel" ].

(** Group 1 of [rf'(name: "{re.escape(module)}",\n)([ \t]+)']: the escaped
    name matches the name itself. *)
Definition lit (module : text) : text := name_line module ++ [nl].

(** [content[match.end():match.end()+50]] *)
Definition check_after (content : text) (m : Re.rmatch) : text :=
  Py.slice content (Re.m_end m) (Re.m_end m + 50).

(** [check_after.strip().startswith('enabled:')] *)
Definition has_enabled (content : text) (m : Re.rmatch) : bool :=
  Py.startswith (Py.strip (check_after content m)) (txt "enabled:").

(** [f'{match.group(1)}{indent}enabled: false,\n{indent}'] *)
Definition replacement (m : Re.rmatch) : text :=
  Re.group1 m ++ Re.group2 m ++ txt "enabled: false," ++ nl :: Re.group2 m.

(** The body of the [for] loop. *)
Definition disable (module : text) (st : state) : state :=
  match Re.search (lit module) st.1 with
  | Some m =>
      if negb (has_enabled st.1 m)
      then print (txt "Disabled: " ++ module)
             (set_content (Py.replace1 (Re.group0 m) (replacement m) st.1) st)
      else print (txt "Already has enabled: " ++ module) st
  | None => print (txt "Not found: " ++ module) st
  end.

Definition outcome (module content : text) : PatchResult :=
  match Re.search (lit module) content with
  | Some m => if negb (has_enabled content m) then applied
              else skipped_already_present
  | None => not_found
  end.

Definition run_rules (modules : list text) (st : state) : state :=
  fold_left (fun st m => disable m st) modules st.

Definition patch (content : text) : state :=
  run_rules problematic_modules (content, []).

Definition main (content : text) : state := print (txt "Done!") (patch content).

End FixVirtualization3.

(** ** scripts/fix_virtualization4.py *)

Module FixVirtualization4.

(** A reference as the file writes it: the label between double quotes. *)
Definition quoted (label : text) : text := dq :: label ++ [dq].

Definition empty_file : text := quoted (txt ":empty_file").

Definition replacements : list (text * text) :=
  [ (quoted (txt ":microdroid_kernel_prebuilt-arm64"), empty_file);
    (quoted (txt ":microdroid_kernel_prebuilt-x86_64"), empty_file);
    (quoted (txt ":microdroid_gki_kernel_prebuilts-android15-6.6-arm64"), empty_file);
    (quoted (txt ":microdroid_gki_kernel_prebuilts-android15-6.6-x86_64"), empty_file);
    (quoted (txt ":microdroid_gki_kernel_prebuilts-android16-6.12-arm64"), empty_file);
    (quoted (txt ":microdroid_gki_kernel_prebuilts-android16-6.12-x86_64"), empty_file) ].

(** The body of the [for] loop. *)
Definition replace_ref (rule : text * text) (st : state) : state :=
  let (old, new) := rule in
  if Py.str_in old st.1
  then print (txt "Replaced: " ++ old ++ txt " -> " ++ new)
         (set_content (Py.replace old new st.1) st)
  else st.

Definition outcome (rule : text * text) (content : text) : PatchResult :=
  if Py.str_in rule.1 content then applied else not_found.

Definition run_rules (rules : list (text * text)) (st : state) : state :=
  fold_left (fun st r => replace_ref r st) rules st.

Definition patch (content : text) : state :=
  run_rules replacements (content, []).

Definition main (content : text) : state := print (txt "Done!") (patch content).

End FixVirtualization4.

(** ** scripts/fix_profiling.py *)

Module FixProfiling.

Definition lines (ls : list text) : text :=
  match ls with
  | [] => []
  | l :: ls' => l ++ flat_map (fun x => nl :: x) ls'
  end.

Definition old_sdk : text :=
  lines [ txt "sdk {";
          txt "    name: " ++ dq :: txt "profiling-module-sdk" ++ dq :: txt ",";
          txt "    apexes: [";
          txt "        " ++ dq :: txt "com.android.profiling" ++ dq :: txt ",";
          txt "    ],";
          txt "}" ].

Definition new_sdk : text :=
  lines [ txt "sdk {";
          txt "    enabled: select(release_flag(" ++ dq ::
            txt "RELEASE_PACKAGE_PROFILING_MODULE" ++ dq :: txt "), {";
          txt "        true: true,";
          txt "        false: false,";
          txt "    }),";
          txt "    name: " ++ dq :: txt "profiling-module-sdk" ++ dq :: txt ",";
          txt "    apexes: [";
          txt "        " ++ dq :: txt "com.android.profiling" ++ dq :: txt ",";
          txt "    ],";
          txt "}" ].

Definition patch (content : text) : state :=
  (Py.replace old_sdk new_sdk content, []).

Definition main (content : text) : state :=
  print (txt "Fixed profiling-module-sdk") (patch content).

End FixProfiling.

(** ** Occurrences *)

(** [sub] occurs in [s] with [l] before it and [r] after it. *)
Definition occurs_at (sub l r s : text) : Prop := s = l ++ sub ++ r.

Definition occurs (sub s : text) : Prop := exists l r, occurs_at sub l r s.

(** The occurrence of [sub] after [l] is the first one of [l ++ sub ++ r]. *)
Definition leftmost (sub l r : text) : Prop :=
  forall l' r', l ++ sub ++ r = l' ++ sub ++ r' -> length l <= length l'.

(** [segs] laid out with [sep] after each of them, then [tail]. *)
Fixpoint interleave (sep : text) (segs : list text) (tail : text) : text :=
  match segs with
  | [] => tail
  | s :: segs' => s ++ sep ++ interleave sep segs' tail
  end.

(** No occurrence of [sub] starts inside [seg] when [sub] follows it: [sub]
    does not occur in [seg] followed by [sub] without its last character. *)
Definition starts_none (sub seg : text) : bool :=
  negb (Py.str_in sub (seg ++ removelast sub)).

(** ** Matches of [(lit)([ \t]+)] *)

(** [r] begins with a blank. *)
Definition blank_headed (r : text) : bool :=
  match r with
  | c :: _ => Re.is_blank c
  | [] => false
  end.

(** The expression matches in [s] right after [l]. *)
Definition matches_at (lit l s : text) : Prop :=
  exists r, s = l ++ lit ++ r /\ blank_headed r = true.

(** It matches nowhere before the end of [l]. *)
Definition no_match_before (lit l s : text) : Prop :=
  forall l1, matches_at lit l1 s -> length l <= length l1.

(** What fix_virtualization3.py tests on the text [r] that follows a match:
    [r[:50].strip().startswith('enabled:')]. *)
Definition enabled_next (r : text) : bool :=
  Py.startswith (Py.strip (take 50 r)) (txt "enabled:").

(** What fix_virtualization3.py puts after the blanks [W] of a match. *)
Definition enabled_line (W : text) : text :=
  txt "enabled: false," ++ nl :: W.

(** ** The lines a run prints, rule by rule *)

(** The line fix_virtualization3.py prints for an outcome. *)
Definition report3 (module : text) (o : PatchResult) : text :=
  match o with
  | applied => txt "Disabled: " ++ module
  | skipped_already_present => txt "Already has enabled: " ++ module
  | not_found => txt "Not found: " ++ module
  end.

(** One line for each rule, by its outcome on the content it met. *)
Fixpoint log3 (modules : list text) (content : text) : list text :=
  match modules with
  | [] => []
  | m :: ms =>
      report3 m (FixVirtualization3.outcome m content)
      :: log3 ms (FixVirtualization3.disable m (content, [])).1
  end.

(** The lines of fix_virtualization.py: one for each rule that applied. *)
Fixpoint log1 (modules : list text) (content : text) : list text :=
  match modules with
  | [] => []
  | m :: ms =>
      match FixVirtualization.outcome m content with
      | applied => [txt "Disabled: " ++ m]
      | _ => []
      end ++ log1 ms (FixVirtualization.disable m (content, [])).1
  end.

(** The lines of fix_virtualization4.py: one for each rule that applied. *)
Fixpoint log4 (rules : list (text * text)) (content : text) : list text :=
  match rules with
  | [] => []
  | r :: rs =>
      match FixVirtualization4.outcome r content with
      | applied => [txt "Replaced: " ++ r.1 ++ txt " -> " ++ r.2]
      | _ => []
      end ++ log4 rs (FixVirtualization4.replace_ref r (content, [])).1
  end.

(** ** The run of a script against the file system *)

Module Run.

(** What the operating system refuses: [open(path, "r")] of a file that is
    not there, [open(path, "w")] of a file that may not be written, and a
    write the device cuts short for want of room.  Python raises, nothing
    catches it, and the interpreter exits with status 1. *)
Inductive IOFailure :=
| FileNotFoundError (path : string)
| PermissionError (path : string)
| OSError (path : string).

(** What a run does to the outside, in order: a line printed, a file
    opened for writing and so emptied, characters written to it. *)
Inductive event :=
| Print (line : text)
| Truncate (path : string)
| Write (path : string) (content : text).

(** The files with their content, the paths that may not be opened for
    writing, the room the device has for a path (how many characters of a
    write reach the file; no entry: all of them), and what the run did so
    far. *)
Record world := {
  files : gmap string text;
  read_only : gset string;
  room : gmap string nat;
  trace : list event
}.

(** A step of a script: it fails or returns a value, and leaves a world. *)
Definition io (A : Type) : Type := world -> (IOFailure + A) * world.

Definition ret {A : Type} (a : A) : io A := fun w => (inr a, w).

Definition bind {A B : Type} (m : io A) (k : A -> io B) : io B :=
  fun w =>
    match m w with
    | (inl e, w') => (inl e, w')
    | (inr a, w') => k a w'
    end.

Notation "x <- m ;; k" := (bind m (fun x => k))
  (at level 100, m at next level, right associativity).
Notation "m ;; k" := (bind m (fun _ => k))
  (at level 100, right associativity).

Definition emit (e : event) (w : world) : world :=
  {| files := files w; read_only := read_only w; room := room w;
     trace := trace w ++ [e] |}.

(** [with open(path, "r") as f: content = f.read()] *)
Definition read_file (path : string) : io text :=
  fun w =>
    match files w !! path with
    | Some content => (inr content, w)
    | None => (inl (FileNotFoundError path), w)
    end.

(** [open(path, "w")]: it is refused, or the file is there and empty from
    then on, whatever it held. *)
Definition open_for_writing (path : string) : io unit :=
  fun w =>
    if decide (path ∈ read_only w)
    then (inl (PermissionError path), w)
    else (inr tt,
          {| files := <[path := []]> (files w);
             read_only := read_only w; room := room w;
             trace := trace w ++ [Truncate path] |}).

(** What reaches the file of a write of [content]. *)
Definition reaches (w : world) (path : string) (content : text) : text :=
  match room w !! path with
  | Some n => take n content
  | None => content
  end.

(** [f.write(content)] and the close that ends the [with]: the file holds
    what reached it, and the write fails when that is not all of it. *)
Definition write (path : string) (content : text) : io unit :=
  fun w =>
    let w' := {| files := <[path := reaches w path content]> (files w);
                 read_only := read_only w; room := room w;
                 trace := trace w ++ [Write path (reaches w path content)] |} in
    if decide (reaches w path content = content)
    then (inr tt, w')
    else (inl (OSError path), w').

(** [with open(path, "w") as f: f.write(content)]: the file is written in
    place, there is no temporary file and no rename. *)
Definition write_file (path : string) (content : text) : io unit :=
  open_for_writing path ;; write path content.

(** [print(line)] *)
Definition print_line (line : text) : io unit :=
  fun w => (inr tt, emit (Print line) w).

Fixpoint print_lines (lines : list text) : io unit :=
  match lines with
  | [] => ret tt
  | l :: ls => print_line l ;; print_lines ls
  end.

(** A script: read the file, run the rules (they print as they go), write
    the file, print the last line. *)
Definition script (path : string) (patch : text -> state) (last : text) : io unit :=
  content <- read_file path ;;
  print_lines (patch content).2 ;;
  write_file path (patch content).1 ;;
  print_line last.

(** The exit status of the process. *)
Definition exit_status {A : Type} (r : IOFailure + A) : nat :=
  match r with
  | inl _ => 1
  | inr _ => 0
  end.

Definition virtualization_bp : string :=
  "/home/klong/aosp-rpi5/packages/modules/Virtualization/build/microdroid/Android.bp".

Definition profiling_bp : string :=
  "/home/klong/aosp-rpi5/packages/modules/Profiling/apex/Android.bp".


Definition fix_virtualization3 : io unit :=
  script virtualization_bp FixVirtualization3.patch (txt "Done!").

Definition fix_virtualization4 : io unit :=
  script virtualization_bp FixVirtualization4.patch (txt "Done!").


End Run.

(** ** Texts cut at a separator *)

(** [sep.join(segs)] for a separator of one character. *)
Fixpoint join (sep : ascii) (segs : list text) : text :=
  match segs with
  | [] => []
  | s :: rest =>
      match rest with
      | [] => s
      | _ :: _ => s ++ sep :: join sep rest
      end
  end.

(** [s.split(sep)] for a separator of one character: the pieces between
    the separators, one more than there are separators. *)
Fixpoint split (sep : ascii) (s : text) : list text :=
  match s with
  | [] => [[]]
  | c :: s' =>
      if Ascii.eqb c sep then [] :: split sep s'
      else match split sep s' with
           | seg :: rest => (c :: seg) :: rest
           | [] => [[c]]
           end
  end.

(** ** Occurrences that overlap *)

(** [sub] occurs in [s] from index [i] on. *)
Definition occurs_from (sub : text) (i : nat) (s : text) : bool :=
  (i <=? length s) && Py.startswith (drop i s) sub.

(** The indices where [sub] occurs in [s]. *)
Definition positions (sub s : text) : list nat :=
  List.filter (fun i => occurs_from sub i s) (seq 0 (S (length s))).

(** An occurrence of [a] and an occurrence of [b] in [s], not one and the
    same, share a character. *)
Definition overlapb (a b s : text) : bool :=
  existsb (fun i =>
    existsb (fun j =>
      (i <? j + length b) && (j <? i + length a)
      && negb ((i =? j) && bool_decide (a = b)))
      (positions b s))
    (positions a s).

(** ** The references between double quotes *)

(** What [replace] does with the reference [b] on the pieces that follow
    the first double quote of the content, the last piece being the text
    after the last double quote: a piece equal to [b] becomes [n], and the
    piece after it is passed over, its opening quote having been used. *)
Fixpoint relabel (b n : text) (tl : list text) : list text :=
  match tl with
  | [] => []
  | x :: tl' =>
      match tl' with
      | [] => tl
      | y :: tl'' =>
          if bool_decide (x = b) then n :: y :: relabel b n tl''
          else x :: relabel b n tl'
      end
  end.

(** Every piece but the last that equals [b] becomes [n]. *)
Fixpoint relabel_all (b n : text) (tl : list text) : list text :=
  match tl with
  | [] => []
  | x :: tl' =>
      match tl' with
      | [] => tl
      | _ :: _ => (if bool_decide (x = b) then n else x) :: relabel_all b n tl'
      end
  end.

(** The same scan for two references at once. *)
Fixpoint relabel2 (b1 b2 n : text) (tl : list text) : list text :=
  match tl with
  | [] => []
  | x :: tl' =>
      match tl' with
      | [] => tl
      | y :: tl'' =>
          if bool_decide (x = b1) || bool_decide (x = b2)
          then n :: y :: relabel2 b1 b2 n tl''
          else x :: relabel2 b1 b2 n tl'
      end
  end.

(** [a] then [b] are two pieces in a row, before the last piece. *)
Definition in_a_row (a b : text) (tl : list text) : Prop :=
  exists pre post, tl = pre ++ a :: b :: post /\ post <> [].

(** [b] is a piece before the last one. *)
Definition inner (b : text) (tl : list text) : Prop :=
  exists pre post, tl = pre ++ b :: post /\ post <> [].

(** The rules of fix_virtualization4.py on the pieces, one reference after
    the other. *)
Definition relabel_run (labels : list text) (n : text) (tl : list text) : list text :=
  fold_left (fun tl b => relabel b n tl) labels tl.

(** The labels of the references fix_virtualization4.py replaces. *)
Definition prebuilt_labels : list text :=
  [ txt ":microdroid_kernel_prebuilt-arm64";
    txt ":microdroid_kernel_prebuilt-x86_64";
    txt ":microdroid_gki_kernel_prebuilts-android15-6.6-arm64";
    txt ":microdroid_gki_kernel_prebuilts-android15-6.6-x86_64";
    txt ":microdroid_gki_kernel_prebuilts-android16-6.12-arm64";
    txt ":microdroid_gki_kernel_prebuilts-android16-6.12-x86_64" ].

(** No old literal of fix_virtualization4.py overlaps another occurrence
    of itself in the content. *)
Definition no_self_overlap (content : text) : bool :=
  forallb (fun r : text * text => negb (overlapb r.1 r.1 content))
    FixVirtualization4.replacements.

(** [c] is none of the characters of [s]. *)
Definition free_of (c : ascii) (s : text) : bool :=
  forallb (fun a => negb (Ascii.eqb a c)) s.

(** ** The lines *)

(** [l.endswith(p)] *)
Definition endswith (l p : text) : bool := bool_decide (p `suffix_of` l).

(** The substitution of fix_virtualization.py seen on the lines: [ins] is
    put at the head of every line that follows a line ending with [a];
    [flag] tells whether the line before the first one ended with [a]. *)
Fixpoint insert_after (a ins : text) (flag : bool) (lines : list text) : list text :=
  match lines with
  | [] => []
  | l :: rest =>
      (if flag then ins ++ l else l) :: insert_after a ins (endswith l a) rest
  end.

(** A line that ends with [a] is followed by a line that begins with [e]. *)
Definition marked (a e : text) (lines : list text) : Prop :=
  exists pre l l' post,
    lines = pre ++ l :: l' :: post /\ a `suffix_of` l /\ e `prefix_of` l'.

(** A module name as the scripts have them: no double quote, no newline. *)
Definition plain (module : text) : bool :=
  free_of dq module && free_of nl module.

(** ** A list of rules, one after the other *)

Definition run_all {X I : Type} (f : I -> X -> X) (rules : list I) (x : X) : X :=
  fold_left (fun x i => f i x) rules x.

(** ** The content after one rule *)

Definition step1 (module content : text) : text :=
  (FixVirtualization.disable module (content, [])).1.

Definition step3 (module content : text) : text :=
  (FixVirtualization3.disable module (content, [])).1.

Definition step4 (rule : text * text) (content : text) : text :=
  (FixVirtualization4.replace_ref rule (content, [])).1.

(** ** Replacements that cannot meet their own result *)

(** One of [u] and [v] begins the other. *)
Definition comparable (u v : text) : bool :=
  Py.startswith u v || Py.startswith v u.

(** No occurrence of [old] can share a character with an occurrence of
    [new]: no end of [old] is comparable with [new], no end of [new] with
    [old]. *)
Definition apart (old new : text) : bool :=
  forallb (fun d => negb (comparable (drop d old) new)) (seq 0 (length old))
  && forallb (fun d => negb (comparable (drop d new) old)) (seq 0 (length new)).

(** The rule of fix_virtualization3.py seen on the lines: at the first
    line that ends with [a] and is followed by a line beginning with
    blanks, unless [enabled:] comes next, a line made of these blanks and
    [enabled: false,] is put between the two. *)
Fixpoint insert_line (a : text) (lines : list text) : list text :=
  match lines with
  | [] => []
  | l :: rest =>
      match rest with
      | [] => lines
      | l' :: rest' =>
          if endswith l a && blank_headed l'
          then if enabled_next (join nl (drop (length (Re.blanks l')) l' :: rest'))
               then lines
               else l :: (Re.blanks l' ++ txt "enabled: false,") :: rest
          else l :: insert_line a rest
      end
  end.

(** ** Counting *)

(** [s.count(c)] for one character. *)
Definition count_char (c : ascii) (s : text) : nat :=
  length (List.filter (Ascii.eqb c) s).

(** The lines of a log that report a disabled module. *)
Definition disabled_lines (log : list text) : nat :=
  length (List.filter (fun l => Py.startswith l (txt "Disabled: ")) log).

(** Every piece but the last whose label is one of [labels] becomes [n]:
    what the whole run of fix_virtualization4.py amounts to. *)
Fixpoint relabel_set (labels : list text) (n : text) (tl : list text) : list text :=
  match tl with
  | [] => []
  | x :: tl' =>
      match tl' with
      | [] => tl
      | _ :: _ =>
          (if bool_decide (x ∈ labels) then n else x) :: relabel_set labels n tl'
      end
  end.

(** ** scripts/fix_virtualization2.py *)

Module FixVirtualization2.

(** A greedy [cls*] followed by the rest [k] of an expression, as the
    backtracking matcher of [re] runs it: the longest run first, then one
    character less as long as the rest fails.  [taken] is what the run
    holds so far; [k] gets the run and the text after it. *)
Fixpoint star {R : Type} (cls : ascii -> bool) (taken s : text)
    (k : text -> text -> option R) : option R :=
  match s with
  | c :: s' =>
      if cls c
      then match star cls (taken ++ [c]) s' k with
           | Some r => Some r
           | None => k taken s
           end
      else k taken s
  | [] => k taken s
  end.

(** A literal at the head of [s]: the text after it. *)
Definition literal (l s : text) : option text :=
  if Py.startswith s l then Some (drop (length l) s) else None.

(** The class of the characters other than the double quote. *)
Definition not_quote (c : ascii) : bool := negb (Ascii.eqb c dq).

(** The expression of [pattern] at the head of [s]: [name: ] and a double
    quote, then group 1, which is [microdroid] and one or more characters
    other than the double quote, then a double quote and a comma.  The
    result is group 1 and the text after the match. *)
Definition pattern (s : text) : option (text * text) :=
  match literal (txt "name: " ++ dq :: txt "microdroid") s with
  | Some (c :: s') =>
      if not_quote c
      then star not_quote [c] s'
             (fun taken rest =>
                match literal (dq :: txt ",") rest with
                | Some rest' => Some (txt "microdroid" ++ taken, rest')
                | None => None
                end)
      else None
  | _ => None
  end.

(** The scan of [re.findall(pattern, s)]: left to right, a match gives its
    group 1 and the scan resumes after it; [skip] counts the characters of
    the current match still to be passed. *)
Fixpoint findall_scan (skip : nat) (s : text) : list text :=
  match s with
  | [] => []
  | _ :: s' =>
      match skip with
      | S k => findall_scan k s'
      | O =>
          match pattern s with
          | Some (g, rest) =>
              g :: findall_scan (length s - length rest - 1) s'
          | None => findall_scan 0 s'
          end
      end
  end.

Definition findall (s : text) : list text := findall_scan 0 s.

(** [\s*enabled: false] at the head of [s] *)
Definition spaces_enabled (s : text) : option unit :=
  star Py.isspace [] s
    (fun _ rest =>
       if Py.startswith rest (txt "enabled: false") then Some tt else None).

(** [rf'name: "{re.escape(module)}",\s*\n\s*enabled: false'] at the head
    of [s]; the escaped name matches the name itself. *)
Definition check_pattern (module s : text) : bool :=
  match literal (name_line module) s with
  | Some s' =>
      match star Py.isspace [] s'
              (fun _ rest =>
                 match rest with
                 | c :: rest' =>
                     if Ascii.eqb c nl then spaces_enabled rest' else None
                 | [] => None
                 end) with
      | Some _ => true
      | None => false
      end
  | None => false
  end.

(** [re.search(check_pattern, s)] as the [if] reads it: is there a match. *)
Fixpoint search (module s : text) : bool :=
  check_pattern module s
  || match s with
     | [] => false
     | _ :: s' => search module s'
     end.

(** [f'name: "{module}",'] and [f'name: "{module}",\n    enabled: false,'] *)
Definition old (module : text) : text := name_line module.
Definition new (module : text) : text :=
  name_line module ++ nl :: txt "    enabled: false,".

(** The loop carries the content, the lines printed and [disabled_count]. *)
Definition disable (module : text) (st : state * nat) : state * nat :=
  if negb (search module st.1.1)
  then if Py.str_in (old module) st.1.1
       then (print (txt "Disabled: " ++ module)
               (set_content (Py.replace1 (old module) (new module) st.1.1) st.1),
             S st.2)
       else st
  else st.

Definition run_rules (modules : list text) (st : state * nat) : state * nat :=
  fold_left (fun st m => disable m st) modules st.

(** An [int] in an f-string. *)
Definition decimal (n : nat) : text :=
  txt (NilEmpty.string_of_uint (Nat.to_uint n)).

Definition found_line (n : nat) : text :=
  txt "Found " ++ decimal n ++ txt " microdroid modules".

Definition total_line (n : nat) : text := txt "Total disabled: " ++ decimal n.

(** The script between its read and its write: the content and the lines
    printed, with [disabled_count]. *)
Definition patch (content : text) : state * nat :=
  let matches := findall content in
  run_rules matches (print (found_line (length matches)) (content, []), 0).

(** The content written and every line printed. *)
Definition main (content : text) : state :=
  print (total_line (patch content).2) (patch content).1.

(** The run against the file system. *)
Definition script : Run.io unit :=
  Run.bind (Run.read_file Run.virtualization_bp) (fun content =>
  Run.bind (Run.print_lines (patch content).1.2) (fun _ =>
  Run.bind (Run.write_file Run.virtualization_bp (patch content).1.1) (fun _ =>
  Run.print_line (total_line (patch content).2)))).

End FixVirtualization2.

(** The content after one rule of fix_virtualization2.py. *)
Definition step2 (module content : text) : text :=
  (FixVirtualization2.disable module (content, [], 0)).1.1.

(** A name as fix_virtualization2.py finds them: [microdroid], then at
    least one more character, no double quote. *)
Definition microdroid_name (module : text) : Prop :=
  exists r, module = txt "microdroid" ++ r /\ r <> [] /\ dq ∉ r.

(** ** The name lines between the double quotes *)

(** What the check of fix_virtualization2.py wants after a name line:
    white space with a newline in it, then [enabled: false]. *)
Definition enabled_after (t : text) : Prop :=
  exists W1 W2 r,
    t = W1 ++ nl :: W2 ++ txt "enabled: false" ++ r
    /\ forallb Py.isspace W1 = true /\ forallb Py.isspace W2 = true.

(** In a content cut at its double quotes, piece [i] ends with [name: ],
    the next piece is [m] and the one after is a comma and [y]. *)
Definition named_at (m : text) (ps : list text) (i : nat) (y : text) : Prop :=
  (exists x, ps !! i = Some x /\ txt "name: " `suffix_of` x)
  /\ ps !! S i = Some m
  /\ ps !! S (S i) = Some (","%char :: y).

(** * Properties *)

Section PyFacts.

Import Py.

Lemma startswith_prefix (s p : text) :
  startswith s p = true <-> p `prefix_of` s.
Proof.
  revert s; induction p as [|a p IH]; intros [|b s]; simpl.
  - split; [intros _; apply prefix_nil | done].
  - split; [intros _; apply prefix_nil | done].
  - split; [done | intros H; by apply prefix_nil_not in H].
  - rewrite andb_true_iff, Ascii.eqb_eq, IH. split.
    + intros [-> H]. by apply prefix_cons.
    + intros H. split; [by apply prefix_cons_inv_1 in H | by apply prefix_cons_inv_2 in H].
Qed.

Lemma startswith_app (p r : text) : startswith (p ++ r) p = true.
Proof. apply startswith_prefix. by apply prefix_app_r. Qed.

Lemma startswith_true (s p : text) :
  startswith s p = true -> exists r, s = p ++ r.
Proof. intros H. apply startswith_prefix in H. exact H. Qed.

Lemma startswith_false (s p : text) :
  startswith s p = false <-> ~ p `prefix_of` s.
Proof. rewrite <- startswith_prefix. by destruct (startswith s p). Qed.

Lemma str_in_occurs (sub s : text) : str_in sub s = true <-> occurs sub s.
Proof.
  induction s as [|c s IH]; cbn [str_in].
  - rewrite orb_false_r. split.
    + intros H. apply startswith_true in H as [r ->]. by exists [], r.
    + intros (l & r & H). unfold occurs_at in H.
      symmetry in H. apply app_eq_nil in H as [-> H].
      apply app_eq_nil in H as [-> ->]. done.
  - rewrite orb_true_iff, IH. split.
    + intros [H | (l & r & ->)].
      * apply startswith_true in H as [r ->]. by exists [], r.
      * by exists (c :: l), r.
    + intros (l & r & H). unfold occurs_at in H. destruct l as [|c' l].
      * left. simpl in H. rewrite H. apply startswith_app.
      * right. simpl in H. injection H as -> ->. by exists l, r.
Qed.

Lemma str_in_absent (sub s : text) : str_in sub s = false <-> ~ occurs sub s.
Proof. rewrite <- str_in_occurs. by destruct (str_in sub s). Qed.

Lemma occurs_app_l (sub s t : text) : occurs sub s -> occurs sub (s ++ t).
Proof.
  intros (l & r & ->). exists l, (r ++ t). unfold occurs_at.
  by rewrite <- !app_assoc.
Qed.

Lemma occurs_app_r (sub s t : text) : occurs sub t -> occurs sub (s ++ t).
Proof.
  intros (l & r & ->). exists (s ++ l), r. unfold occurs_at.
  by rewrite <- !app_assoc.
Qed.

Lemma occurs_cons (sub : text) (c : ascii) (s : text) :
  occurs sub s -> occurs sub (c :: s).
Proof. apply (occurs_app_r sub [c] s). Qed.

(** *** [str.replace] *)

Lemma replace_scan_skip (old new x r : text) :
  replace_scan old new (length x) (x ++ r) = replace_scan old new 0 r.
Proof. induction x as [|c x IH]; simpl; [by destruct r | done]. Qed.

Lemma replace_nil (old new : text) : old <> [] -> replace old new [] = [].
Proof. by destruct old. Qed.

Lemma replace_match (old new r : text) :
  old <> [] -> replace old new (old ++ r) = new ++ replace old new r.
Proof.
  destruct old as [|a old]; [done | intros _].
  unfold replace. cbn [app replace_scan].
  change (a :: old ++ r) with ((a :: old) ++ r).
  rewrite startswith_app. f_equal.
  cbn [length]. rewrite Nat.sub_1_r. cbn [Nat.pred].
  apply replace_scan_skip.
Qed.

Lemma replace_nomatch (old new : text) (c : ascii) (s : text) :
  startswith (c :: s) old = false ->
  replace old new (c :: s) = c :: replace old new s.
Proof.
  destruct old as [|a old]; [done | intros H].
  unfold replace. cbn [replace_scan]. by rewrite H.
Qed.

Lemma leftmost_nil (sub r : text) : leftmost sub [] r.
Proof. intros l' r' _. simpl. lia. Qed.

Lemma leftmost_tail (sub : text) (c : ascii) (l r : text) :
  leftmost sub (c :: l) r -> leftmost sub l r.
Proof.
  intros H l' r' E. specialize (H (c :: l') r'). simpl in H.
  rewrite E in H. specialize (H eq_refl). lia.
Qed.

Lemma leftmost_head (sub : text) (c : ascii) (l r : text) :
  leftmost sub (c :: l) r -> startswith (c :: l ++ sub ++ r) sub = false.
Proof.
  intros H. apply startswith_false. intros [k E].
  specialize (H [] k). simpl in H. specialize (H E). lia.
Qed.

Lemma leftmost_cons (sub : text) (c : ascii) (l r : text) :
  startswith (c :: l ++ sub ++ r) sub = false ->
  leftmost sub l r -> leftmost sub (c :: l) r.
Proof.
  intros H0 H l' r' E. destruct l' as [|c' l'].
  - simpl in E. apply startswith_false in H0. destruct H0.
    exists r'. exact E.
  - simpl in E. injection E as -> E. apply H in E. simpl. lia.
Qed.

(** Every occurrence has a first one. *)
Lemma occurs_leftmost (sub s : text) :
  occurs sub s -> exists l r, s = l ++ sub ++ r /\ leftmost sub l r.
Proof.
  induction s as [|c s IH]; intros Hs.
  - destruct Hs as (l & r & H). unfold occurs_at in H.
    symmetry in H. apply app_eq_nil in H as [-> H].
    apply app_eq_nil in H as [-> ->]. exists [], []. split; [done|].
    apply leftmost_nil.
  - destruct (startswith (c :: s) sub) eqn:E.
    + apply startswith_true in E as [r E]. exists [], r. split; [done|].
      apply leftmost_nil.
    + destruct Hs as ([|c' l] & r & H); unfold occurs_at in H.
      * simpl in H. rewrite H, startswith_app in E. done.
      * simpl in H. injection H as <- ->.
        destruct IH as (l1 & r1 & E1 & H1); [by exists l, r|].
        exists (c :: l1), r1. split; [simpl; by rewrite E1|].
        apply leftmost_cons; [by rewrite <- E1 | done].
Qed.

Lemma replace_leftmost (old new l r : text) :
  old <> [] -> leftmost old l r ->
  replace old new (l ++ old ++ r) = l ++ new ++ replace old new r.
Proof.
  intros Hne. induction l as [|c l IH]; intros H.
  - cbn [app]. by apply replace_match.
  - cbn [app]. rewrite replace_nomatch by (by apply leftmost_head).
    f_equal. apply IH. by apply leftmost_tail in H.
Qed.

Lemma replace_absent (old new s : text) :
  ~ occurs old s -> replace old new s = s.
Proof.
  intros H. assert (Hne : old <> []).
  { intros ->. apply H. by exists [], s. }
  induction s as [|c s IH]; [by apply replace_nil|].
  rewrite replace_nomatch.
  - f_equal. apply IH. intros Hs. apply H. by apply occurs_cons.
  - apply startswith_false. intros [k E]. apply H. by exists [], k.
Qed.

(** *** [str.replace] with count 1 *)

Lemma replace1_leftmost (old new l r : text) :
  leftmost old l r -> replace1 old new (l ++ old ++ r) = l ++ new ++ r.
Proof.
  induction l as [|c l IH]; intros H.
  - cbn [app]. destruct (old ++ r) eqn:E; cbn [replace1]; rewrite <- ?E.
    + rewrite startswith_app, drop_app_length. done.
    + rewrite startswith_app, drop_app_length. done.
  - cbn [app replace1]. rewrite (leftmost_head _ _ _ _ H).
    f_equal. apply IH. by apply leftmost_tail in H.
Qed.

Lemma replace1_absent (old new s : text) :
  ~ occurs old s -> replace1 old new s = s.
Proof.
  intros H. induction s as [|c s IH]; cbn [replace1].
  - destruct (startswith [] old) eqn:E; [|done].
    apply startswith_true in E as [k E]. destruct H. by exists [], k.
  - destruct (startswith (c :: s) old) eqn:E.
    + apply startswith_true in E as [k E]. destruct H. by exists [], k.
    + f_equal. apply IH. intros Hs. apply H. by apply occurs_cons.
Qed.

End PyFacts.

(** ** Replacing all occurrences *)

Section ReplaceAll.

Import Py.

Lemma prefix_shorter (l1 l2 l : text) :
  l1 `prefix_of` l -> l2 `prefix_of` l -> length l1 <= length l2 ->
  l1 `prefix_of` l2.
Proof.
  intros H1 H2 Hlen.
  destruct (prefix_weak_total _ _ _ H1 H2) as [H | H]; [done|].
  by rewrite (prefix_length_eq _ _ H Hlen).
Qed.

Lemma removelast_length (s : text) : length (removelast s) = length s - 1.
Proof.
  rewrite removelast_firstn_len, length_take. lia.
Qed.

Lemma removelast_prefix (s : text) : removelast s `prefix_of` s.
Proof. rewrite removelast_firstn_len. apply prefix_take. Qed.

Lemma starts_none_leftmost (old seg r : text) :
  old <> [] -> starts_none old seg = true -> leftmost old seg r.
Proof.
  intros Hne Hs l' r' E.
  destruct (le_lt_dec (length seg) (length l')) as [|Hlt]; [done|exfalso].
  unfold starts_none in Hs. apply negb_true_iff, str_in_absent in Hs.
  apply Hs. apply app_eq_inv in E as [(k & -> & E) | (k & -> & E)].
  - rewrite length_app in Hlt.
    assert (Hp : old `prefix_of` k ++ removelast old).
    { apply (prefix_shorter _ _ (k ++ old ++ r)).
      - exists r'. by rewrite <- E.
      - apply prefix_app, prefix_app_r, removelast_prefix.
      - rewrite length_app, removelast_length.
        destruct old; [done|]. simpl in *. lia. }
    destruct Hp as [z Hz]. exists l', z. unfold occurs_at.
    by rewrite <- app_assoc, Hz.
  - rewrite length_app in Hlt. lia.
Qed.

Lemma leftmost_starts_none (old l r : text) :
  old <> [] -> leftmost old l r -> starts_none old l = true.
Proof.
  intros Hne H. unfold starts_none. apply negb_true_iff, str_in_absent.
  intros (l' & r' & E). unfold occurs_at in E.
  assert (Hl : length l + (length old - 1) = length l' + length old + length r').
  { rewrite <- removelast_length, <- !length_app, E.
    by rewrite <- !app_assoc. }
  specialize (H l' (r' ++ [List.last old "000"%char] ++ r)).
  assert (length l <= length l'); [|destruct old; simpl in *; [done|lia]].
  apply H.
  rewrite (app_removelast_last "000"%char Hne) at 1.
  rewrite <- !app_assoc. rewrite (app_assoc l), E.
  by rewrite <- !app_assoc.
Qed.

Lemma replace_interleave (old new : text) (segs : list text) (tail : text) :
  old <> [] ->
  forallb (starts_none old) segs = true ->
  str_in old tail = false ->
  replace old new (interleave old segs tail) = interleave new segs tail.
Proof.
  intros Hne Hsegs Htail. induction segs as [|s segs IH]; cbn [interleave].
  - apply replace_absent. by apply str_in_absent.
  - cbn [forallb] in Hsegs. apply andb_true_iff in Hsegs as [Hs Hsegs].
    rewrite replace_leftmost by (by try apply starts_none_leftmost).
    by rewrite IH.
Qed.

(** Every text is laid out that way, in one way: the occurrences the scan
    of [replace] meets. *)
Lemma interleave_exists (old s : text) :
  old <> [] ->
  exists segs tail,
    s = interleave old segs tail
    /\ forallb (starts_none old) segs = true
    /\ str_in old tail = false.
Proof.
  intros Hne. remember (length s) as n eqn:Hn. revert s Hn.
  induction n as [n IH] using lt_wf_ind. intros s ->.
  destruct (str_in old s) eqn:E.
  - apply str_in_occurs, occurs_leftmost in E as (l & r & -> & Hl).
    destruct (IH (length r)) with (s := r) as (segs & tail & -> & H1 & H2);
      [|done|].
    { rewrite !length_app. destruct old; simpl in *; [done|lia]. }
    exists (l :: segs), tail. split; [done|]. split; [|done].
    cbn [forallb]. by rewrite (leftmost_starts_none _ _ _ Hne Hl), H1.
  - by exists [], s.
Qed.

Lemma interleave_occurs (old : text) (segs : list text) (tail : text) :
  segs <> [] -> occurs old (interleave old segs tail).
Proof.
  destruct segs as [|s segs]; [done | intros _].
  by exists s, (interleave old segs tail).
Qed.

End ReplaceAll.


(** ** The search of fix_virtualization3.py *)

Section SearchFacts.

Import Py Re.

Lemma blanks_all (r : text) : forallb is_blank (blanks r) = true.
Proof.
  induction r as [|c r IH]; [done|]. cbn [blanks].
  destruct (is_blank c) eqn:E; [|done]. cbn [forallb]. by rewrite E, IH.
Qed.

Lemma blanks_app (W r : text) :
  forallb is_blank W = true -> blank_headed r = false -> blanks (W ++ r) = W.
Proof.
  intros HW Hr. induction W as [|c W IH]; cbn [app blanks].
  - destruct r as [|c r]; [done|]. cbn [blanks]. cbn in Hr. by rewrite Hr.
  - cbn [forallb] in HW. apply andb_true_iff in HW as [-> HW]. by rewrite IH.
Qed.

Lemma blanks_split (r : text) :
  exists r', r = blanks r ++ r' /\ blank_headed r' = false.
Proof.
  induction r as [|c r (r' & E & H)]; [by exists []|]. cbn [blanks].
  destruct (is_blank c) eqn:Ec.
  - exists r'. split; [|done]. cbn [app]. by rewrite <- E.
  - exists (c :: r). by split.
Qed.

Lemma blanks_nonempty (r : text) :
  blank_headed r = true <-> blanks r <> [].
Proof.
  destruct r as [|c r]; cbn [blank_headed blanks]; [done|].
  by destruct (is_blank c).
Qed.

Lemma no_match_before_tail (lit : text) (c : ascii) (l s : text) :
  no_match_before lit (c :: l) (c :: s) -> no_match_before lit l s.
Proof.
  intros H l1 (r & -> & Hr). specialize (H (c :: l1)).
  cbn [length] in H. enough (S (length l) <= S (length l1)) by lia.
  apply H. by exists r.
Qed.

Lemma search_from_first (lit : text) (pos : nat) (l W r : text) :
  W <> [] -> forallb is_blank W = true -> blank_headed r = false ->
  no_match_before lit l (l ++ lit ++ W ++ r) ->
  search_from lit pos (l ++ lit ++ W ++ r)
  = Some {| m_start := pos + length l; group1 := lit; group2 := W |}.
Proof.
  intros HW Hall Hr. revert pos. induction l as [|c l IH]; intros pos Hno.
  - cbn [app length]. rewrite Nat.add_0_r.
    destruct (lit ++ W ++ r) as [|c s] eqn:E.
    { destruct lit; [|done]. by destruct W. }
    cbn [search_from]. rewrite <- E.
    by rewrite startswith_app, drop_app_length, blanks_app; destruct W.
  - cbn [app search_from].
    destruct (startswith _ lit && _) eqn:E.
    + exfalso. apply andb_true_iff in E as [E1 E2].
      apply startswith_true in E1 as [k Hk].
      specialize (Hno []). cbn [length] in Hno.
      enough (S (length l) <= 0) by lia. apply Hno.
      exists k. split; [exact Hk|].
      change (c :: l ++ lit ++ W ++ r) with ((c :: l) ++ lit ++ W ++ r) in E2.
      cbn [app] in E2. rewrite Hk, drop_app_length in E2.
      apply blanks_nonempty. by destruct (blanks k).
    + rewrite IH by (by apply no_match_before_tail in Hno).
      do 2 f_equal. cbn [length]. lia.
Qed.

Lemma search_from_some (lit : text) (pos : nat) (s : text) (m : rmatch) :
  search_from lit pos s = Some m ->
  exists l W r,
    s = l ++ lit ++ W ++ r
    /\ m = {| m_start := pos + length l; group1 := lit; group2 := W |}
    /\ W <> [] /\ forallb is_blank W = true /\ blank_headed r = false
    /\ no_match_before lit l s.
Proof.
  revert pos. induction s as [|c s IH]; intros pos; [done|].
  cbn [search_from]. destruct (startswith _ lit && _) eqn:E.
  - intros [= <-]. apply andb_true_iff in E as [E1 E2].
    apply startswith_true in E1 as [k Hk]. rewrite Hk, drop_app_length in *.
    destruct (blanks_split k) as (r & Ek & Hr).
    exists [], (blanks k), r. cbn [app length]. rewrite Nat.add_0_r.
    split; [by rewrite <- Ek|]. split; [done|].
    split; [by destruct (blanks k)|]. split; [apply blanks_all|].
    split; [done|]. intros l1 _. cbn [length]. lia.
  - intros H. apply IH in H as (l & W & r & -> & -> & HW & Hall & Hr & Hno).
    exists (c :: l), W, r. cbn [app length].
    split; [done|]. split; [f_equal; lia|]. do 3 (split; [done|]).
    intros [|c' l1] (k & Hk & Hb).
    + exfalso. cbn [app] in Hk.
      apply andb_false_iff in E as [E | E].
      * apply startswith_false in E. apply E. by exists k.
      * rewrite Hk, drop_app_length in E.
        apply negb_false_iff in E. apply blanks_nonempty in Hb.
        by destruct (blanks k).
    + cbn [app] in Hk. injection Hk as <- Hk. cbn [length].
      enough (length l <= length l1) by lia. apply Hno. by exists k.
Qed.

Lemma search_from_none (lit : text) (pos : nat) (s : text) :
  search_from lit pos s = None <-> forall l, ~ matches_at lit l s.
Proof.
  split.
  - revert pos. induction s as [|c s IH]; intros pos H l (r & E & Hr).
    + symmetry in E. apply app_eq_nil in E as [_ E].
      apply app_eq_nil in E as [_ ->]. done.
    + cbn [search_from] in H. destruct (startswith _ lit && _) eqn:Ec; [done|].
      destruct l as [|c' l].
      * cbn [app] in E. apply andb_false_iff in Ec as [Ec | Ec].
        -- apply startswith_false in Ec. apply Ec. by exists r.
        -- rewrite E, drop_app_length in Ec.
           apply negb_false_iff in Ec. apply blanks_nonempty in Hr.
           by destruct (blanks r).
      * cbn [app] in E. injection E as <- E.
        apply (IH _ H l). by exists r.
  - intros H. destruct (search_from lit pos s) as [m|] eqn:E; [|done].
    apply search_from_some in E as (l & W & r & -> & _ & HW & Hall & _ & _).
    destruct (H l). exists (W ++ r). split; [done|].
    destruct W as [|c W]; [done|]. cbn [forallb] in Hall.
    cbn [app blank_headed]. by apply andb_true_iff in Hall as [-> _].
Qed.

(** The match found is also the first occurrence of its own text. *)
Lemma first_match_leftmost (lit l W r : text) :
  W <> [] -> forallb is_blank W = true ->
  no_match_before lit l (l ++ lit ++ W ++ r) ->
  leftmost (lit ++ W) l r.
Proof.
  intros HW Hall Hno l' r' E. apply Hno. exists (W ++ r').
  rewrite <- !app_assoc in E. split; [done|].
  destruct W as [|c W]; [done|]. cbn [forallb] in Hall.
  cbn [app blank_headed]. by apply andb_true_iff in Hall as [-> _].
Qed.

End SearchFacts.

(** ** [str.strip] *)

Section StripFacts.

Import Py.

Lemma lstrip_app (a b : text) :
  lstrip (a ++ b) = if forallb isspace a then lstrip b else lstrip a ++ b.
Proof.
  induction a as [|c a IH]; [done|]. cbn [app lstrip forallb].
  destruct (isspace c); [exact IH | done].
Qed.

Lemma lstrip_spaces (a : text) : forallb isspace a = true -> lstrip a = [].
Proof.
  induction a as [|c a IH]; [done|]. cbn [forallb lstrip].
  intros [-> H]%andb_true_iff. by apply IH.
Qed.

Lemma rstrip_prefix (s : text) : rstrip s `prefix_of` s.
Proof.
  unfold rstrip. rewrite <- (rev_involutive s) at 2.
  generalize (rev s) as t. intros t. induction t as [|c t IH]; [done|].
  cbn [lstrip]. destruct (isspace c); [|done].
  cbn [rev]. destruct IH as [k ->]. exists (k ++ [c]). by rewrite app_assoc.
Qed.

(** After a text that ends with a character that is no space, [rstrip]
    only touches what follows. *)
Lemma rstrip_app (p : text) (c : ascii) (y : text) :
  isspace c = false -> rstrip (p ++ c :: y) = p ++ c :: rstrip y.
Proof.
  intros Hc. unfold rstrip.
  rewrite rev_app_distr. cbn [rev]. rewrite <- app_assoc. cbn [app].
  rewrite lstrip_app.
  destruct (forallb isspace (rev y)) eqn:E.
  - cbn [lstrip]. rewrite Hc, (lstrip_spaces _ E).
    cbn [rev]. by rewrite rev_involutive.
  - rewrite rev_app_distr. cbn [rev]. rewrite rev_involutive.
    by rewrite <- app_assoc.
Qed.

End StripFacts.

(** ** The rule of fix_virtualization3.py *)

Section FixVirtualization3Facts.

Import Py Re FixVirtualization3.

Lemma check_after_first (l li W r : text) :
  check_after (l ++ li ++ W ++ r)
    {| m_start := length l; group1 := li; group2 := W |} = take 50 r.
Proof.
  unfold check_after, slice, m_end, group0. cbn [m_start group1 group2].
  replace (length l + length (li ++ W) + 50 - (length l + length (li ++ W)))
    with 50 by lia.
  f_equal. rewrite !app_assoc, <- (app_assoc l). rewrite <- length_app.
  apply drop_app_length.
Qed.

Lemma enabled_next_line (W r : text) : enabled_next (enabled_line W ++ r) = true.
Proof.
  unfold enabled_next, enabled_line, strip.
  change (txt "enabled: false," ++ nl :: W)
    with (txt "enabled: false" ++ ","%char :: nl :: W).
  rewrite <- app_assoc. cbn [app].
  set (y := take _ _).
  assert (Hy : exists z, y = txt "enabled: false" ++ ","%char :: z)
    by (by eexists).
  destruct Hy as [z ->]. by rewrite rstrip_app.
Qed.

(** The rule when the expression matches nowhere. *)
Lemma fv3_disable_no_match (module content : text) (out : list text) :
  (forall l, ~ matches_at (lit module) l content) ->
  disable module (content, out)
  = (content, out ++ [txt "Not found: " ++ module])
  /\ outcome module content = not_found.
Proof.
  intros H. apply (search_from_none _ 0) in H.
  unfold disable, outcome, search. cbn [fst snd]. by rewrite H.
Qed.

(** The rule at the first match. *)
Lemma fv3_disable_first_match (module l W r : text) (out : list text) :
  W <> [] -> forallb is_blank W = true -> blank_headed r = false ->
  no_match_before (lit module) l (l ++ lit module ++ W ++ r) ->
  disable module (l ++ lit module ++ W ++ r, out)
  = (if enabled_next r
     then (l ++ lit module ++ W ++ r, out ++ [txt "Already has enabled: " ++ module])
     else (l ++ lit module ++ W ++ enabled_line W ++ r,
           out ++ [txt "Disabled: " ++ module]))
  /\ outcome module (l ++ lit module ++ W ++ r)
     = if enabled_next r then skipped_already_present else applied.
Proof.
  intros HW Hall Hr Hno.
  unfold disable, outcome, search. cbn [fst snd].
  rewrite (search_from_first _ 0) by done. cbn [Nat.add].
  unfold has_enabled. rewrite check_after_first. fold (enabled_next r).
  destruct (enabled_next r); cbn [negb]; [done|]. split; [|done].
  unfold print, set_content, group0, replacement. cbn [fst snd group1 group2].
  f_equal.
  rewrite (app_assoc (lit module) W r).
  rewrite replace1_leftmost by (by apply first_match_leftmost).
  unfold enabled_line. by rewrite <- !app_assoc.
Qed.

(** The match of the first run is the first match of the second run. *)
Lemma no_match_before_insert (li l W x r : text) :
  W <> [] ->
  no_match_before li l (l ++ li ++ W ++ r) ->
  no_match_before li l (l ++ li ++ W ++ x ++ r).
Proof.
  intros HW Hno l1 (k & E & Hk).
  destruct (le_lt_dec (length l) (length l1)) as [|Hlt]; [done|].
  apply Hno. destruct k as [|c k]; [done|].
  assert (Hp : (l1 ++ li ++ [c]) `prefix_of` (l ++ li ++ W)).
  { apply (prefix_shorter _ _ (l ++ li ++ W ++ x ++ r)).
    - exists k. rewrite E. by rewrite <- !app_assoc.
    - exists (x ++ r). by rewrite <- !app_assoc.
    - rewrite !length_app. destruct W; [done|]. cbn [length]. lia. }
  destruct Hp as [z Hz]. exists (c :: z ++ r). split; [|done].
  rewrite !app_assoc. rewrite !app_assoc in Hz. rewrite Hz.
  rewrite <- !app_assoc. done.
Qed.

End FixVirtualization3Facts.

Section RuleFacts.

Import Py Re.

Lemma occurs_prefix (a b s : text) : occurs (a ++ b) s -> occurs a s.
Proof.
  intros (l & r & ->). exists l, (b ++ r). unfold occurs_at.
  by rewrite <- app_assoc.
Qed.

Lemma lit_name_line (module r : text) :
  FixVirtualization3.lit module ++ r = name_line module ++ nl :: r.
Proof. unfold FixVirtualization3.lit. by rewrite <- app_assoc. Qed.

(** Either the expression of fix_virtualization3.py matches nowhere, or the
    content splits at its first match. *)
Lemma first_match_cases (module content : text) :
  (forall l, ~ matches_at (FixVirtualization3.lit module) l content)
  \/ exists l W r,
       content = l ++ FixVirtualization3.lit module ++ W ++ r
       /\ W <> [] /\ forallb is_blank W = true /\ blank_headed r = false
       /\ no_match_before (FixVirtualization3.lit module) l content.
Proof.
  destruct (search_from (FixVirtualization3.lit module) 0 content) as [m|] eqn:E.
  - right. apply search_from_some in E as (l & W & r & H & _ & H').
    by exists l, W, r.
  - left. by apply (search_from_none _ 0).
Qed.

Lemma unindented_by_search (module content : text) :
  search (FixVirtualization3.lit module) content = None ->
  forall l r, content = l ++ name_line module ++ nl :: r ->
              blank_headed r = false.
Proof.
  intros H l r E. destruct (blank_headed r) eqn:Hb; [exfalso|done].
  apply (proj1 (search_from_none _ 0 _) H l). exists r.
  by rewrite lit_name_line.
Qed.

Lemma fv3_disable_twice (module content : text) (out : list text) :
  (FixVirtualization3.disable module
     (FixVirtualization3.disable module (content, out))).1
  = (FixVirtualization3.disable module (content, out)).1
  /\ (FixVirtualization3.outcome module content = applied ->
      FixVirtualization3.outcome module
        (FixVirtualization3.disable module (content, out)).1
      = skipped_already_present).
Proof.
  destruct (first_match_cases module content)
    as [H | (l & W & r & -> & HW & Hall & Hr & Hno)].
  - destruct (fv3_disable_no_match module content out H) as [E0 Ho].
    rewrite E0, Ho. cbn [fst]. split; [|done].
    destruct (fv3_disable_no_match module content
                (out ++ [txt "Not found: " ++ module]) H) as [E1 _].
    by rewrite E1.
  - destruct (fv3_disable_first_match module l W r out) as [E0 Ho];
      try done.
    rewrite E0, Ho. destruct (enabled_next r) eqn:En; cbn [fst].
    + split; [|done].
      destruct (fv3_disable_first_match module l W r
                  (out ++ [txt "Already has enabled: " ++ module]))
        as [E1 _]; try done.
      by rewrite E1, En.
    + destruct (fv3_disable_first_match module l W
                  (enabled_line W ++ r) (out ++ [txt "Disabled: " ++ module]))
        as [E1 E2]; try done.
      { by apply no_match_before_insert. }
      rewrite E1, E2.
      by rewrite enabled_next_line.
Qed.

Lemma fv1_guard_true (module content : text) :
  FixVirtualization.guard module content = true <->
  occurs (name_line module) content
  /\ ~ occurs (FixVirtualization.disabled_mark module) content.
Proof.
  unfold FixVirtualization.guard.
  by rewrite andb_true_iff, negb_true_iff, str_in_occurs, str_in_absent.
Qed.

Lemma fv1_replacement_mark (module : text) :
  FixVirtualization.replacement module
  = FixVirtualization.disabled_mark module ++ txt ",".
Proof.
  unfold FixVirtualization.replacement, FixVirtualization.disabled_mark.
  by rewrite <- app_assoc.
Qed.

Lemma fv1_pattern_nonempty (module : text) :
  FixVirtualization.pattern module <> [].
Proof. done. Qed.

Lemma fv1_disable_content (module : text) (st : state) :
  (FixVirtualization.disable module st).1
  = if FixVirtualization.guard module st.1
    then replace (FixVirtualization.pattern module)
           (FixVirtualization.replacement module) st.1
    else st.1.
Proof.
  unfold FixVirtualization.disable.
  by destruct (FixVirtualization.guard module st.1).
Qed.

Lemma fv1_guard_after (module content : text) :
  occurs (FixVirtualization.pattern module) content ->
  FixVirtualization.guard module
    (replace (FixVirtualization.pattern module)
       (FixVirtualization.replacement module) content) = false.
Proof.
  intros (l & r & -> & Hl)%occurs_leftmost.
  rewrite replace_leftmost by done.
  unfold FixVirtualization.guard. apply andb_false_iff. right.
  apply negb_false_iff, str_in_occurs.
  rewrite fv1_replacement_mark, <- app_assoc.
  by eexists l, _.
Qed.

Lemma fv1_disable_twice (module content : text) (out : list text) :
  (FixVirtualization.disable module
     (FixVirtualization.disable module (content, out))).1
  = (FixVirtualization.disable module (content, out)).1.
Proof.
  rewrite (fv1_disable_content module (FixVirtualization.disable _ _)).
  rewrite !fv1_disable_content. cbn [fst].
  destruct (FixVirtualization.guard module content) eqn:G; [|by rewrite G].
  destruct (str_in (FixVirtualization.pattern module) content) eqn:E.
  - apply str_in_occurs in E. by rewrite fv1_guard_after.
  - apply str_in_absent in E. rewrite !(replace_absent _ _ _ E).
    by rewrite G.
Qed.

End RuleFacts.

(** ** Single rules *)

(** C10. In fix_virtualization3.py a module is patched only when a line
    [name: "m",] is followed at once by a line that begins with a space or
    a tab: when every occurrence of the name line is followed by something
    else (a closing brace in column 0, the end of the file), the rule prints
    [Not found: m] and leaves the content as it is, also when the name line
    occurs in the content. *)
Theorem unindented_next_line_not_found
    (module content : text) (out : list text) :
  (forall l r, content = l ++ name_line module ++ nl :: r ->
               blank_headed r = false) ->
  FixVirtualization3.disable module (content, out)
  = (content, out ++ [txt "Not found: " ++ module])
  /\ FixVirtualization3.outcome module content = not_found.
Proof.
  intros H. apply fv3_disable_no_match. intros l (r & E & Hr).
  rewrite lit_name_line in E. by rewrite (H l r E) in Hr.
Qed.

Lemma unindented_next_line_not_found_witness :
  let module := txt "microdroid_kernel" in
  let content :=
    txt "cc_binary {" ++ nl :: txt "    name: " ++ dq :: module ++ dq ::
    txt "," ++ nl :: txt "}" in
  Py.str_in (name_line module) content = true
  /\ FixVirtualization3.disable module (content, [])
     = (content, [txt "Not found: " ++ module])
  /\ FixVirtualization3.outcome module content = not_found.
Proof.
  intros module content. split; [reflexivity|].
  apply (unindented_next_line_not_found module content []).
  apply unindented_by_search. reflexivity.
Defined.

(** C2. A rule whose anchor does not occur in the content leaves the
    content as it is and takes the not-found branch; nothing is raised, the
    loop goes on with the next rule.  fix_virtualization3.py prints
    [Not found: m], the other scripts print nothing for the rule. *)
Theorem no_op_on_missing_anchor
    (module old new content : text) (rest : list text)
    (rules : list (text * text)) (out : list text) :
  (Py.str_in (name_line module) content = false ->
     FixVirtualization.disable module (content, out) = (content, out)
     /\ FixVirtualization.outcome module content = not_found
     /\ FixVirtualization.run_rules (module :: rest) (content, out)
        = FixVirtualization.run_rules rest (content, out)
     /\ FixVirtualization3.disable module (content, out)
        = (content, out ++ [txt "Not found: " ++ module])
     /\ FixVirtualization3.outcome module content = not_found
     /\ FixVirtualization3.run_rules (module :: rest) (content, out)
        = FixVirtualization3.run_rules rest
            (content, out ++ [txt "Not found: " ++ module]))
  /\ (Py.str_in old content = false ->
        FixVirtualization4.replace_ref (old, new) (content, out) = (content, out)
        /\ FixVirtualization4.outcome (old, new) content = not_found
        /\ FixVirtualization4.run_rules ((old, new) :: rules) (content, out)
           = FixVirtualization4.run_rules rules (content, out))
  /\ (Py.str_in FixProfiling.old_sdk content = false ->
        FixProfiling.patch content = (content, [])).
Proof.
  split; [|split].
  - intros H.
    assert (E1 : FixVirtualization.disable module (content, out) = (content, out)).
    { unfold FixVirtualization.disable, FixVirtualization.guard.
      cbn [fst]. by rewrite H. }
    assert (E3 : FixVirtualization3.disable module (content, out)
                 = (content, out ++ [txt "Not found: " ++ module])
                 /\ FixVirtualization3.outcome module content = not_found).
    { apply fv3_disable_no_match. intros l (r & E & _).
      apply str_in_absent in H. apply H.
      exists l, (nl :: r). unfold occurs_at.
      by rewrite <- lit_name_line. }
    destruct E3 as [E3 O3].
    unfold FixVirtualization.run_rules, FixVirtualization3.run_rules.
    cbn [fold_left]. rewrite E1, E3.
    unfold FixVirtualization.outcome. by rewrite H.
  - intros H.
    unfold FixVirtualization4.run_rules. cbn [fold_left].
    unfold FixVirtualization4.replace_ref, FixVirtualization4.outcome.
    cbn [fst snd]. by rewrite H.
  - intros H. unfold FixProfiling.patch.
    rewrite replace_absent; [done|]. by apply str_in_absent.
Qed.

Lemma no_op_on_missing_anchor_witness :
  let module := txt "microdroid_kernel" in
  let old := FixVirtualization4.quoted (txt ":microdroid_kernel_prebuilt-arm64") in
  let content := txt "cc_binary { name: " ++ dq :: txt "x" ++ dq :: txt ", }" in
  FixVirtualization.disable module (content, []) = (content, [])
  /\ FixVirtualization3.disable module (content, [])
     = (content, [txt "Not found: " ++ module])
  /\ FixVirtualization4.replace_ref (old, FixVirtualization4.empty_file)
       (content, []) = (content, [])
  /\ FixProfiling.patch content = (content, []).
Proof.
  intros module old content.
  destruct (no_op_on_missing_anchor module old FixVirtualization4.empty_file
              content [] [] []) as (H1 & H4 & Hp).
  destruct H1 as (E1 & _ & _ & E3 & _); [reflexivity|].
  destruct H4 as (E4 & _); [reflexivity|].
  split; [exact E1|]. split; [exact E3|]. split; [exact E4|].
  apply Hp. reflexivity.
Defined.

(** C5. A rule whose already-present check holds leaves the content as it
    is and takes the skipped branch (fix_virtualization3.py prints
    [Already has enabled: m], fix_virtualization.py prints nothing); and
    running the same insert rule a second time right after the first leaves
    the content of the first run, the second run of fix_virtualization3.py
    taking the skipped branch when the first one applied. *)
Theorem skipped_when_already_present
    (module content : text) (out : list text) :
  (Py.str_in (FixVirtualization.disabled_mark module) content = true ->
     FixVirtualization.disable module (content, out) = (content, out)
     /\ FixVirtualization.outcome module content = skipped_already_present)
  /\ (forall m, Re.search (FixVirtualization3.lit module) content = Some m ->
        FixVirtualization3.has_enabled content m = true ->
        FixVirtualization3.disable module (content, out)
        = (content, out ++ [txt "Already has enabled: " ++ module])
        /\ FixVirtualization3.outcome module content = skipped_already_present)
  /\ (FixVirtualization.disable module
        (FixVirtualization.disable module (content, out))).1
     = (FixVirtualization.disable module (content, out)).1
  /\ (FixVirtualization3.disable module
        (FixVirtualization3.disable module (content, out))).1
     = (FixVirtualization3.disable module (content, out)).1
  /\ (FixVirtualization3.outcome module content = applied ->
        FixVirtualization3.outcome module
          (FixVirtualization3.disable module (content, out)).1
        = skipped_already_present).
Proof.
  split; [|split; [|split; [|split]]].
  - intros H.
    assert (Hn : Py.str_in (name_line module) content = true).
    { apply str_in_occurs. apply str_in_occurs in H.
      by apply occurs_prefix in H. }
    unfold FixVirtualization.disable, FixVirtualization.guard,
      FixVirtualization.outcome. cbn [fst]. by rewrite H, Hn.
  - intros m Hm He.
    unfold FixVirtualization3.disable, FixVirtualization3.outcome.
    cbn [fst]. by rewrite Hm, He.
  - apply fv1_disable_twice.
  - apply fv3_disable_twice.
  - apply fv3_disable_twice.
Qed.

Lemma skipped_when_already_present_witness :
  let module := txt "microdroid_kernel" in
  let content :=
    txt "    name: " ++ dq :: module ++ dq :: txt "," ++ nl ::
    txt "    enabled: false," ++ nl :: txt "    srcs: []," in
  let before :=
    txt "    name: " ++ dq :: module ++ dq :: txt "," ++ nl ::
    txt "    srcs: []," in
  (FixVirtualization.disable module (content, []) = (content, [])
   /\ FixVirtualization.outcome module content = skipped_already_present)
  /\ (FixVirtualization3.disable module (content, [])
      = (content, [txt "Already has enabled: " ++ module])
      /\ FixVirtualization3.outcome module content = skipped_already_present)
  /\ FixVirtualization3.outcome module
       (FixVirtualization3.disable module (before, [])).1
     = skipped_already_present.
Proof.
  intros module content before.
  destruct (skipped_when_already_present module content [])
    as (H1 & H3 & _).
  destruct (skipped_when_already_present module before [])
    as (_ & _ & _ & _ & H5).
  split; [apply H1; reflexivity|].
  split; [eapply H3; reflexivity|].
  apply H5. reflexivity.
Defined.

(** C3, as the code has it.  fix_virtualization3.py takes the indentation
    from the line that follows the name line, not from the name line: when
    the rule applies, the content is [l ++ name: "m", ++ newline ++ W ++ r]
    with [W] the blanks (spaces and tabs, one or more, of any kind and
    number) that begin the following line, and the new content has the line
    [W ++ enabled: false,] put before that line.  fix_virtualization.py
    writes four spaces before [enabled: false,] whatever the indentation of
    the lines around: after each name line met by the scan it puts
    [    enabled: false,]. *)
Theorem inserted_indentation (module content : text) (out : list text) :
  (FixVirtualization3.outcome module content = applied ->
     exists l W r,
       content = l ++ name_line module ++ nl :: W ++ r
       /\ W <> [] /\ Re.blanks (W ++ r) = W
       /\ (FixVirtualization3.disable module (content, out)).1
          = l ++ name_line module ++ nl ::
            W ++ txt "enabled: false," ++ nl :: W ++ r)
  /\ (FixVirtualization.guard module content = true ->
        exists segs tail,
          content = interleave (name_line module ++ [nl]) segs tail
          /\ forallb (starts_none (name_line module ++ [nl])) segs = true
          /\ Py.str_in (name_line module ++ [nl]) tail = false
          /\ (FixVirtualization.disable module (content, out)).1
             = interleave
                 (name_line module ++ nl :: txt "    enabled: false,")
                 segs tail).
Proof.
  split.
  - intros Ho.
    destruct (first_match_cases module content)
      as [H | (l & W & r & -> & HW & Hall & Hr & Hno)].
    + destruct (fv3_disable_no_match module content out H) as [_ Ho'].
      by rewrite Ho' in Ho.
    + destruct (fv3_disable_first_match module l W r out) as [E0 Ho'];
        try done.
      rewrite Ho' in Ho. rewrite E0.
      destruct (enabled_next r); [done|]. cbn [fst].
      exists l, W, r. rewrite !lit_name_line.
      split; [done|]. split; [done|]. split; [by apply blanks_app|].
      unfold enabled_line. by rewrite <- !app_assoc.
  - intros G.
    destruct (interleave_exists (FixVirtualization.pattern module) content)
      as (segs & tail & -> & Hs & Ht); [done|].
    exists segs, tail. do 3 (split; [done|]).
    rewrite fv1_disable_content. cbn [fst]. rewrite G.
    by apply replace_interleave.
Qed.

Lemma inserted_indentation_witness :
  let module := txt "microdroid_kernel" in
  let content :=
    txt "  name: " ++ dq :: module ++ dq :: txt "," ++ nl ::
    tab :: txt "srcs: []," in
  (exists l W r,
     content = l ++ name_line module ++ nl :: W ++ r
     /\ W <> [] /\ Re.blanks (W ++ r) = W
     /\ (FixVirtualization3.disable module (content, [])).1
        = l ++ name_line module ++ nl ::
          W ++ txt "enabled: false," ++ nl :: W ++ r)
  /\ (exists segs tail,
        content = interleave (name_line module ++ [nl]) segs tail
        /\ forallb (starts_none (name_line module ++ [nl])) segs = true
        /\ Py.str_in (name_line module ++ [nl]) tail = false
        /\ (FixVirtualization.disable module (content, [])).1
           = interleave
               (name_line module ++ nl :: txt "    enabled: false,")
               segs tail).
Proof.
  intros module content.
  destruct (inserted_indentation module content []) as [H3 H1].
  split; [apply H3; reflexivity | apply H1; reflexivity].
Defined.

(** C3 fails as stated: the name line is indented by two spaces, the line
    fix_virtualization3.py inserts by the eight spaces of the line that
    followed, and the text fix_virtualization.py inserts after a name line
    indented by a tab by four spaces. *)
Lemma inserted_indentation_counterexample :
  let module := txt "microdroid_kernel" in
  let name2 := txt "  name: " ++ dq :: module ++ dq :: txt "," in
  let name_tab := tab :: txt "name: " ++ dq :: module ++ dq :: txt "," in
  (FixVirtualization3.outcome module (name2 ++ nl :: txt "        srcs: [],")
   = applied
   /\ (FixVirtualization3.disable module
         (name2 ++ nl :: txt "        srcs: [],", [])).1
      = name2 ++ nl :: txt "        enabled: false," ++ nl ::
        txt "        srcs: [],"
   /\ Re.blanks name2 = txt "  "
   /\ Re.blanks (txt "        enabled: false,") = txt "        "
   /\ Re.blanks (txt "        enabled: false,") <> Re.blanks name2)
  /\ (FixVirtualization.outcome module (name_tab ++ nl :: tab :: txt "srcs: [],")
      = applied
      /\ (FixVirtualization.disable module
            (name_tab ++ nl :: tab :: txt "srcs: [],", [])).1
         = name_tab ++ nl :: txt "    enabled: false," ++ tab :: txt "srcs: [],"
      /\ Re.blanks name_tab = [tab]
      /\ Re.blanks (txt "    enabled: false," ++ tab :: txt "srcs: [],")
         <> Re.blanks name_tab).
Proof. repeat split; try reflexivity; discriminate. Qed.

(** C9, as the code has it.  In fix_virtualization.py the already-disabled
    check looks at the whole content: when [name: "m",] followed by a
    newline and [    enabled: false] occurs anywhere, the rule changes
    nothing, at no occurrence of the name; when the name occurs and that
    mark occurs nowhere, one run puts [    enabled: false,] after every
    occurrence of the name line that a newline follows (the occurrences of
    [name: "m",] followed by a newline, as the scan meets them), and leaves
    the rest of the content, with the occurrences of the name that no
    newline follows, as it is. *)
Theorem global_disabled_check
    (module : text) (segs : list text) (tail : text) (out : list text) :
  let content := interleave (name_line module ++ [nl]) segs tail in
  forallb (starts_none (name_line module ++ [nl])) segs = true ->
  Py.str_in (name_line module ++ [nl]) tail = false ->
  (Py.str_in (FixVirtualization.disabled_mark module) content = true ->
     FixVirtualization.disable module (content, out) = (content, out))
  /\ (Py.str_in (name_line module) content = true ->
      Py.str_in (FixVirtualization.disabled_mark module) content = false ->
      FixVirtualization.disable module (content, out)
      = (interleave (name_line module ++ nl :: txt "    enabled: false,")
           segs tail,
         out ++ [txt "Disabled: " ++ module])).
Proof.
  intros content Hs Ht. split.
  - intros H. unfold FixVirtualization.disable, FixVirtualization.guard.
    cbn [fst]. rewrite H, andb_false_r. done.
  - intros Hn Hm. unfold FixVirtualization.disable, FixVirtualization.guard.
    cbn [fst]. rewrite Hn, Hm. cbn [negb andb].
    unfold print, set_content, Re.sub_literal. cbn [fst snd]. f_equal.
    by apply replace_interleave.
Qed.

Lemma global_disabled_check_witness :
  let module := txt "microdroid_kernel" in
  let name := txt "    name: " ++ dq :: module ++ dq :: txt "," in
  (FixVirtualization.disable module
     (txt "a {" ++ nl :: name ++ nl :: txt "    enabled: false," ++ nl ::
      txt "}" ++ nl :: txt "b {" ++ nl :: name ++ nl :: txt "}", [])
   = (txt "a {" ++ nl :: name ++ nl :: txt "    enabled: false," ++ nl ::
      txt "}" ++ nl :: txt "b {" ++ nl :: name ++ nl :: txt "}", []))
  /\ (FixVirtualization.disable module
        (txt "a {" ++ nl :: name ++ nl :: txt "}" ++ nl ::
         txt "b {" ++ nl :: name ++ nl :: txt "}", [])
      = (txt "a {" ++ nl :: name ++ nl :: txt "    enabled: false," ++
         txt "}" ++ nl :: txt "b {" ++ nl :: name ++ nl ::
         txt "    enabled: false," ++ txt "}",
         [txt "Disabled: " ++ module])).
Proof.
  intros module name. split.
  - apply (global_disabled_check module
             [txt "a {" ++ nl :: txt "    ";
              txt "    enabled: false," ++ nl :: txt "}" ++ nl ::
              txt "b {" ++ nl :: txt "    "]
             (txt "}") []); reflexivity.
  - apply (global_disabled_check module
             [txt "a {" ++ nl :: txt "    ";
              txt "}" ++ nl :: txt "b {" ++ nl :: txt "    "]
             (txt "}") []); reflexivity.
Defined.

(** C9 fails as stated: the name occurs twice and is disabled nowhere; the
    first occurrence has a comment after it on its line, and the run puts
    nothing after that occurrence. *)
Lemma global_disabled_check_counterexample :
  let module := txt "microdroid_kernel" in
  let name := txt "name: " ++ dq :: module ++ dq :: txt "," in
  let content := name ++ txt " // a" ++ nl :: name ++ nl :: txt "srcs: []," in
  Py.str_in (FixVirtualization.disabled_mark module) content = false
  /\ FixVirtualization.outcome module content = applied
  /\ (FixVirtualization.disable module (content, [])).1
     = name ++ txt " // a" ++ nl :: name ++ nl ::
       txt "    enabled: false," ++ txt "srcs: [],"
  /\ Py.startswith
       (drop (length name) (FixVirtualization.disable module (content, [])).1)
       (nl :: txt "    enabled: false,") = false.
Proof. repeat split; reflexivity. Qed.

(** ** What the scripts print *)

Section LogFacts.

Import Py Re.

Lemma interleave_length (sep : text) (segs : list text) (tail : text) :
  length (interleave sep segs tail)
  = length (concat segs) + length segs * length sep + length tail.
Proof.
  induction segs as [|s segs IH]; cbn [interleave concat length]; [lia|].
  rewrite !length_app, IH. lia.
Qed.

Lemma interleave_neq (old new : text) (segs : list text) (tail : text) :
  old <> new -> segs <> [] ->
  interleave old segs tail <> interleave new segs tail.
Proof.
  intros Hne Hs E. destruct segs as [|s segs]; [done|].
  destruct (decide (length old = length new)) as [Hl | Hl].
  - cbn [interleave] in E. apply app_inv_head in E.
    by apply app_inj_1 in E as [E _].
  - apply (f_equal length) in E. rewrite !interleave_length in E.
    cbn [length] in E.
    apply Nat.add_cancel_r, Nat.add_cancel_l, Nat.mul_cancel_l in E; done.
Qed.

Lemma replace_empty_length (new s : text) :
  length s + length new <= length (replace [] new s).
Proof.
  unfold replace. rewrite length_app.
  induction s as [|a s IH]; cbn [flat_map length]; [lia|].
  rewrite length_app. cbn [length]. lia.
Qed.

Lemma replace_changes (old new content : text) :
  old <> new -> occurs old content -> replace old new content <> content.
Proof.
  intros Hne Ho. destruct old as [|a old].
  - intros E. pose proof (replace_empty_length new content) as H.
    rewrite E in H. destruct new; [done|]. cbn [length] in H. lia.
  - destruct (interleave_exists (a :: old) content) as
      (segs & tail & -> & Hs & Ht); [done|].
    rewrite replace_interleave by done.
    intros E. apply (interleave_neq (a :: old) new segs tail); [done| |done].
    intros ->. cbn [interleave] in Ho. apply str_in_absent in Ht. done.
Qed.

Lemma fv3_disable_report (module content : text) (out : list text) :
  FixVirtualization3.disable module (content, out)
  = ((FixVirtualization3.disable module (content, [])).1,
     out ++ [report3 module (FixVirtualization3.outcome module content)]).
Proof.
  unfold FixVirtualization3.disable, FixVirtualization3.outcome.
  cbn [fst]. destruct (search _ content) as [m|]; [|done].
  by destruct (negb (FixVirtualization3.has_enabled content m)).
Qed.

Lemma fv3_run_rules_log (modules : list text) (content : text) (out : list text) :
  FixVirtualization3.run_rules modules (content, out)
  = ((FixVirtualization3.run_rules modules (content, [])).1,
     out ++ log3 modules content).
Proof.
  revert content out. induction modules as [|m ms IH]; intros content out.
  - cbn. by rewrite app_nil_r.
  - unfold FixVirtualization3.run_rules in *. cbn [fold_left log3].
    rewrite fv3_disable_report, IH.
    rewrite (fv3_disable_report m content []), (IH _ ([] ++ _)).
    cbn [fst]. by rewrite <- app_assoc.
Qed.

Lemma log3_length (modules : list text) (content : text) :
  length (log3 modules content) = length modules.
Proof.
  revert content. induction modules as [|m ms IH]; intros content; [done|].
  cbn [log3 length]. by rewrite IH.
Qed.

Lemma fv3_applied_changes (module content : text) :
  FixVirtualization3.outcome module content = applied <->
  (FixVirtualization3.disable module (content, [])).1 <> content.
Proof.
  destruct (first_match_cases module content)
    as [H | (l & W & r & -> & HW & Hall & Hr & Hno)].
  - destruct (fv3_disable_no_match module content [] H) as [E O].
    rewrite E, O. cbn [fst]. split; done.
  - destruct (fv3_disable_first_match module l W r []) as [E O]; try done.
    rewrite E, O. destruct (enabled_next r); cbn [fst]; [split; done|].
    split; [intros _ | done]. intros E'.
    do 3 apply app_inv_head in E'.
    apply (f_equal length) in E'. unfold enabled_line in E'.
    rewrite length_app in E'. simpl in E'. lia.
Qed.

Lemma fv1_disable_report (module content : text) (out : list text) :
  FixVirtualization.disable module (content, out)
  = ((FixVirtualization.disable module (content, [])).1,
     out ++ match FixVirtualization.outcome module content with
            | applied => [txt "Disabled: " ++ module]
            | _ => []
            end).
Proof.
  unfold FixVirtualization.disable, FixVirtualization.outcome,
    FixVirtualization.guard.
  cbn [fst].
  destruct (str_in (name_line module) content),
    (str_in (FixVirtualization.disabled_mark module) content);
    cbn; by rewrite ?app_nil_r.
Qed.

Lemma fv1_run_rules_log (modules : list text) (content : text) (out : list text) :
  FixVirtualization.run_rules modules (content, out)
  = ((FixVirtualization.run_rules modules (content, [])).1,
     out ++ log1 modules content).
Proof.
  revert content out. induction modules as [|m ms IH]; intros content out.
  - cbn. by rewrite app_nil_r.
  - unfold FixVirtualization.run_rules in *. cbn [fold_left log1].
    rewrite fv1_disable_report, IH.
    rewrite (fv1_disable_report m content []), (IH _ ([] ++ _)).
    cbn [fst app]. by rewrite <- app_assoc.
Qed.

Lemma fv4_replace_ref_report (rule : text * text) (content : text) (out : list text) :
  FixVirtualization4.replace_ref rule (content, out)
  = ((FixVirtualization4.replace_ref rule (content, [])).1,
     out ++ match FixVirtualization4.outcome rule content with
            | applied => [txt "Replaced: " ++ rule.1 ++ txt " -> " ++ rule.2]
            | _ => []
            end).
Proof.
  destruct rule as [old new].
  unfold FixVirtualization4.replace_ref, FixVirtualization4.outcome.
  cbn [fst snd]. destruct (str_in old content); cbn; by rewrite ?app_nil_r.
Qed.

Lemma fv4_run_rules_log (rules : list (text * text)) (content : text) (out : list text) :
  FixVirtualization4.run_rules rules (content, out)
  = ((FixVirtualization4.run_rules rules (content, [])).1,
     out ++ log4 rules content).
Proof.
  revert content out. induction rules as [|r rs IH]; intros content out.
  - cbn. by rewrite app_nil_r.
  - unfold FixVirtualization4.run_rules in *. cbn [fold_left log4].
    rewrite fv4_replace_ref_report, IH.
    rewrite (fv4_replace_ref_report r content []), (IH _ ([] ++ _)).
    cbn [fst app]. by rewrite <- app_assoc.
Qed.

End LogFacts.

(** C8, as the code has it.  fix_virtualization3.py prints exactly one line
    for each rule, by the branch the rule took ([Disabled:] exactly when
    the rule changed the content, [Already has enabled:] when it skipped,
    [Not found:] when the expression matched nowhere), then [Done!].
    fix_virtualization.py and fix_virtualization4.py print a line only for
    the rules that took the applied branch and nothing for the others, then
    [Done!]; a rule of fix_virtualization4.py that applied changed the
    content when its two literals differ.  fix_profiling.py prints
    [Fixed profiling-module-sdk] in every run. *)
Theorem printed_lines (content : text) :
  (FixVirtualization3.main content).2
  = log3 FixVirtualization3.problematic_modules content ++ [txt "Done!"]
  /\ length (log3 FixVirtualization3.problematic_modules content)
     = length FixVirtualization3.problematic_modules
  /\ (forall module c,
        FixVirtualization3.outcome module c = applied <->
        (FixVirtualization3.disable module (c, [])).1 <> c)
  /\ (FixVirtualization.main content).2
     = log1 FixVirtualization.modules_to_disable content ++ [txt "Done!"]
  /\ (FixVirtualization4.main content).2
     = log4 FixVirtualization4.replacements content ++ [txt "Done!"]
  /\ (forall old new c,
        old <> new ->
        FixVirtualization4.outcome (old, new) c = applied ->
        (FixVirtualization4.replace_ref (old, new) (c, [])).1 <> c)
  /\ (FixProfiling.main content).2 = [txt "Fixed profiling-module-sdk"].
Proof.
  split; [|split; [|split; [|split; [|split; [|split]]]]].
  - unfold FixVirtualization3.main, FixVirtualization3.patch, print.
    by rewrite fv3_run_rules_log.
  - apply log3_length.
  - apply fv3_applied_changes.
  - unfold FixVirtualization.main, FixVirtualization.patch, print.
    by rewrite fv1_run_rules_log.
  - unfold FixVirtualization4.main, FixVirtualization4.patch, print.
    by rewrite fv4_run_rules_log.
  - intros old new c Hne. unfold FixVirtualization4.outcome,
      FixVirtualization4.replace_ref. cbn [fst snd].
    destruct (Py.str_in old c) eqn:E; [intros _|done].
    cbn [set_content print fst]. apply replace_changes; [done|].
    by apply str_in_occurs.
  - done.
Qed.

Lemma printed_lines_witness :
  let old := FixVirtualization4.quoted (txt ":microdroid_kernel_prebuilt-arm64") in
  let content := txt "kernel: " ++ old ++ txt "," in
  (FixVirtualization4.main content).2
  = log4 FixVirtualization4.replacements content ++ [txt "Done!"]
  /\ (FixVirtualization4.replace_ref (old, FixVirtualization4.empty_file)
        (content, [])).1 <> content.
Proof.
  intros old content.
  destruct (printed_lines content) as (_ & _ & _ & _ & H4 & Hc & _).
  split; [exact H4|]. apply Hc; [discriminate | reflexivity].
Defined.

(** C8 fails as stated: fix_virtualization4.py runs its six rules and
    fix_virtualization.py its eight on a file without any of their anchors
    and print [Done!] only; fix_virtualization.py prints [Disabled:] for a
    name with a comment after it on its line, where it changes nothing; and
    fix_profiling.py prints its line for a file it does not change. *)
Lemma printed_lines_counterexample :
  let module := txt "microdroid_kernel" in
  let commented := name_line module ++ txt " // kernel" in
  length FixVirtualization4.replacements = 6
  /\ FixVirtualization4.main (txt "cc_binary {}")
     = (txt "cc_binary {}", [txt "Done!"])
  /\ length FixVirtualization.modules_to_disable = 8
  /\ FixVirtualization.main (txt "cc_binary {}")
     = (txt "cc_binary {}", [txt "Done!"])
  /\ FixVirtualization.disable module (commented, [])
     = (commented, [txt "Disabled: " ++ module])
  /\ FixProfiling.main (txt "cc_binary {}")
     = (txt "cc_binary {}", [txt "Fixed profiling-module-sdk"]).
Proof. repeat split; reflexivity. Qed.

(** ** The run against the file system *)

Section RunFacts.

Import Run.

Lemma print_lines_run (lines : list text) (w : world) :
  print_lines lines w
  = (inr tt, {| files := files w; read_only := read_only w; room := room w;
                trace := trace w ++ map Print lines |}).
Proof.
  revert w. induction lines as [|l ls IH]; intros w.
  - cbn. rewrite app_nil_r. by destruct w.
  - cbn [print_lines]. unfold bind, print_line. rewrite IH.
    unfold emit. cbn. by rewrite <- app_assoc.
Qed.

Lemma reaches_all (w : world) (path : string) (content : text) :
  (forall n, room w !! path = Some n -> length content <= n) ->
  reaches w path content = content.
Proof.
  intros H. unfold reaches. destruct (room w !! path) as [n|]; [|done].
  apply take_ge. by apply H.
Qed.

Lemma reaches_short (w : world) (path : string) (content : text) (n : nat) :
  room w !! path = Some n -> n < length content ->
  reaches w path content = take n content /\ take n content <> content.
Proof.
  intros H Hn. unfold reaches. rewrite H. split; [done|].
  intros E. apply (f_equal length) in E. rewrite length_take in E. lia.
Qed.

(** The whole run, case by case. *)
Lemma script_result (path : string) (patch : text -> state) (last : text)
    (w : world) :
  script path patch last w
  = match files w !! path with
    | None => (inl (FileNotFoundError path), w)
    | Some content =>
        let printed := trace w ++ map Print (patch content).2 in
        let written := reaches w path (patch content).1 in
        if decide (path ∈ read_only w)
        then (inl (PermissionError path),
              {| files := files w; read_only := read_only w; room := room w;
                 trace := printed |})
        else if decide (written = (patch content).1)
        then (inr tt,
              {| files := <[path := written]> (files w);
                 read_only := read_only w; room := room w;
                 trace := printed
                          ++ [Truncate path; Write path written; Print last] |})
        else (inl (OSError path),
              {| files := <[path := written]> (files w);
                 read_only := read_only w; room := room w;
                 trace := printed ++ [Truncate path; Write path written] |})
    end.
Proof.
  unfold script, bind, read_file.
  destruct (files w !! path) as [content|] eqn:E; [|done].
  rewrite print_lines_run. unfold write_file, bind, open_for_writing.
  cbn [read_only files trace room].
  destruct (decide (path ∈ read_only w)); [done|].
  unfold write, reaches. cbn [read_only files trace room].
  rewrite insert_insert_eq.
  destruct (decide (_ = (patch content).1)) as [Hd|Hd].
  - unfold print_line, emit. cbn. by rewrite <- !app_assoc.
  - cbn. by rewrite <- !app_assoc.
Qed.

End RunFacts.

(** C7. When the file cannot be read, the run stops there with the failure
    and exit status 1: no file is created or changed and nothing is written
    or printed.  In every other run the file is opened for writing only
    after the last rule has run and printed, and what is then written is
    the whole new content.  When the open is refused the files are left as
    they were.  When it succeeds the file is emptied first; if the whole
    content reaches the file the run ends with its last line, and if the
    write is cut short after [n] characters the run stops with the failure
    and the file holds these [n] characters only: the scripts write in
    place. *)
Theorem read_failure_aborts
    (path : string) (patch : text -> state) (last : text) (w : Run.world) :
  (Run.files w !! path = None ->
     Run.script path patch last w = (inl (Run.FileNotFoundError path), w)
     /\ Run.exit_status (Run.script path patch last w).1 = 1
     /\ Run.files (Run.script path patch last w).2 !! path = None)
  /\ (forall content,
        Run.files w !! path = Some content ->
        path ∈ Run.read_only w ->
        Run.script path patch last w
        = (inl (Run.PermissionError path),
           {| Run.files := Run.files w;
              Run.read_only := Run.read_only w;
              Run.room := Run.room w;
              Run.trace := Run.trace w ++ map Run.Print (patch content).2 |}))
  /\ (forall content,
        Run.files w !! path = Some content ->
        path ∉ Run.read_only w ->
        (forall n, Run.room w !! path = Some n ->
                   length (patch content).1 <= n) ->
        Run.script path patch last w
        = (inr tt,
           {| Run.files := <[path := (patch content).1]> (Run.files w);
              Run.read_only := Run.read_only w;
              Run.room := Run.room w;
              Run.trace :=
                Run.trace w ++ map Run.Print (patch content).2
                ++ [Run.Truncate path; Run.Write path (patch content).1;
                    Run.Print last] |}))
  /\ (forall content n,
        Run.files w !! path = Some content ->
        path ∉ Run.read_only w ->
        Run.room w !! path = Some n ->
        n < length (patch content).1 ->
        Run.script path patch last w
        = (inl (Run.OSError path),
           {| Run.files := <[path := take n (patch content).1]> (Run.files w);
              Run.read_only := Run.read_only w;
              Run.room := Run.room w;
              Run.trace :=
                Run.trace w ++ map Run.Print (patch content).2
                ++ [Run.Truncate path;
                    Run.Write path (take n (patch content).1)] |})).
Proof.
  rewrite script_result. split; [|split; [|split]].
  - intros H. by rewrite H.
  - intros content H Hw. rewrite H. cbn zeta. by rewrite decide_True.
  - intros content H Hw Hroom. rewrite H. cbn zeta.
    rewrite decide_False by done.
    rewrite (reaches_all w path _ Hroom), decide_True by done.
    by rewrite <- !app_assoc.
  - intros content n H Hw Hroom Hn. rewrite H. cbn zeta.
    rewrite decide_False by done.
    destruct (reaches_short w path _ n Hroom Hn) as [-> Hne].
    rewrite decide_False by done. by rewrite <- !app_assoc.
Qed.

Lemma read_failure_aborts_witness :
  let w := {| Run.files := ∅; Run.read_only := ∅; Run.room := ∅;
              Run.trace := [] |} in
  let w' := {| Run.files := {[ Run.virtualization_bp := txt "cc_binary {}" ]};
               Run.read_only := ∅; Run.room := ∅; Run.trace := [] |} in
  let w'' := {| Run.files := {[ Run.virtualization_bp := txt "cc_binary {}" ]};
                Run.read_only := ∅;
                Run.room := {[ Run.virtualization_bp := 5 ]};
                Run.trace := [] |} in
  (Run.fix_virtualization3 w
   = (inl (Run.FileNotFoundError Run.virtualization_bp), w)
   /\ Run.exit_status (Run.fix_virtualization3 w).1 = 1
   /\ Run.files (Run.fix_virtualization3 w).2 !! Run.virtualization_bp = None)
  /\ Run.fix_virtualization4 w'
     = (inr tt,
        {| Run.files :=
             <[Run.virtualization_bp := txt "cc_binary {}"]>
               {[ Run.virtualization_bp := txt "cc_binary {}" ]};
           Run.read_only := ∅;
           Run.room := ∅;
           Run.trace := [Run.Truncate Run.virtualization_bp;
                         Run.Write Run.virtualization_bp (txt "cc_binary {}");
                         Run.Print (txt "Done!")] |})
  /\ Run.fix_virtualization4 w''
     = (inl (Run.OSError Run.virtualization_bp),
        {| Run.files :=
             <[Run.virtualization_bp := txt "cc_bi"]>
               {[ Run.virtualization_bp := txt "cc_binary {}" ]};
           Run.read_only := ∅;
           Run.room := {[ Run.virtualization_bp := 5 ]};
           Run.trace := [Run.Truncate Run.virtualization_bp;
                         Run.Write Run.virtualization_bp (txt "cc_bi")] |}).
Proof.
  intros w w' w''. split; [|split].
  - apply (read_failure_aborts Run.virtualization_bp
             FixVirtualization3.patch (txt "Done!") w). reflexivity.
  - apply (proj1 (proj2 (proj2 (read_failure_aborts Run.virtualization_bp
             FixVirtualization4.patch (txt "Done!") w')))
             (txt "cc_binary {}")).
    + reflexivity.
    + apply not_elem_of_empty.
    + intros n Hn. by vm_compute in Hn.
  - apply (proj2 (proj2 (proj2 (read_failure_aborts Run.virtualization_bp
             FixVirtualization4.patch (txt "Done!") w'')))
             (txt "cc_binary {}") 5).
    + reflexivity.
    + apply not_elem_of_empty.
    + reflexivity.
    + vm_compute. lia.
Defined.

(** C7 fails as stated: the file is there and may be opened for writing,
    the device has room for five characters.  The open empties the file,
    the write is cut short, the run stops with exit status 1, and the file
    holds five characters: neither what it held nor the new content. *)
Lemma read_failure_aborts_counterexample :
  let content :=
    txt "srcs: [" ++ dq :: txt ":microdroid_kernel_prebuilt-arm64" ++ dq :: txt "]," in
  let w := {| Run.files := {[ Run.virtualization_bp := content ]};
              Run.read_only := ∅;
              Run.room := {[ Run.virtualization_bp := 5 ]};
              Run.trace := [] |} in
  (Run.fix_virtualization4 w).1 = inl (Run.OSError Run.virtualization_bp)
  /\ Run.exit_status (Run.fix_virtualization4 w).1 = 1
  /\ Run.files (Run.fix_virtualization4 w).2 !! Run.virtualization_bp
     = Some (txt "srcs:")
  /\ txt "srcs:" <> content
  /\ txt "srcs:" <> (FixVirtualization4.patch content).1.
Proof. repeat split; try reflexivity; discriminate. Qed.

(** ** Texts cut at a separator *)

Section SplitFacts.

Import Py.

Variable sep : ascii.

Lemma join_cons (s : text) (rest : list text) :
  rest <> [] -> join sep (s :: rest) = s ++ sep :: join sep rest.
Proof. by destruct rest. Qed.

Lemma join_cons2 (s s' : text) (rest : list text) :
  join sep (s :: s' :: rest) = s ++ sep :: join sep (s' :: rest).
Proof. done. Qed.

Lemma split_nonempty (s : text) : split sep s <> [].
Proof.
  induction s as [|c s IH]; [done|]. cbn [split].
  destruct (Ascii.eqb c sep); [done|]. by destruct (split sep s).
Qed.

Lemma join_split (s : text) : join sep (split sep s) = s.
Proof.
  induction s as [|c s IH]; [done|]. cbn [split].
  destruct (Ascii.eqb c sep) eqn:E.
  - apply Ascii.eqb_eq in E as ->.
    rewrite join_cons by apply split_nonempty. by rewrite IH.
  - pose proof (split_nonempty s) as Hn.
    destruct (split sep s) as [|seg rest]; [done|].
    destruct rest as [|seg' rest].
    + cbn in *. by rewrite IH.
    + rewrite join_cons2 in *. cbn [app]. by rewrite IH.
Qed.

Lemma split_free (s : text) : Forall (fun seg => sep ∉ seg) (split sep s).
Proof.
  induction s as [|c s IH]; cbn [split].
  - constructor; [|done]. apply not_elem_of_nil.
  - destruct (Ascii.eqb c sep) eqn:E.
    + constructor; [apply not_elem_of_nil | done].
    + apply Ascii.eqb_neq in E. pose proof (split_nonempty s) as Hn.
      destruct (split sep s) as [|seg rest]; [done|].
      inversion IH; subst. constructor; [|done].
      apply not_elem_of_cons. split; [congruence | done].
Qed.

(** Every text is a join of pieces free of the separator. *)
Lemma text_cut (s : text) :
  exists segs, s = join sep segs /\ segs <> []
               /\ Forall (fun seg => sep ∉ seg) segs.
Proof.
  exists (split sep s). split; [by rewrite join_split|].
  split; [apply split_nonempty | apply split_free].
Qed.

Lemma join_app (pre post : list text) :
  pre <> [] -> post <> [] ->
  join sep (pre ++ post) = join sep pre ++ sep :: join sep post.
Proof.
  intros Hpre Hpost. induction pre as [|s pre IH]; [done|].
  destruct pre as [|s' pre].
  - cbn [app]. by rewrite join_cons.
  - cbn [app] in *. rewrite !join_cons2, IH by done.
    by rewrite <- app_assoc.
Qed.

(** A text free of the first character of [sub] is passed over by the
    scan of [replace]. *)
Lemma startswith_head (c a : ascii) (s sub : text) :
  c <> a -> startswith (c :: s) (a :: sub) = false.
Proof.
  intros H. cbn [startswith]. apply andb_false_iff. left.
  apply Ascii.eqb_neq. congruence.
Qed.

Lemma replace_pass (a : ascii) (old new s t : text) :
  a ∉ s ->
  replace (a :: old) new (s ++ t) = s ++ replace (a :: old) new t.
Proof.
  intros H. induction s as [|c s IH]; [done|].
  apply not_elem_of_cons in H as [Hc Hs]. cbn [app].
  rewrite replace_nomatch by (by apply startswith_head).
  by rewrite IH.
Qed.

Lemma replace_free (a : ascii) (old new s : text) :
  a ∉ s -> replace (a :: old) new s = s.
Proof.
  intros H. rewrite <- (app_nil_r s) at 1.
  by rewrite replace_pass, replace_nil, app_nil_r.
Qed.

(** A piece followed by the separator begins with another such piece only
    if the two pieces are the same. *)
Lemma startswith_piece (x b t : text) :
  sep ∉ x -> sep ∉ b ->
  startswith (x ++ sep :: t) (b ++ [sep]) = bool_decide (x = b).
Proof.
  intros Hx Hb. case_bool_decide as E.
  - subst. apply startswith_prefix. exists t. by rewrite <- app_assoc.
  - apply startswith_false. intros [k Hk]. apply E.
    rewrite <- app_assoc in Hk. cbn [app] in Hk.
    by apply not_elem_of_app_cons_inv_l in Hk as [-> _].
Qed.

Lemma startswith_last_piece (x b : text) :
  sep ∉ x -> startswith x (b ++ [sep]) = false.
Proof.
  intros Hx. apply startswith_false. intros [k ->]. apply Hx.
  rewrite <- app_assoc. apply elem_of_app. right. by left.
Qed.

End SplitFacts.

(** ** The references between double quotes *)

Section QuotedFacts.

Import Py FixVirtualization4.

Lemma quoted_app (b t : text) : quoted b ++ t = dq :: b ++ dq :: t.
Proof. unfold quoted. cbn [app]. by rewrite <- app_assoc. Qed.

Lemma relabel_hit (b n y : text) (tl : list text) :
  relabel b n (b :: y :: tl) = n :: y :: relabel b n tl.
Proof. cbn [relabel]. by rewrite bool_decide_eq_true_2. Qed.

Lemma relabel_miss (b n x y : text) (tl : list text) :
  x <> b -> relabel b n (x :: y :: tl) = x :: relabel b n (y :: tl).
Proof. intros H. cbn [relabel]. by rewrite bool_decide_eq_false_2. Qed.

Lemma relabel_all_cons (b n x y : text) (tl : list text) :
  relabel_all b n (x :: y :: tl)
  = (if bool_decide (x = b) then n else x) :: relabel_all b n (y :: tl).
Proof. done. Qed.

Lemma relabel_nonempty (b n : text) (tl : list text) :
  tl <> [] -> relabel b n tl <> [].
Proof.
  destruct tl as [|x [|y tl]]; [done|done|]. intros _. cbn [relabel].
  by destruct (bool_decide (x = b)).
Qed.

(** [replace] on the content cut at the double quotes. *)
Lemma replace_quoted (b n s0 : text) (tl : list text) :
  dq ∉ b -> dq ∉ s0 -> Forall (fun seg => dq ∉ seg) tl ->
  replace (quoted b) (quoted n) (join dq (s0 :: tl))
  = join dq (s0 :: relabel b n tl).
Proof.
  intros Hb. remember (length tl) as k eqn:Hk. revert s0 tl Hk.
  induction k as [k IH] using lt_wf_ind. intros s0 tl -> Hs0 Htl.
  destruct tl as [|x [|y tl]].
  - cbn [join relabel]. by apply replace_free.
  - cbn [relabel]. rewrite join_cons2. cbn [join].
    inversion Htl as [|? ? Hx _]; subst.
    unfold quoted at 1. rewrite replace_pass by done. f_equal.
    rewrite replace_nomatch.
    + f_equal. by apply replace_free.
    + cbn [startswith]. rewrite startswith_last_piece by done.
      by rewrite andb_false_r.
  - inversion Htl as [|? ? Hx Htl']; subst.
    inversion Htl' as [|? ? Hy Htl'']; subst.
    rewrite !join_cons2. unfold quoted at 1.
    rewrite replace_pass by done. fold (quoted b).
    destruct (decide (x = b)) as [E | E].
    + subst x. rewrite relabel_hit.
      rewrite <- quoted_app, replace_match by done.
      rewrite (IH (length tl)) with (s0 := y) (tl := tl); [|cbn; lia|done..].
      by rewrite !join_cons2, quoted_app.
    + rewrite relabel_miss by done. rewrite replace_nomatch.
      * rewrite <- join_cons2.
        rewrite (IH (length (y :: tl))) with (s0 := x) (tl := y :: tl);
          [|cbn; lia|done..].
        by rewrite join_cons2.
      * unfold quoted. cbn [startswith].
        rewrite (startswith_piece dq) by done.
        rewrite bool_decide_eq_false_2 by done. by rewrite andb_false_r.
Qed.

Lemma relabel_free (b n : text) (tl : list text) :
  dq ∉ n -> Forall (fun seg => dq ∉ seg) tl ->
  Forall (fun seg => dq ∉ seg) (relabel b n tl).
Proof.
  intros Hn. remember (length tl) as k eqn:Hk. revert tl Hk.
  induction k as [k IH] using lt_wf_ind. intros tl -> Htl.
  destruct tl as [|x [|y tl]]; [done|done|].
  inversion Htl as [|? ? Hx Htl']; subst.
  inversion Htl' as [|? ? Hy Htl'']; subst.
  destruct (decide (x = b)) as [E | E].
  - subst x. rewrite relabel_hit. constructor; [done|]. constructor; [done|].
    apply (IH (length tl)); [cbn; lia|done..].
  - rewrite relabel_miss by done.
    constructor; [done|]. apply (IH (length (y :: tl))); [cbn; lia|done..].
Qed.

(** *** One reference *)

Lemma inner_cons (b x : text) (tl : list text) :
  inner b tl -> inner b (x :: tl).
Proof. intros (pre & post & -> & H). by exists (x :: pre), post. Qed.

Lemma in_a_row_cons (a b x : text) (tl : list text) :
  in_a_row a b tl -> in_a_row a b (x :: tl).
Proof. intros (pre & post & -> & H). by exists (x :: pre), post. Qed.

Lemma relabel_is_all (b n : text) (tl : list text) :
  ~ in_a_row b b tl -> relabel b n tl = relabel_all b n tl.
Proof.
  remember (length tl) as k eqn:Hk. revert tl Hk.
  induction k as [k IH] using lt_wf_ind. intros tl -> H.
  destruct tl as [|x [|y tl]]; [done|done|].
  rewrite relabel_all_cons. destruct (decide (x = b)) as [E | E].
  - subst x. rewrite relabel_hit, bool_decide_eq_true_2 by done. f_equal.
    destruct tl as [|z tl]; [done|].
    assert (Hy : y <> b).
    { intros ->. apply H. by exists [], (z :: tl). }
    rewrite relabel_all_cons, bool_decide_eq_false_2 by done. f_equal.
    apply (IH (length (z :: tl))); [cbn; lia|done|].
    intros Hr. by apply H, in_a_row_cons, in_a_row_cons.
  - rewrite relabel_miss, bool_decide_eq_false_2 by done.
    f_equal. apply (IH (length (y :: tl))); [cbn; lia|done|].
    intros Hr. by apply H, in_a_row_cons.
Qed.

Lemma inner_inv (b x : text) (tl : list text) :
  inner b (x :: tl) <-> (x = b /\ tl <> []) \/ inner b tl.
Proof.
  split.
  - intros ([|p pre] & post & E & Hp); cbn [app] in E.
    + injection E as -> ->. by left.
    + injection E as -> ->. right. by exists pre, post.
  - intros [[-> H] | H]; [by exists [], tl | by apply inner_cons].
Qed.

Lemma in_a_row_inv (a b x : text) (tl : list text) :
  in_a_row a b (x :: tl) <->
  (x = a /\ exists tl', tl = b :: tl' /\ tl' <> []) \/ in_a_row a b tl.
Proof.
  split.
  - intros ([|p pre] & post & E & Hp); cbn [app] in E.
    + injection E as -> ->. left. split; [done|]. by exists post.
    + injection E as -> ->. right. by exists pre, post.
  - intros [[-> (tl' & -> & H)] | H]; [by exists [], tl' | by apply in_a_row_cons].
Qed.

Lemma inner_nil (b : text) : ~ inner b [].
Proof. intros ([|? ?] & ? & ? & ?); done. Qed.

Lemma in_a_row_nil (a b : text) : ~ in_a_row a b [].
Proof. intros ([|? ?] & ? & ? & ?); done. Qed.

Lemma relabel_all_nonempty (b n : text) (tl : list text) :
  tl <> [] -> relabel_all b n tl <> [].
Proof. by destruct tl as [|x [|y tl]]. Qed.

Lemma relabel_all_inner (b b' n : text) (tl : list text) :
  n <> b -> (b' = b \/ ~ inner b tl) -> ~ inner b (relabel_all b' n tl).
Proof.
  intros Hn. induction tl as [|x tl IH]; intros H; [apply inner_nil|].
  destruct tl as [|y tl].
  - cbn [relabel_all]. rewrite inner_inv. intros [[_ ?] | ?%inner_nil]; done.
  - rewrite relabel_all_cons, inner_inv. intros [[E _] | Hi].
    + case_bool_decide as E'; [done|]. subst x.
      destruct H as [H | H]; [done|]. apply H. by exists [], (y :: tl).
    + revert Hi. apply IH. destruct H as [H | H]; [by left | right].
      intros Hi. by apply H, inner_cons.
Qed.

Lemma relabel_all_in_a_row (b b' n : text) (tl : list text) :
  n <> b -> ~ in_a_row b b tl -> ~ in_a_row b b (relabel_all b' n tl).
Proof.
  intros Hn. induction tl as [|x tl IH]; intros H; [apply in_a_row_nil|].
  destruct tl as [|y tl].
  - cbn [relabel_all]. rewrite in_a_row_inv.
    intros [[_ (? & ? & _)] | ?%in_a_row_nil]; done.
  - rewrite relabel_all_cons, in_a_row_inv. intros [[E (tl' & E' & Hn')] | Hi].
    + apply H. destruct tl as [|z tl]; [by injection E' as _ <-|].
      rewrite relabel_all_cons in E'. injection E' as E1 E2.
      exists [], (z :: tl). split; [|done]. cbn [app].
      repeat case_bool_decide; congruence.
    + revert Hi. apply IH. intros Hi. by apply H, in_a_row_cons.
Qed.

Lemma relabel_fixed (b n : text) (tl : list text) :
  ~ inner b tl -> relabel b n tl = tl.
Proof.
  induction tl as [|x tl IH]; intros H; [done|].
  destruct tl as [|y tl]; [done|]. cbn [relabel].
  rewrite bool_decide_eq_false_2.
  - f_equal. apply IH. intros Hi. by apply H, inner_cons.
  - intros ->. apply H. by exists [], (y :: tl).
Qed.

End QuotedFacts.

Section OverlapFacts.

Import Py FixVirtualization4.

Lemma occurs_from_intro (sub l r : text) :
  occurs_from sub (length l) (l ++ sub ++ r) = true.
Proof.
  unfold occurs_from. rewrite drop_app_length, startswith_app, andb_true_r.
  apply Nat.leb_le. rewrite length_app. lia.
Qed.

Lemma positions_intro (sub l r : text) :
  In (length l) (positions sub (l ++ sub ++ r)).
Proof.
  unfold positions. apply List.filter_In. split.
  - apply in_seq. rewrite !length_app. lia.
  - apply occurs_from_intro.
Qed.

(** Two occurrences that share a character are found by [overlapb]. *)
Lemma overlapb_intro (a b s l1 r1 l2 r2 : text) :
  s = l1 ++ a ++ r1 -> s = l2 ++ b ++ r2 ->
  length l1 < length l2 + length b -> length l2 < length l1 + length a ->
  length l1 <> length l2 \/ a <> b ->
  overlapb a b s = true.
Proof.
  intros E1 E2 H1 H2 Hd. unfold overlapb.
  apply existsb_exists. exists (length l1). split.
  { rewrite E1. apply positions_intro. }
  apply existsb_exists. exists (length l2). split.
  { rewrite E2. apply positions_intro. }
  apply andb_true_iff. split; [apply andb_true_iff; split|].
  - by apply Nat.ltb_lt.
  - by apply Nat.ltb_lt.
  - apply negb_true_iff, andb_false_iff.
    destruct Hd as [Hd | Hd]; [left | right].
    + by apply Nat.eqb_neq.
    + by apply bool_decide_eq_false_2.
Qed.

(** Two references in a row share the double quote between them. *)
Lemma in_a_row_overlap (a b s0 : text) (tl : list text) :
  in_a_row a b tl ->
  overlapb (quoted a) (quoted b) (join dq (s0 :: tl)) = true.
Proof.
  intros (pre & post & -> & Hp).
  assert (E : join dq (s0 :: pre ++ a :: b :: post)
              = join dq (s0 :: pre) ++ dq :: a ++ dq :: b ++ dq :: join dq post).
  { change (s0 :: pre ++ a :: b :: post) with ((s0 :: pre) ++ a :: b :: post).
    rewrite join_app by done. rewrite join_cons2.
    by rewrite (join_cons dq b post). }
  apply (overlapb_intro _ _ _ (join dq (s0 :: pre)) (b ++ dq :: join dq post)
           (join dq (s0 :: pre) ++ dq :: a) (join dq post)).
  - rewrite E, quoted_app. done.
  - rewrite E, quoted_app. rewrite <- app_assoc. done.
  - rewrite length_app. cbn [length]. lia.
  - unfold quoted. rewrite length_app. cbn [length].
    rewrite length_app. cbn [length]. lia.
  - left. rewrite length_app. cbn [length]. lia.
Qed.

End OverlapFacts.

Section QuotedRun.

Import Py FixVirtualization4.

Lemma relabel_last (b n x : text) : relabel b n [x] = [x].
Proof. done. Qed.

Lemma relabel_hit' (b n : text) (tl : list text) :
  tl <> [] -> exists y tl', tl = y :: tl'
                            /\ relabel b n (b :: tl) = n :: y :: relabel b n tl'.
Proof.
  destruct tl as [|y tl']; [done|]. intros _. exists y, tl'.
  by rewrite relabel_hit.
Qed.

Lemma relabel_miss' (b n x : text) (tl : list text) :
  x <> b -> relabel b n (x :: tl) = x :: relabel b n tl.
Proof.
  intros H. destruct tl as [|y tl]; [done|]. by apply relabel_miss.
Qed.

Lemma relabel2_cons (b1 b2 n x y : text) (tl : list text) :
  relabel2 b1 b2 n (x :: y :: tl)
  = if bool_decide (x = b1) || bool_decide (x = b2)
    then n :: y :: relabel2 b1 b2 n tl
    else x :: relabel2 b1 b2 n (y :: tl).
Proof. done. Qed.

Lemma relabel2_hit (b1 b2 n x y : text) (tl : list text) :
  x = b1 \/ x = b2 ->
  relabel2 b1 b2 n (x :: y :: tl) = n :: y :: relabel2 b1 b2 n tl.
Proof.
  intros H. rewrite relabel2_cons.
  destruct H as [-> | ->].
  - by rewrite bool_decide_eq_true_2.
  - by rewrite (bool_decide_eq_true_2 (b2 = b2)), orb_true_r.
Qed.

Lemma relabel2_miss (b1 b2 n x : text) (tl : list text) :
  x <> b1 -> x <> b2 ->
  relabel2 b1 b2 n (x :: tl) = x :: relabel2 b1 b2 n tl.
Proof.
  intros H1 H2. destruct tl as [|y tl]; [done|]. rewrite relabel2_cons.
  by rewrite (bool_decide_eq_false_2 (x = b1)),
       (bool_decide_eq_false_2 (x = b2)).
Qed.

Lemma relabel2_comm (b1 b2 n : text) (tl : list text) :
  relabel2 b1 b2 n tl = relabel2 b2 b1 n tl.
Proof.
  remember (length tl) as k eqn:Hk. revert tl Hk.
  induction k as [k IH] using lt_wf_ind. intros tl ->.
  destruct tl as [|x [|y tl]]; [reflexivity|reflexivity|].
  destruct (decide (x = b1)) as [E1 | E1];
    [|destruct (decide (x = b2)) as [E2 | E2]].
  - rewrite !relabel2_hit by auto. do 2 f_equal.
    apply (IH (length tl)); [cbn; lia | done].
  - rewrite !relabel2_hit by auto. do 2 f_equal.
    apply (IH (length tl)); [cbn; lia | done].
  - rewrite (relabel2_miss b1 b2 n x), (relabel2_miss b2 b1 n x) by done.
    f_equal. apply (IH (length (y :: tl))); [cbn; lia | done].
Qed.

(** One reference after the other is both at once, when the two are never
    in a row. *)
Lemma relabel_relabel2 (b1 b2 n : text) (tl : list text) :
  b1 <> b2 -> n <> b2 ->
  ~ in_a_row b1 b2 tl -> ~ in_a_row b2 b1 tl ->
  relabel b2 n (relabel b1 n tl) = relabel2 b1 b2 n tl.
Proof.
  intros Hb Hn. remember (length tl) as k eqn:Hk. revert tl Hk.
  induction k as [k IH] using lt_wf_ind. intros tl -> H12 H21.
  destruct tl as [|x [|y tl]]; [reflexivity|reflexivity|].
  rewrite in_a_row_inv in H12, H21.
  destruct (decide (x = b1)) as [E1 | E1];
    [|destruct (decide (x = b2)) as [E2 | E2]].
  - subst x. rewrite relabel_hit, relabel2_hit by auto.
    rewrite relabel_miss' by done. f_equal.
    destruct tl as [|z tl]; [done|].
    assert (Hy : y <> b2).
    { intros ->. apply H12. left. split; [done|]. by exists (z :: tl). }
    rewrite relabel_miss' by done. f_equal.
    apply (IH (length (z :: tl))); [cbn; lia | done | |].
    + intros Hr. apply H12. right. by apply in_a_row_cons.
    + intros Hr. apply H21. right. by apply in_a_row_cons.
  - subst x. rewrite relabel_miss, relabel2_hit by auto.
    destruct tl as [|z tl]; [by rewrite relabel_last, relabel_hit|].
    assert (Hy : y <> b1).
    { intros ->. apply H21. left. split; [done|]. by exists (z :: tl). }
    rewrite relabel_miss by done. rewrite relabel_hit. do 2 f_equal.
    apply (IH (length (z :: tl))); [cbn; lia | done | |].
    + intros Hr. apply H12. right. by apply in_a_row_cons.
    + intros Hr. apply H21. right. by apply in_a_row_cons.
  - rewrite relabel_miss, relabel2_miss by done.
    rewrite relabel_miss' by done. f_equal.
    apply (IH (length (y :: tl))); [cbn; lia | done | |].
    + intros Hr. apply H12. by right.
    + intros Hr. apply H21. by right.
Qed.

Lemma relabel_commute (b1 b2 n : text) (tl : list text) :
  n <> b1 -> n <> b2 ->
  ~ in_a_row b1 b2 tl -> ~ in_a_row b2 b1 tl ->
  relabel b2 n (relabel b1 n tl) = relabel b1 n (relabel b2 n tl).
Proof.
  intros Hn1 Hn2 H12 H21. destruct (decide (b1 = b2)) as [-> | Hb]; [done|].
  rewrite relabel_relabel2 by done.
  rewrite (relabel_relabel2 b2 b1) by done.
  apply relabel2_comm.
Qed.

(** After the run no reference of the list is left, when none of them
    occurred twice in a row. *)
Lemma relabel_run_clean (n : text) (labels done : list text) (tl : list text) :
  (forall b, In b done -> ~ inner b tl) ->
  (forall b, In b labels -> ~ in_a_row b b tl) ->
  (forall b, In b (done ++ labels) -> n <> b) ->
  forall b, In b (done ++ labels) -> ~ inner b (relabel_run labels n tl).
Proof.
  revert done tl. induction labels as [|a labels IH]; intros done tl Hd Hl Hn.
  - rewrite app_nil_r. exact Hd.
  - cbn [relabel_run fold_left]. fold (relabel_run labels n (relabel a n tl)).
    rewrite relabel_is_all by (apply Hl; by left).
    replace (done ++ a :: labels) with ((done ++ [a]) ++ labels) in *
      by (by rewrite <- app_assoc).
    apply IH.
    + intros b [Hb | [-> | []]]%in_app_or.
      * apply relabel_all_inner; [|right; by apply Hd].
        apply Hn, in_or_app. left. apply in_or_app. by left.
      * apply relabel_all_inner; [|by left].
        apply Hn, in_or_app. left. apply in_or_app. right. by left.
    + intros b Hb. apply relabel_all_in_a_row.
      * apply Hn, in_or_app. by right.
      * apply Hl. by right.
    + exact Hn.
Qed.

Lemma relabel_run_fixed (n : text) (labels : list text) (tl : list text) :
  (forall b, In b labels -> ~ inner b tl) -> relabel_run labels n tl = tl.
Proof.
  induction labels as [|a labels IH]; intros H; [done|].
  cbn [relabel_run fold_left]. fold (relabel_run labels n (relabel a n tl)).
  rewrite relabel_fixed by (apply H; by left).
  apply IH. intros b Hb. apply H. by right.
Qed.

End QuotedRun.

Section FixVirtualization4Facts.

Import Py FixVirtualization4.

Lemma free_of_spec (c : ascii) (s : text) : free_of c s = true <-> c ∉ s.
Proof.
  unfold free_of. induction s as [|a s IH]; cbn [forallb].
  - split; [intros _; apply not_elem_of_nil | done].
  - rewrite andb_true_iff, IH, negb_true_iff, Ascii.eqb_neq, not_elem_of_cons.
    split; intros [H1 H2]; split; congruence.
Qed.

Lemma replacements_labels :
  replacements = map (fun b => (quoted b, quoted (txt ":empty_file"))) prebuilt_labels.
Proof. reflexivity. Qed.

Lemma prebuilt_labels_free : forall b, In b prebuilt_labels -> dq ∉ b.
Proof.
  intros b Hb. apply free_of_spec.
  assert (H : forallb (free_of dq) prebuilt_labels = true) by reflexivity.
  rewrite forallb_forall in H. by apply H.
Qed.

Lemma prebuilt_labels_new : forall b, In b prebuilt_labels -> txt ":empty_file" <> b.
Proof.
  intros b Hb.
  assert (H : forallb (fun b => negb (bool_decide (txt ":empty_file" = b)))
                prebuilt_labels = true) by reflexivity.
  rewrite forallb_forall in H. apply H in Hb.
  apply negb_true_iff in Hb. by apply bool_decide_eq_false_1 in Hb.
Qed.

Lemma fv4_replace_ref_content (rule : text * text) (st : state) :
  (replace_ref rule st).1 = replace rule.1 rule.2 st.1.
Proof.
  destruct rule as [old new]. unfold replace_ref. cbn [fst snd].
  destruct (str_in old st.1) eqn:E; [done|]. cbn [fst].
  symmetry. apply replace_absent. by apply str_in_absent.
Qed.

Lemma relabel_run_free (labels : list text) (n : text) (tl : list text) :
  dq ∉ n -> Forall (fun seg => dq ∉ seg) tl ->
  Forall (fun seg => dq ∉ seg) (relabel_run labels n tl).
Proof.
  intros Hn. revert tl. induction labels as [|b labels IH]; intros tl H; [done|].
  cbn [relabel_run fold_left]. apply IH. by apply relabel_free.
Qed.

(** The run of a list of rules on the content cut at the double quotes. *)
Lemma fv4_run_join (labels : list text) (n s0 : text) (tl : list text)
    (out : list text) :
  (forall b, In b labels -> dq ∉ b) -> dq ∉ n -> dq ∉ s0 ->
  Forall (fun seg => dq ∉ seg) tl ->
  (run_rules (map (fun b => (quoted b, quoted n)) labels)
     (join dq (s0 :: tl), out)).1
  = join dq (s0 :: relabel_run labels n tl).
Proof.
  intros Hl Hn Hs0. revert tl out.
  induction labels as [|b labels IH]; intros tl out Htl; [done|].
  unfold run_rules in *. cbn [map fold_left relabel_run].
  destruct (replace_ref (quoted b, quoted n) (join dq (s0 :: tl), out))
    as [c out'] eqn:E.
  assert (Ec : c = join dq (s0 :: relabel b n tl)).
  { apply (f_equal fst) in E. rewrite fv4_replace_ref_content in E.
    cbn [fst snd] in E. rewrite <- E. apply replace_quoted; [|done..].
    apply Hl. by left. }
  rewrite Ec. apply IH.
  - intros b' Hb'. apply Hl. by right.
  - by apply relabel_free.
Qed.

Lemma no_self_overlap_rows (s0 : text) (tl : list text) :
  no_self_overlap (join dq (s0 :: tl)) = true ->
  forall b, In b prebuilt_labels -> ~ in_a_row b b tl.
Proof.
  unfold no_self_overlap. rewrite replacements_labels, forallb_forall.
  intros H b Hb Hr. apply (in_a_row_overlap b b s0) in Hr.
  specialize (H (quoted b, quoted (txt ":empty_file"))).
  cbn [fst] in H. rewrite Hr in H. apply diff_false_true, H.
  apply in_map_iff. by exists b.
Qed.

(** fix_virtualization4.py run twice, on a content where no old literal
    overlaps itself. *)
Lemma fv4_patch_twice (content : text) :
  no_self_overlap content = true ->
  (patch (patch content).1).1 = (patch content).1.
Proof.
  intros H.
  destruct (text_cut dq content) as ([|s0 tl] & -> & Hne & Hfree); [done|].
  inversion Hfree as [|? ? Hs0 Htl]; subst.
  assert (Hn : dq ∉ txt ":empty_file") by (by apply free_of_spec).
  unfold patch. rewrite replacements_labels.
  rewrite (fv4_run_join prebuilt_labels) by
    (done || apply prebuilt_labels_free).
  rewrite (fv4_run_join prebuilt_labels); [| apply prebuilt_labels_free
    | done | done | by apply relabel_run_free].
  f_equal. f_equal. apply relabel_run_fixed.
  apply (relabel_run_clean _ prebuilt_labels []).
  - done.
  - by apply (no_self_overlap_rows s0).
  - apply prebuilt_labels_new.
Qed.

End FixVirtualization4Facts.

Section FixVirtualization4Pairs.

Import Py FixVirtualization4.

Lemma overlapb_true (a b s : text) :
  overlapb a b s = true <->
  exists i j, In i (positions a s) /\ In j (positions b s)
              /\ i < j + length b /\ j < i + length a
              /\ ~ (i = j /\ a = b).
Proof.
  unfold overlapb. rewrite existsb_exists. split.
  - intros (i & Hi & H). apply existsb_exists in H as (j & Hj & H).
    apply andb_true_iff in H as [H H3]. apply andb_true_iff in H as [H1 H2].
    apply Nat.ltb_lt in H1, H2. exists i, j. do 4 (split; [done|]).
    intros [-> ->]. rewrite Nat.eqb_refl, bool_decide_eq_true_2 in H3; done.
  - intros (i & j & Hi & Hj & H1 & H2 & H3). exists i. split; [done|].
    apply existsb_exists. exists j. split; [done|].
    apply andb_true_iff. split; [apply andb_true_iff; split|].
    + by apply Nat.ltb_lt.
    + by apply Nat.ltb_lt.
    + apply negb_true_iff, andb_false_iff.
      destruct (decide (i = j)) as [-> | Hij].
      * right. apply bool_decide_eq_false_2. intros ->. by apply H3.
      * left. by apply Nat.eqb_neq.
Qed.

Lemma overlapb_sym (a b s : text) : overlapb a b s = overlapb b a s.
Proof.
  apply eq_true_iff_eq. rewrite !overlapb_true.
  split; intros (i & j & Hi & Hj & H1 & H2 & H3); exists j, i;
    (do 4 (split; [done|])); intros [-> ->]; by apply H3.
Qed.

(** Two rules of fix_virtualization4.py in either order. *)
Lemma fv4_pair_commute (b1 b2 content : text) :
  In b1 prebuilt_labels -> In b2 prebuilt_labels ->
  overlapb (quoted b1) (quoted b2) content = false ->
  (run_rules [(quoted b1, empty_file); (quoted b2, empty_file)] (content, [])).1
  = (run_rules [(quoted b2, empty_file); (quoted b1, empty_file)] (content, [])).1.
Proof.
  intros H1 H2 Ho.
  destruct (text_cut dq content) as ([|s0 tl] & -> & Hne & Hfree); [done|].
  inversion Hfree as [|? ? Hs0 Htl]; subst.
  assert (Hn : dq ∉ txt ":empty_file") by (by apply free_of_spec).
  assert (Hf : forall l, (forall b, In b l -> In b prebuilt_labels) ->
                         forall b, In b l -> dq ∉ b).
  { intros l Hl b Hb. by apply prebuilt_labels_free, Hl. }
  pose proof (fv4_run_join [b1; b2] (txt ":empty_file") s0 tl []) as E12.
  pose proof (fv4_run_join [b2; b1] (txt ":empty_file") s0 tl []) as E21.
  cbn [map] in E12, E21. unfold empty_file.
  rewrite E12, E21; try done.
  - f_equal. f_equal. cbn [relabel_run fold_left].
    apply relabel_commute.
    + by apply prebuilt_labels_new.
    + by apply prebuilt_labels_new.
    + intros Hr. apply (in_a_row_overlap b1 b2 s0) in Hr. congruence.
    + intros Hr. apply (in_a_row_overlap b2 b1 s0) in Hr.
      rewrite overlapb_sym in Hr. congruence.
  - apply Hf. intros b [<- | [<- | []]]; done.
  - apply Hf. intros b [<- | [<- | []]]; done.
Qed.

End FixVirtualization4Pairs.

(** ** The lines *)

Section LineFacts.

Import Py.

Lemma occurs_sep (a x y : text) (c : ascii) :
  c ∉ a -> occurs a (x ++ c :: y) -> occurs a x \/ occurs a y.
Proof.
  intros Hc (L & R & E). unfold occurs_at in E.
  apply app_eq_inv in E as [(k & -> & E) | (k & -> & E)].
  - left. apply app_eq_inv in E as [(k2 & -> & E) | (k2 & -> & E)].
    + destruct k2 as [|c' k2]; cbn [app] in E.
      * rewrite app_nil_r. exists L, []. unfold occurs_at.
        by rewrite app_nil_r.
      * injection E as <- _. destruct Hc. apply elem_of_app. right. by left.
    + by exists L, k2.
  - destruct k as [|c' k]; cbn [app] in E.
    + destruct a as [|a0 a]; [left; by exists x, []; unfold occurs_at;
                                rewrite app_nil_r|].
      cbn [app] in E. injection E as <- _. destruct Hc. by left.
    + injection E as <- ->. right. by exists k, R.
Qed.

Lemma occurs_join (a : text) (lines : list text) :
  nl ∉ a -> lines <> [] ->
  occurs a (join nl lines) <-> Exists (occurs a) lines.
Proof.
  intros Ha Hne. induction lines as [|l lines IH]; [done|].
  destruct lines as [|l' lines].
  - cbn [join]. rewrite Exists_cons, Exists_nil. tauto.
  - rewrite join_cons2, Exists_cons, <- IH by done. split.
    + by apply occurs_sep.
    + intros [H | H]; [by apply occurs_app_l|].
      apply occurs_app_r. by apply occurs_cons.
Qed.

Lemma endswith_true (l p : text) : endswith l p = true <-> p `suffix_of` l.
Proof. unfold endswith. apply bool_decide_eq_true. Qed.

Lemma endswith_cons (c : ascii) (l p : text) :
  c :: l <> p -> endswith (c :: l) p = endswith l p.
Proof.
  intros H. unfold endswith. apply bool_decide_ext. split.
  - intros Hs. destruct p as [|x p]; [apply suffix_nil|].
    apply suffix_cons_inv in Hs as [E | E]; [by rewrite E in H | done].
  - apply suffix_cons_r.
Qed.

Lemma endswith_nil (p : text) : p <> [] -> endswith [] p = false.
Proof.
  intros H. apply bool_decide_eq_false_2. by intros ->%suffix_nil_inv.
Qed.

(** [replace] over one line and its newline. *)
Lemma replace_line (a ins l t : text) :
  nl ∉ l -> nl ∉ a -> a <> [] ->
  replace (a ++ [nl]) (a ++ nl :: ins) (l ++ nl :: t)
  = l ++ nl :: (if endswith l a then ins else [])
      ++ replace (a ++ [nl]) (a ++ nl :: ins) t.
Proof.
  intros Hl Ha Hne. induction l as [|c l IH].
  - rewrite endswith_nil by done. cbn [app].
    destruct a as [|a0 a]; [done|]. cbn [app].
    rewrite replace_nomatch; [done|]. apply startswith_head.
    intros <-. apply Ha. by left.
  - apply not_elem_of_cons in Hl as [Hc Hl'].
    destruct (decide (c :: l = a)) as [E | E].
    + rewrite E. replace (a ++ nl :: t) with ((a ++ [nl]) ++ t)
        by (by rewrite <- app_assoc).
      rewrite replace_match by (by destruct a).
      unfold endswith. rewrite bool_decide_eq_true_2 by done.
      by rewrite <- !app_assoc.
    + cbn [app]. rewrite replace_nomatch.
      * rewrite IH by done. by rewrite endswith_cons.
      * change (c :: l ++ nl :: t) with ((c :: l) ++ nl :: t).
        rewrite (startswith_piece nl); [|by apply not_elem_of_cons|done].
        by apply bool_decide_eq_false_2.
Qed.

Lemma replace_last_line (a ins l : text) :
  nl ∉ l -> a <> [] ->
  replace (a ++ [nl]) (a ++ nl :: ins) l = l.
Proof.
  intros Hl Hne. apply replace_absent. intros (L & R & ->). apply Hl.
  rewrite <- !app_assoc. do 2 (apply elem_of_app; right). by left.
Qed.

Lemma insert_after_cons (a ins : text) (f : bool) (l : text) (rest : list text) :
  insert_after a ins f (l :: rest)
  = (if f then ins ++ l else l) :: insert_after a ins (endswith l a) rest.
Proof. done. Qed.

Lemma insert_after_nonempty (a ins : text) (f : bool) (lines : list text) :
  lines <> [] -> insert_after a ins f lines <> [].
Proof. by destruct lines. Qed.

Lemma insert_after_flag (a ins : text) (f : bool) (lines : list text) :
  lines <> [] ->
  join nl (insert_after a ins f lines)
  = (if f then ins else []) ++ join nl (insert_after a ins false lines).
Proof.
  destruct lines as [|l [|l' lines]]; [done|..]; intros _.
  - cbn [insert_after join]. by destruct f.
  - cbn [insert_after]. rewrite !join_cons2. destruct f; [|done].
    by rewrite <- app_assoc.
Qed.

(** [replace] on the content cut into its lines. *)
Lemma replace_lines (a ins : text) (lines : list text) :
  nl ∉ a -> a <> [] -> Forall (fun l => nl ∉ l) lines ->
  replace (a ++ [nl]) (a ++ nl :: ins) (join nl lines)
  = join nl (insert_after a ins false lines).
Proof.
  intros Ha Hne. induction lines as [|l lines IH]; intros H.
  - cbn. by apply replace_nil; destruct a.
  - inversion H as [|? ? Hl Hlines]; subst.
    destruct lines as [|l' lines].
    + cbn [join insert_after]. by apply replace_last_line.
    + rewrite join_cons2, replace_line, IH by done.
      rewrite (insert_after_cons a ins false l).
      rewrite join_cons by (by apply insert_after_nonempty).
      f_equal. f_equal.
      by rewrite (insert_after_flag _ _ (endswith l a)).
Qed.

Lemma insert_after_free (a ins : text) (f : bool) (lines : list text) :
  nl ∉ ins -> Forall (fun l => nl ∉ l) lines ->
  Forall (fun l => nl ∉ l) (insert_after a ins f lines).
Proof.
  intros Hi. revert f. induction lines as [|l lines IH]; intros f H; [done|].
  inversion H; subst. cbn [insert_after]. constructor; [|by apply IH].
  destruct f; [|done]. by apply not_elem_of_app.
Qed.

End LineFacts.

Section MarkFacts.

Import Py.

Lemma marked_nil (a e : text) : ~ marked a e [].
Proof. intros ([|? ?] & ? & ? & ? & ? & _); done. Qed.

Lemma marked_inv (a e l : text) (rest : list text) :
  marked a e (l :: rest) <->
  (a `suffix_of` l /\ exists l' rest', rest = l' :: rest' /\ e `prefix_of` l')
  \/ marked a e rest.
Proof.
  split.
  - intros ([|p pre] & x & x' & post & E & Ha & He); cbn [app] in E.
    + injection E as -> ->. left. split; [done|]. by exists x', post.
    + injection E as -> ->. right. by exists pre, x, x', post.
  - intros [[Ha (l' & rest' & -> & He)] | (pre & x & x' & post & -> & H)].
    + by exists [], l, l', rest'.
    + by exists (l :: pre), x, x', post.
Qed.

Lemma prefix_first_line (e l t : text) :
  nl ∉ e -> e `prefix_of` l ++ nl :: t <-> e `prefix_of` l.
Proof.
  intros He. split; [|apply prefix_app_r].
  intros [k E]. apply app_eq_inv in E as [(j & -> & _) | (j & -> & E)].
  - by exists j.
  - destruct j as [|c j]; [rewrite app_nil_r; done|].
    cbn [app] in E. injection E as <- _. destruct He.
    apply elem_of_app. right. by left.
Qed.

Lemma occurs_mark_sep (a e x y : text) :
  nl ∉ x -> nl ∉ a ->
  occurs (a ++ nl :: e) (x ++ nl :: y) <->
  (a `suffix_of` x /\ e `prefix_of` y) \/ occurs (a ++ nl :: e) y.
Proof.
  intros Hx Ha. split.
  - intros (L & R & E). unfold occurs_at in E.
    rewrite <- app_assoc in E. cbn [app] in E. rewrite app_assoc in E.
    apply app_eq_inv in E as [(k & -> & E) | (k & E1 & E)].
    + destruct k as [|c k]; cbn [app] in E.
      * injection E as <-. left. rewrite app_nil_r.
        split; [by exists L | by exists R].
      * injection E as <- _. destruct Hx.
        apply elem_of_app. right. by left.
    + destruct k as [|c k]; cbn [app] in E.
      * injection E as ->. rewrite app_nil_r in E1. left.
        split; [exists L; by rewrite E1 | by exists R].
      * injection E as <- ->. right.
        replace (x ++ nl :: k) with ((x ++ [nl]) ++ k) in E1
          by (by rewrite <- app_assoc).
        apply app_eq_inv in E1 as [(j & -> & ->) | (j & E1 & ->)].
        -- exists j, R. unfold occurs_at. by rewrite <- !app_assoc.
        -- destruct j as [|c j] using rev_ind.
           ++ exists [], R. unfold occurs_at. cbn [app].
              by rewrite <- app_assoc.
           ++ rewrite app_assoc in E1. apply app_inj_tail in E1 as [_ <-].
              destruct Ha. apply elem_of_app. left.
              apply elem_of_app. right. by left.
  - intros [[[k ->] [R ->]] | H].
    + exists k, R. unfold occurs_at. by rewrite <- !app_assoc.
    + apply occurs_app_r. by apply occurs_cons.
Qed.

Lemma occurs_mark_line (a e l : text) :
  nl ∉ l -> ~ occurs (a ++ nl :: e) l.
Proof.
  intros Hl (L & R & ->). apply Hl.
  rewrite <- !app_assoc. do 2 (apply elem_of_app; right). by left.
Qed.

(** The mark [a], newline, [e] occurs in the content when a line that ends
    with [a] is followed by a line that begins with [e]. *)
Lemma occurs_mark_join (a e : text) (lines : list text) :
  nl ∉ a -> nl ∉ e -> Forall (fun l => nl ∉ l) lines ->
  occurs (a ++ nl :: e) (join nl lines) <-> marked a e lines.
Proof.
  intros Ha He. induction lines as [|l lines IH]; intros H.
  - split; [|by intros ?%marked_nil]. intros (L & R & E).
    unfold occurs_at in E. cbn [join] in E. by destruct L, a.
  - inversion H as [|? ? Hl Hlines]; subst.
    rewrite marked_inv. destruct lines as [|l' lines].
    + cbn [join]. split.
      * by intros ?%occurs_mark_line.
      * intros [[_ (? & ? & ? & _)] | ?%marked_nil]; done.
    + rewrite join_cons2, occurs_mark_sep, IH by done.
      apply or_iff_compat_r. apply and_iff_compat_l.
      inversion Hlines; subst. destruct lines as [|l'' lines].
      * cbn [join]. split; [intros; by exists l', [] |].
        by intros (? & ? & [= <- <-] & ?).
      * rewrite join_cons2, prefix_first_line by done.
        split; [intros; by exists l', (l'' :: lines) |].
        by intros (? & ? & [= <- <-] & ?).
Qed.

End MarkFacts.

(** ** The name lines *)

Section NameFacts.

Import Py.

Lemma plain_spec (module : text) :
  plain module = true <-> (dq ∉ module) /\ (nl ∉ module).
Proof. unfold plain. by rewrite andb_true_iff, !free_of_spec. Qed.

Lemma name_line_nonempty (module : text) : name_line module <> [].
Proof. done. Qed.

Lemma name_line_free (module : text) : nl ∉ module -> nl ∉ name_line module.
Proof.
  intros H. unfold name_line. rewrite not_elem_of_app. split.
  - by apply free_of_spec.
  - rewrite not_elem_of_cons, not_elem_of_app. split; [done|]. split; [done|].
    by apply free_of_spec.
Qed.

(** A line ends with the name line of one module only. *)
Lemma name_line_suffix (m m' l : text) :
  dq ∉ m -> dq ∉ m' ->
  name_line m `suffix_of` l -> name_line m' `suffix_of` l -> m = m'.
Proof.
  intros Hm Hm' [k E] [k' E']. rewrite E in E'. clear E.
  unfold name_line in E'.
  assert (Hq : forall (p : text) (x : text),
             p ++ txt "name: " ++ dq :: x ++ dq :: txt ","
             = (p ++ txt "name: " ++ dq :: x) ++ [dq; (","%char)]).
  { intros p x. by rewrite <- !app_assoc. }
  rewrite !Hq in E'. apply app_inv_tail in E'.
  rewrite !(app_assoc _ (txt "name: ")) in E'.
  apply not_elem_of_app_cons_inv_r in E' as (_ & _ & E'); done.
Qed.

(** The name line does not begin inside the inserted text. *)
Lemma inserted_no_name (l : text) (i : nat) :
  i < length FixVirtualization.inserted ->
  startswith (drop i (FixVirtualization.inserted ++ l)) (txt "nam") = false.
Proof.
  intros H. do 19 (destruct i as [|i]; [reflexivity|]).
  cbn in H. lia.
Qed.

Lemma name_line_nam (module : text) :
  exists rest, name_line module = txt "nam" ++ rest.
Proof. by eexists. Qed.

Lemma name_after_inserted (module L R l : text) :
  FixVirtualization.inserted ++ l = L ++ name_line module ++ R ->
  exists L', L = FixVirtualization.inserted ++ L'.
Proof.
  intros E.
  destruct (le_lt_dec (length FixVirtualization.inserted) (length L)) as [H | H].
  - assert (Hp : FixVirtualization.inserted `prefix_of` L).
    { apply (prefix_shorter _ _ (FixVirtualization.inserted ++ l)); [|by exists (name_line module ++ R)|done].
      by exists l. }
    exact Hp.
  - exfalso. pose proof (inserted_no_name l (length L) H) as Hn.
    rewrite E, drop_app_length in Hn.
    destruct (name_line_nam module) as [rest Er]. rewrite Er in Hn.
    rewrite <- app_assoc in Hn. by rewrite startswith_app in Hn.
Qed.

Lemma occurs_after_inserted (module l : text) :
  occurs (name_line module) (FixVirtualization.inserted ++ l) <->
  occurs (name_line module) l.
Proof.
  split; [|apply occurs_app_r]. intros (L & R & E).
  unfold occurs_at in E.
  destruct (name_after_inserted _ _ _ _ E) as [L' ->].
  rewrite <- app_assoc in E. apply app_inv_head in E. by exists L', R.
Qed.

Lemma suffix_after_inserted (module l : text) :
  name_line module `suffix_of` FixVirtualization.inserted ++ l <->
  name_line module `suffix_of` l.
Proof.
  split; [|apply suffix_app_r]. intros [L E].
  rewrite <- (app_nil_r (name_line module)) in E.
  destruct (name_after_inserted _ _ _ _ E) as [L' ->].
  rewrite <- app_assoc in E. apply app_inv_head in E.
  rewrite app_nil_r in E. by exists L'.
Qed.

End NameFacts.

(** ** Running a list of rules twice *)

Section RunTwice.

Context {X I : Type} `{EqDecision I}.
Variable f : I -> X -> X.

Local Abbreviation run_all := (run_all f) (only parsing).

Variable rules : list I.

(** Each rule does nothing the second time, *)
Hypothesis once : forall i x, In i rules -> f i (f i x) = f i x.

(** and a rule that has nothing to do still has nothing to do after
    another rule has run. *)
Hypothesis stable :
  forall i j x, In i rules -> In j rules -> i <> j ->
                f i x = x -> f i (f j x) = f j x.

Lemma run_all_settles (done todo : list I) (x : X) :
  (forall i, In i (done ++ todo) -> In i rules) ->
  (forall i, In i done -> f i x = x) ->
  forall i, In i (done ++ todo) -> f i (run_all todo x) = run_all todo x.
Proof.
  revert done x. induction todo as [|j todo IH]; intros done x Hin Hd i Hi.
  - rewrite app_nil_r in Hi. by apply Hd.
  - cbn [run_all fold_left]. fold (run_all todo (f j x)).
    assert (Hj : In j rules).
    { apply Hin, in_or_app. right. by left. }
    replace (done ++ j :: todo) with ((done ++ [j]) ++ todo) in *
      by (by rewrite <- app_assoc).
    apply (IH (done ++ [j])); [done| |done].
    intros k [Hk | [<- | []]]%in_app_or.
    + destruct (decide (k = j)) as [-> | Hkj]; [by apply once|].
      apply stable; [|done|done|by apply Hd].
      apply Hin, in_or_app. left. apply in_or_app. by left.
    + by apply once.
Qed.

Lemma run_all_fixed (todo : list I) (x : X) :
  (forall i, In i todo -> f i x = x) -> run_all todo x = x.
Proof.
  induction todo as [|j todo IH]; intros H; [done|].
  cbn [run_all fold_left]. rewrite H by (by left).
  apply IH. intros i Hi. apply H. by right.
Qed.

Lemma run_all_twice (x : X) :
  run_all rules (run_all rules x) = run_all rules x.
Proof.
  apply run_all_fixed. intros i Hi.
  by apply (run_all_settles [] rules).
Qed.

End RunTwice.

(** ** The rules of fix_virtualization.py on the lines *)

Section FixVirtualizationLines.

Import Py FixVirtualization.

Variables m m' : text.
Hypothesis plain_m : plain m = true.
Hypothesis plain_m' : plain m' = true.
Hypothesis distinct : m <> m'.

Lemma endswith_exclusive (l : text) :
  endswith l (name_line m) && endswith l (name_line m') = false.
Proof.
  apply plain_spec in plain_m as [Hq _], plain_m' as [Hq' _].
  apply andb_false_iff.
  destruct (endswith l (name_line m)) eqn:E; [right | by left].
  apply bool_decide_eq_false_2. intros H. apply distinct.
  apply endswith_true in E. by apply (name_line_suffix m m' l).
Qed.

Lemma endswith_inserted (f : bool) (l : text) :
  endswith (if f then inserted ++ l else l) (name_line m)
  = endswith l (name_line m).
Proof.
  destruct f; [|done]. apply bool_decide_ext, suffix_after_inserted.
Qed.

Lemma has_name_insert_after (f : bool) (lines : list text) :
  Exists (occurs (name_line m)) (insert_after (name_line m') inserted f lines)
  <-> Exists (occurs (name_line m)) lines.
Proof.
  revert f. induction lines as [|l lines IH]; intros f; [done|].
  rewrite insert_after_cons, !Exists_cons, IH.
  apply or_iff_compat_r. destruct f; [|done]. apply occurs_after_inserted.
Qed.

Lemma marked_insert_after (e : text) (f : bool) (lines : list text) :
  marked (name_line m) e (insert_after (name_line m') inserted f lines)
  <-> marked (name_line m) e lines.
Proof.
  revert f. induction lines as [|l lines IH]; intros f; [done|].
  rewrite insert_after_cons, !marked_inv, IH.
  apply or_iff_compat_r.
  assert (Hs : name_line m `suffix_of` (if f then inserted ++ l else l)
               <-> name_line m `suffix_of` l).
  { destruct f; [|done]. apply suffix_after_inserted. }
  rewrite Hs. split.
  - intros [Ha (l1 & rest1 & E & He)]. split; [done|].
    pose proof (endswith_exclusive l) as Hx.
    rewrite (proj2 (endswith_true _ _) Ha) in Hx. cbn [andb] in Hx.
    rewrite Hx in E. destruct lines as [|l' lines]; [done|].
    rewrite insert_after_cons in E. injection E as <- <-.
    by exists l', lines.
  - intros [Ha (l' & rest' & -> & He)]. split; [done|].
    pose proof (endswith_exclusive l) as Hx.
    rewrite (proj2 (endswith_true _ _) Ha) in Hx. cbn [andb] in Hx.
    rewrite Hx, insert_after_cons. by eexists _, _.
Qed.

Lemma insert_after_commute (f f' : bool) (lines : list text) :
  f && f' = false ->
  insert_after (name_line m) inserted f
    (insert_after (name_line m') inserted f' lines)
  = insert_after (name_line m') inserted f'
      (insert_after (name_line m) inserted f lines).
Proof.
  revert f f'. induction lines as [|l lines IH]; intros f f' Hf; [done|].
  rewrite !insert_after_cons. f_equal.
  - destruct f, f'; done.
  - assert (E1 : endswith (if f' then inserted ++ l else l) (name_line m)
                 = endswith l (name_line m)) by apply endswith_inserted.
    assert (E2 : endswith (if f then inserted ++ l else l) (name_line m')
                 = endswith l (name_line m')).
    { destruct f; [|done]. apply bool_decide_ext, suffix_after_inserted. }
    rewrite E1, E2. apply IH, endswith_exclusive.
Qed.

End FixVirtualizationLines.

Section FixVirtualizationRules.

Import Py FixVirtualization.

Lemma step1_eq (module content : text) :
  step1 module content
  = if guard module content
    then replace (pattern module) (replacement module) content
    else content.
Proof. unfold step1. by rewrite fv1_disable_content. Qed.

Lemma run_rules1_content (modules : list text) (st : state) :
  (run_rules modules st).1 = run_all step1 modules st.1.
Proof.
  revert st. induction modules as [|module modules IH]; intros st; [done|].
  unfold run_rules in *. cbn [fold_left run_all]. rewrite IH.
  f_equal. unfold step1. rewrite !fv1_disable_content. done.
Qed.

(** The guard on the lines. *)
Lemma guard_lines (module : text) (lines : list text) :
  plain module = true -> lines <> [] -> Forall (fun l => nl ∉ l) lines ->
  guard module (join nl lines) = true <->
  Exists (occurs (name_line module)) lines
  /\ ~ marked (name_line module) (txt "    enabled: false") lines.
Proof.
  intros [_ Hn]%plain_spec Hne Hfree.
  rewrite fv1_guard_true. unfold disabled_mark.
  rewrite occurs_join by (done || by apply name_line_free).
  rewrite occurs_mark_join; [done|by apply name_line_free| |done].
  by apply free_of_spec.
Qed.

Lemma step1_lines (module : text) (lines : list text) :
  plain module = true -> Forall (fun l => nl ∉ l) lines ->
  step1 module (join nl lines)
  = join nl (if guard module (join nl lines)
             then insert_after (name_line module) inserted false lines
             else lines).
Proof.
  intros [_ Hn]%plain_spec Hfree. rewrite step1_eq.
  destruct (guard module (join nl lines)); [|done].
  unfold pattern, replacement. apply replace_lines; [|done|done].
  by apply name_line_free.
Qed.

Lemma inserted_free : nl ∉ inserted.
Proof. by apply free_of_spec. Qed.

Lemma guard_after_other (m m' : text) (lines : list text) :
  plain m = true -> plain m' = true -> m <> m' ->
  lines <> [] -> Forall (fun l => nl ∉ l) lines ->
  guard m (join nl (insert_after (name_line m') inserted false lines))
  = guard m (join nl lines).
Proof.
  intros Hm Hm' Hd Hne Hfree. apply eq_true_iff_eq.
  rewrite (guard_lines m (insert_after _ _ _ _));
    [|done|by apply insert_after_nonempty
     |apply insert_after_free; [apply inserted_free | done]].
  rewrite (guard_lines m lines) by done.
  rewrite has_name_insert_after, marked_insert_after; done.
Qed.

(** Two rules of fix_virtualization.py in either order. *)
Lemma step1_commute (m m' content : text) :
  plain m = true -> plain m' = true ->
  step1 m (step1 m' content) = step1 m' (step1 m content).
Proof.
  intros Hm Hm'. destruct (decide (m = m')) as [-> | Hd]; [done|].
  destruct (text_cut nl content) as (lines & -> & Hne & Hfree).
  assert (Hi : forall a, Forall (fun l => nl ∉ l)
                           (insert_after a inserted false lines)).
  { intros a. apply insert_after_free; [apply inserted_free | done]. }
  rewrite (step1_lines m' lines), (step1_lines m lines) by done.
  destruct (guard m (join nl lines)) eqn:G, (guard m' (join nl lines)) eqn:G'.
  - rewrite !step1_lines by done.
    rewrite !guard_after_other, G, G' by done.
    f_equal. by apply insert_after_commute.
  - rewrite !step1_lines by done.
    rewrite guard_after_other, G, G' by done. done.
  - rewrite !step1_lines by done.
    rewrite guard_after_other, G, G' by done. done.
  - rewrite !step1_lines by done. by rewrite G, G'.
Qed.

Lemma step1_twice (module content : text) :
  step1 module (step1 module content) = step1 module content.
Proof.
  pose proof (fv1_disable_twice module content []) as H.
  rewrite fv1_disable_content in H. unfold step1.
  rewrite (fv1_disable_content module (_, [])). exact H.
Qed.

Lemma modules_to_disable_plain :
  forall module, In module modules_to_disable -> plain module = true.
Proof.
  apply forallb_forall. reflexivity.
Qed.

(** fix_virtualization.py run twice. *)
Lemma fv1_patch_twice (content : text) :
  (patch (patch content).1).1 = (patch content).1.
Proof.
  unfold patch. rewrite !run_rules1_content. cbn [fst].
  apply run_all_twice.
  - intros i x _. apply step1_twice.
  - intros i j x Hi Hj _ Hx.
    rewrite step1_commute by (by apply modules_to_disable_plain).
    by rewrite Hx.
Qed.

End FixVirtualizationRules.

(** ** Replacements that cannot meet their own result *)

Section ApartFacts.

Import Py.

Lemma comparable_intro (u v x y : text) : u ++ x = v ++ y -> comparable u v = true.
Proof.
  intros E. unfold comparable. apply orb_true_iff.
  destruct (prefix_weak_total u v (u ++ x)) as [H | H].
  - by exists x.
  - exists y. by rewrite E.
  - right. by apply startswith_prefix.
  - left. by apply startswith_prefix.
Qed.

Lemma apart_old (old new : text) (d : nat) :
  apart old new = true -> d < length old ->
  comparable (drop d old) new = false.
Proof.
  intros [H _]%andb_true_iff Hd. rewrite forallb_forall in H.
  apply negb_true_iff, H, in_seq. lia.
Qed.

Lemma apart_new (old new : text) (d : nat) :
  apart old new = true -> d < length new ->
  comparable (drop d new) old = false.
Proof.
  intros [_ H]%andb_true_iff Hd. rewrite forallb_forall in H.
  apply negb_true_iff, H, in_seq. lia.
Qed.

(** An occurrence of [old] in [s ++ new ++ t] lies in [s] or in [t]. *)
Lemma occurs_around (old new s t : text) :
  apart old new = true ->
  occurs old (s ++ new ++ t) -> occurs old s \/ occurs old t.
Proof.
  intros Ha (L & R & E). unfold occurs_at in E.
  apply app_eq_inv in E as [(k & -> & E) | (k & -> & E)].
  - (* the occurrence begins in [s] *)
    left. destruct (le_lt_dec (length old) (length k)) as [Hk | Hk].
    + assert (Hp : old `prefix_of` k).
      { apply (prefix_shorter _ _ (k ++ new ++ t)); [|by apply prefix_app_r|done].
        exists R. by rewrite E. }
      destruct Hp as [z ->]. by exists L, z.
    + exfalso. pose proof (apart_old old new (length k) Ha Hk) as Hc.
      assert (Ek : old = k ++ drop (length k) old).
      { assert (Hp : k `prefix_of` old).
        { apply (prefix_shorter _ _ (old ++ R)); [|by apply prefix_app_r|lia].
          exists (new ++ t). by rewrite E. }
        destruct Hp as [z ->]. by rewrite drop_app_length. }
      rewrite Ek, <- !app_assoc in E. apply app_inv_head in E.
      apply comparable_intro in E. congruence.
  - (* the occurrence begins in [new] or after it *)
    destruct (le_lt_dec (length new) (length k)) as [Hk | Hk].
    + right. assert (Hp : new `prefix_of` k).
      { apply (prefix_shorter _ _ (new ++ t)); [by apply prefix_app_r| |done].
        by exists (old ++ R). }
      destruct Hp as [z ->]. rewrite <- app_assoc in E.
      apply app_inv_head in E. by exists z, R.
    + exfalso. pose proof (apart_new old new (length k) Ha Hk) as Hc.
      assert (Ek : new = k ++ drop (length k) new).
      { assert (Hp : k `prefix_of` new).
        { apply (prefix_shorter _ _ (new ++ t)); [|by apply prefix_app_r|lia].
          by exists (old ++ R). }
        destruct Hp as [z ->]. by rewrite drop_app_length. }
      rewrite Ek, <- !app_assoc in E. apply app_inv_head in E.
      apply comparable_intro in E. congruence.
Qed.

Lemma replaced_clean (old new : text) (segs : list text) (tail : text) :
  old <> [] -> apart old new = true ->
  forallb (starts_none old) segs = true -> str_in old tail = false ->
  ~ occurs old (interleave new segs tail).
Proof.
  intros Hne Ha Hs Ht. induction segs as [|s segs IH]; cbn [interleave].
  - by apply str_in_absent.
  - cbn [forallb] in Hs. apply andb_true_iff in Hs as [Hs Hsegs].
    intros [H | H]%occurs_around; [|by apply IH|done].
    unfold starts_none in Hs. apply negb_true_iff, str_in_absent in Hs.
    by apply Hs, occurs_app_l.
Qed.

(** Replacing twice is replacing once. *)
Lemma replace_twice (old new content : text) :
  old <> [] -> apart old new = true ->
  replace old new (replace old new content) = replace old new content.
Proof.
  intros Hne Ha.
  destruct (interleave_exists old content Hne) as (segs & tail & -> & Hs & Ht).
  rewrite replace_interleave by done.
  apply replace_absent. by apply replaced_clean.
Qed.

Lemma profiling_patch_twice (content : text) :
  (FixProfiling.patch (FixProfiling.patch content).1).1
  = (FixProfiling.patch content).1.
Proof.
  unfold FixProfiling.patch. cbn [fst].
  apply replace_twice; [done|]. by vm_compute.
Qed.

End ApartFacts.

(** ** Lists of rules *)

(** C6. Two rules of a script whose anchors never overlap in the content
    give the same content in either order: two rules of
    fix_virtualization4.py when no occurrence of the old literal of the one
    shares a character with an occurrence of the old literal of the other,
    and two rules of fix_virtualization.py on every content (the name lines
    of two of its modules never overlap). *)
Theorem disjoint_rules_commute (content : text) :
  (forall r1 r2,
     In r1 FixVirtualization4.replacements ->
     In r2 FixVirtualization4.replacements ->
     overlapb r1.1 r2.1 content = false ->
     (FixVirtualization4.run_rules [r1; r2] (content, [])).1
     = (FixVirtualization4.run_rules [r2; r1] (content, [])).1)
  /\ (forall m1 m2,
        In m1 FixVirtualization.modules_to_disable ->
        In m2 FixVirtualization.modules_to_disable ->
        (FixVirtualization.run_rules [m1; m2] (content, [])).1
        = (FixVirtualization.run_rules [m2; m1] (content, [])).1).
Proof.
  split.
  - intros r1 r2 H1 H2 Ho.
    rewrite replacements_labels in H1, H2.
    apply in_map_iff in H1 as (b1 & <- & H1), H2 as (b2 & <- & H2).
    by apply fv4_pair_commute.
  - intros m1 m2 H1 H2. rewrite !run_rules1_content. cbn [run_all fold_left fst].
    apply step1_commute; by apply modules_to_disable_plain.
Qed.

Lemma disjoint_rules_commute_witness :
  let arm := FixVirtualization4.quoted (txt ":microdroid_kernel_prebuilt-arm64") in
  let x86 := FixVirtualization4.quoted (txt ":microdroid_kernel_prebuilt-x86_64") in
  let content := txt "a: " ++ arm ++ txt ", b: " ++ x86 ++ txt "," in
  (FixVirtualization4.run_rules
     [(arm, FixVirtualization4.empty_file); (x86, FixVirtualization4.empty_file)]
     (content, [])).1
  = (FixVirtualization4.run_rules
       [(x86, FixVirtualization4.empty_file); (arm, FixVirtualization4.empty_file)]
       (content, [])).1.
Proof.
  intros arm x86 content.
  apply (proj1 (disjoint_rules_commute content)
           (arm, FixVirtualization4.empty_file)
           (x86, FixVirtualization4.empty_file)).
  - by left.
  - right. by left.
  - reflexivity.
Defined.

(** C1 fails as stated: fix_virtualization4.py on a reference followed at
    once by the rest of the same reference.  The run replaces the first
    reference; its closing quote then opens a second one, which the next
    run replaces. *)
Lemma idempotence_counterexample :
  let label := txt ":microdroid_kernel_prebuilt-arm64" in
  let content := dq :: label ++ dq :: label ++ [dq] in
  (FixVirtualization4.patch content).1
  = FixVirtualization4.empty_file ++ label ++ [dq]
  /\ (FixVirtualization4.patch (FixVirtualization4.patch content).1).1
     = FixVirtualization4.empty_file ++ txt ":empty_file" ++ [dq]
  /\ (FixVirtualization4.patch (FixVirtualization4.patch content).1).1
     <> (FixVirtualization4.patch content).1.
Proof. repeat split; try reflexivity. discriminate. Qed.

(** ** The check of fix_virtualization3.py *)

Section EnabledNextFacts.

Import Py.

Lemma lstrip_split (y : text) :
  exists ws, y = ws ++ lstrip y /\ forallb isspace ws = true.
Proof.
  induction y as [|c y (ws & E & H)]; [by exists []|]. cbn [lstrip].
  destruct (isspace c) eqn:Ec; [|by exists []].
  exists (c :: ws). cbn [app forallb]. rewrite Ec, H. split; [|done].
  by rewrite <- E.
Qed.

Lemma forallb_rev (P : ascii -> bool) (s : text) :
  forallb P (rev s) = forallb P s.
Proof.
  induction s as [|c s IH]; [done|]. cbn [rev forallb].
  rewrite forallb_app, IH. cbn [forallb]. by rewrite andb_true_r, andb_comm.
Qed.

Lemma rstrip_split (z : text) :
  exists ws, z = rstrip z ++ ws /\ forallb isspace ws = true.
Proof.
  destruct (lstrip_split (rev z)) as (ws & E & H).
  exists (rev ws). rewrite forallb_rev. split; [|done].
  unfold rstrip. rewrite <- rev_app_distr, <- E. by rewrite rev_involutive.
Qed.

Lemma lstrip_head (y : text) (c : ascii) (y' : text) :
  lstrip y = c :: y' -> isspace c = false.
Proof.
  induction y as [|a y IH]; [done|]. cbn [lstrip].
  destruct (isspace a) eqn:E; [done|]. by intros [= <- _].
Qed.

Lemma rstrip_last (z r : text) (c : ascii) :
  rstrip z = r ++ [c] -> isspace c = false.
Proof.
  unfold rstrip. intros E. apply (f_equal (@rev ascii)) in E.
  rewrite rev_involutive, rev_app_distr in E. cbn [rev app] in E.
  by apply lstrip_head in E.
Qed.

(** A text that ends with no space begins [rstrip z] when it begins [z]. *)
Lemma startswith_rstrip (z p : text) (c : ascii) :
  isspace c = false ->
  startswith (rstrip z) (p ++ [c]) = startswith z (p ++ [c]).
Proof.
  intros Hc. destruct (rstrip_split z) as (ws & E & Hws).
  apply eq_true_iff_eq. rewrite !startswith_prefix. split.
  - intros H. rewrite E. by apply prefix_app_r.
  - intros H. rewrite E in H.
    destruct (le_lt_dec (length (p ++ [c])) (length (rstrip z))) as [Hl | Hl].
    + apply (prefix_shorter _ _ (rstrip z ++ ws)); [done| |done].
      by apply prefix_app_r.
    + exfalso. destruct H as [k Hk].
      apply app_eq_inv in Hk as [(j & Hj & _) | (j & Hj & Hk)].
      * apply (f_equal length) in Hj. rewrite length_app in Hj. lia.
      * destruct j as [|a j _] using rev_ind.
        { rewrite app_nil_r in Hj. rewrite Hj in Hl. lia. }
        rewrite app_assoc in Hj. apply app_inj_tail in Hj as [_ <-].
        rewrite Hk, !forallb_app in Hws. cbn [forallb] in Hws.
        rewrite Hc in Hws. by destruct (forallb isspace j).
Qed.

(** What comes after the first newline does not matter to a text without
    newline looked for at the head. *)
Lemma startswith_take_line (p u t t' : text) (n : nat) :
  nl ∉ p ->
  startswith (take n (u ++ nl :: t)) p = startswith (take n (u ++ nl :: t')) p.
Proof.
  revert u n. induction p as [|a p IH]; intros u n Hp.
  - by destruct (take n _), (take n _).
  - apply not_elem_of_cons in Hp as [Ha Hp].
    destruct n as [|n]; [done|]. destruct u as [|d u]; cbn [app take startswith].
    + assert (E : Ascii.eqb a nl = false) by (apply Ascii.eqb_neq; congruence).
      by rewrite E.
    + by rewrite (IH u n).
Qed.

Lemma first_nonspace (u : text) :
  Exists (fun c => isspace c = false) u ->
  exists ws c u', u = ws ++ c :: u' /\ forallb isspace ws = true
                  /\ isspace c = false.
Proof.
  induction u as [|a u IH]; intros H; [by apply Exists_nil in H|].
  destruct (isspace a) eqn:Ea.
  - apply Exists_cons in H as [H | H]; [congruence|].
    destruct (IH H) as (ws & c & u' & -> & Hws & Hc).
    exists (a :: ws), c, u'. cbn [app forallb]. by rewrite Ea, Hws.
  - by exists [], a, u.
Qed.

(** The check looks at the first line that holds something. *)
Lemma enabled_next_line_only (u t t' : text) :
  Exists (fun c => isspace c = false) u ->
  enabled_next (u ++ nl :: t) = enabled_next (u ++ nl :: t').
Proof.
  intros (ws & c & u' & -> & Hws & Hc)%first_nonspace.
  unfold enabled_next. rewrite <- !app_assoc. cbn [app].
  rewrite !(take_app ws).
  destruct (50 - length ws) as [|n] eqn:En; [done|]. cbn [take].
  assert (Hs : forall z, strip (take 50 ws ++ c :: z) = c :: rstrip z).
  { intros z. unfold strip. rewrite rstrip_app by done.
    rewrite lstrip_app.
    assert (Hw : forallb isspace (take 50 ws) = true).
    { rewrite take_ge by lia. done. }
    rewrite Hw. cbn [lstrip]. by rewrite Hc. }
  rewrite !Hs.
  change (txt "enabled:") with ("e"%char :: txt "nabled" ++ [":"%char]).
  cbn [startswith]. f_equal.
  rewrite !startswith_rstrip by done.
  apply startswith_take_line. by apply free_of_spec.
Qed.

End EnabledNextFacts.

(** ** The rule of fix_virtualization3.py on the lines *)

Section FixVirtualization3Lines.

Import Py Re FixVirtualization3.

(** Where the first newline of [l ++ nl :: t] can be in [p ++ a ++ nl :: r]. *)
Lemma line_split (a l t p r : text) :
  nl ∉ l -> nl ∉ a ->
  l ++ nl :: t = (p ++ a) ++ nl :: r ->
  (l = p ++ a /\ t = r)
  \/ exists j, p = l ++ nl :: j /\ t = j ++ a ++ nl :: r.
Proof.
  intros Hl Ha E.
  apply app_eq_inv in E as [(k & -> & E) | (k & E1 & E)].
  - destruct k as [|c k]; cbn [app] in E.
    + injection E as <-. left. by rewrite app_nil_r.
    + injection E as <- _. destruct Hl. apply elem_of_app. right. by left.
  - destruct k as [|c k]; cbn [app] in E.
    + injection E as ->. rewrite app_nil_r in E1. by left.
    + injection E as <- ->. right.
      replace (l ++ nl :: k) with ((l ++ [nl]) ++ k) in E1
        by (by rewrite <- app_assoc).
      apply app_eq_inv in E1 as [(j & -> & ->) | (j & E1 & ->)].
      * exists j. by rewrite <- !app_assoc.
      * destruct j as [|c j _] using rev_ind.
        -- exists []. rewrite app_nil_r in E1. by rewrite <- E1, <- app_assoc.
        -- rewrite app_assoc in E1. apply app_inj_tail in E1 as [_ <-].
           destruct Ha. apply elem_of_app. left.
           apply elem_of_app. right. by left.
Qed.

Variable module : text.
Hypothesis plain_module : plain module = true.

Local Abbreviation a := (name_line module).

Lemma a_free : nl ∉ a.
Proof. apply name_line_free. by apply plain_spec in plain_module as [_ ?]. Qed.

Lemma lit_a (r : text) : lit module ++ r = a ++ nl :: r.
Proof. apply lit_name_line. Qed.

Lemma match_in_line (l t p : text) :
  nl ∉ l ->
  matches_at (lit module) p (l ++ nl :: t) <->
  (l = p ++ a /\ blank_headed t = true)
  \/ exists j, p = l ++ nl :: j /\ matches_at (lit module) j t.
Proof.
  intros Hl. split.
  - intros (r & E & Hr). rewrite lit_a, app_assoc in E.
    apply line_split in E as [[-> ->] | (j & -> & ->)];
      [by left| |done|apply a_free].
    right. exists j. split; [done|]. exists r. by rewrite lit_a.
  - intros [[-> Ht] | (j & -> & r & -> & Hr)].
    + exists t. by rewrite lit_a, <- app_assoc.
    + exists r. by rewrite <- app_assoc.
Qed.

Lemma no_match_last_line (l p : text) : nl ∉ l -> ~ matches_at (lit module) p l.
Proof.
  intros Hl (r & -> & _). apply Hl. rewrite lit_a.
  apply elem_of_app. right. apply elem_of_app. right. by left.
Qed.

Lemma step3_last (l : text) : nl ∉ l -> step3 module l = l.
Proof.
  intros Hl. unfold step3.
  destruct (fv3_disable_no_match module l []) as [E _]; [|by rewrite E].
  intros p. by apply no_match_last_line.
Qed.

(** The first line ends with the name and blanks follow. *)
Lemma step3_head (k W r : text) :
  nl ∉ k -> W <> [] -> forallb is_blank W = true -> blank_headed r = false ->
  step3 module (k ++ a ++ nl :: W ++ r)
  = if enabled_next r then k ++ a ++ nl :: W ++ r
    else k ++ a ++ nl :: W ++ enabled_line W ++ r.
Proof.
  intros Hk HW Hall Hr. unfold step3.
  destruct (fv3_disable_first_match module k W r []) as [E _]; try done.
  - intros p Hp. rewrite lit_a, app_assoc in Hp.
    apply match_in_line in Hp as [[Hp _] | (j & -> & _)].
    + apply app_inv_tail in Hp. by rewrite Hp.
    + rewrite !length_app. lia.
    + apply not_elem_of_app. split; [done | apply a_free].
  - rewrite !lit_a in E. rewrite E. by destruct (enabled_next r).
Qed.

(** The first line does not end with the name, or no blank follows. *)
Lemma step3_skip (l t : text) :
  nl ∉ l -> endswith l a && blank_headed t = false ->
  step3 module (l ++ nl :: t) = l ++ nl :: step3 module t.
Proof.
  intros Hl Hm.
  assert (Hhead : forall p, ~ (l = p ++ a /\ blank_headed t = true)).
  { intros p [-> Ht]. rewrite Ht, andb_true_r in Hm.
    apply bool_decide_eq_false_1 in Hm. apply Hm. by apply suffix_app_r. }
  unfold step3.
  destruct (first_match_cases module t)
    as [H | (L & W & r & -> & HW & Hall & Hr & Hno)].
  - destruct (fv3_disable_no_match module t [] H) as [E _]. rewrite E.
    destruct (fv3_disable_no_match module (l ++ nl :: t) []) as [E' _];
      [|by rewrite E'].
    intros p [Hp | (j & _ & Hj)]%match_in_line; [by apply (Hhead p)| |done].
    by apply (H j).
  - destruct (fv3_disable_first_match module L W r []) as [E _]; try done.
    destruct (fv3_disable_first_match module (l ++ nl :: L) W r []) as [E' _];
      try done.
    + rewrite <- app_assoc. cbn [app].
      intros p [Hp | (j & -> & Hj)]%match_in_line; [by destruct (Hhead p)| |done].
      apply Hno in Hj. rewrite !length_app. cbn [length]. lia.
    + rewrite <- !app_assoc in E'. cbn [app] in E'. rewrite E, E'.
      by destruct (enabled_next r).
Qed.

Lemma blank_headed_join (l : text) (rest : list text) :
  blank_headed (join nl (l :: rest)) = blank_headed l.
Proof.
  destruct rest as [|l' rest]; [done|]. rewrite join_cons2.
  by destruct l.
Qed.

Lemma blanks_join (l : text) (rest : list text) :
  blanks (join nl (l :: rest)) = blanks l.
Proof.
  destruct rest as [|l' rest]; [done|]. rewrite join_cons2.
  induction l as [|c l IH]; [done|]. cbn [app blanks].
  destruct (is_blank c); [by rewrite IH | done].
Qed.

Lemma blanks_length (l : text) : length (blanks l) <= length l.
Proof.
  induction l as [|c l IH]; [done|]. cbn [blanks].
  destruct (is_blank c); cbn [length]; lia.
Qed.

Lemma drop_join (n : nat) (l : text) (rest : list text) :
  n <= length l ->
  drop n (join nl (l :: rest)) = join nl (drop n l :: rest).
Proof.
  intros H. destruct rest as [|l' rest]; [done|].
  rewrite !join_cons2. by rewrite drop_app_le.
Qed.

Lemma blanks_drop (l : text) : l = blanks l ++ drop (length (blanks l)) l.
Proof.
  induction l as [|c l IH]; [done|]. cbn [blanks].
  destruct (is_blank c); [|done]. cbn [length drop app]. by rewrite <- IH.
Qed.

Lemma drop_blanks_head (l : text) :
  blank_headed (drop (length (blanks l)) l) = false.
Proof.
  induction l as [|c l IH]; [done|]. cbn [blanks].
  destruct (is_blank c) eqn:E; [done|]. cbn. by rewrite E.
Qed.

Lemma insert_line_cons2 (a l l' : text) (rest : list text) :
  insert_line a (l :: l' :: rest)
  = if endswith l a && blank_headed l'
    then if enabled_next (join nl (drop (length (blanks l')) l' :: rest))
         then l :: l' :: rest
         else l :: (blanks l' ++ txt "enabled: false,") :: l' :: rest
    else l :: insert_line a (l' :: rest).
Proof. reflexivity. Qed.

Lemma insert_line_head (a l : text) (rest : list text) :
  exists Y, insert_line a (l :: rest) = l :: Y.
Proof.
  destruct rest as [|l' rest]; [by exists []|]. rewrite insert_line_cons2.
  destruct (endswith l a && blank_headed l'); [|by eexists].
  destruct (enabled_next _); by eexists.
Qed.

Lemma insert_line_nonempty (a : text) (lines : list text) :
  lines <> [] -> insert_line a lines <> [].
Proof.
  destruct lines as [|l rest]; [done|]. intros _.
  destruct (insert_line_head a l rest) as [Y E]. by rewrite E.
Qed.

(** The rule on the content cut into its lines. *)
Lemma step3_lines (lines : list text) :
  Forall (fun l => nl ∉ l) lines ->
  step3 module (join nl lines) = join nl (insert_line a lines).
Proof.
  induction lines as [|l lines IH]; intros H.
  - cbn. apply (step3_last []), not_elem_of_nil.
  - inversion H as [|? ? Hl Hlines]; subst.
    destruct lines as [|l' rest]; [by apply step3_last|].
    rewrite join_cons2, insert_line_cons2.
    destruct (endswith l a && blank_headed l') eqn:Em.
    + apply andb_true_iff in Em as [[k ->]%endswith_true Hb].
      set (t := join nl (l' :: rest)).
      assert (Et : t = blanks l' ++ join nl (drop (length (blanks l')) l' :: rest)).
      { unfold t. rewrite <- drop_join by apply blanks_length.
        rewrite <- (blanks_join l' rest). apply blanks_drop. }
      rewrite Et, <- app_assoc, step3_head.
      * destruct (enabled_next _).
        -- rewrite join_cons2. fold t. by rewrite Et, <- app_assoc.
        -- rewrite !join_cons2. fold t. rewrite Et.
           unfold enabled_line. by rewrite <- !app_assoc.
      * apply not_elem_of_app in Hl. tauto.
      * apply blanks_nonempty. exact Hb.
      * apply blanks_all.
      * rewrite <- (blanks_join l' rest), <- drop_join.
        -- apply drop_blanks_head.
        -- rewrite blanks_join. apply blanks_length.
    + rewrite step3_skip by (by rewrite ?blank_headed_join).
      rewrite IH by done. rewrite join_cons; [done|].
      by apply insert_line_nonempty.
Qed.

End FixVirtualization3Lines.

Section JoinFacts.

Lemma join_inj (xs ys : list text) :
  Forall (fun l => nl ∉ l) xs -> Forall (fun l => nl ∉ l) ys ->
  xs <> [] -> ys <> [] -> join nl xs = join nl ys -> xs = ys.
Proof.
  revert ys. induction xs as [|x xs IH]; intros ys Hx Hy Hnx Hny E; [done|].
  destruct ys as [|y ys]; [done|].
  inversion Hx as [|? ? Hx0 Hxs]; inversion Hy as [|? ? Hy0 Hys]; subst.
  destruct xs as [|x' xs], ys as [|y' ys].
  - cbn in E. by rewrite E.
  - rewrite join_cons2 in E. cbn [join] in E. destruct Hx0. rewrite E.
    apply elem_of_app. right. by left.
  - rewrite join_cons2 in E. cbn [join] in E. destruct Hy0. rewrite <- E.
    apply elem_of_app. right. by left.
  - rewrite !join_cons2 in E.
    apply not_elem_of_app_cons_inv_l in E as (-> & _ & E); [|done..].
    f_equal. by apply IH.
Qed.

Lemma join_snoc (xs : list text) (l : text) :
  xs <> [] -> join nl (xs ++ [l]) = join nl xs ++ nl :: l.
Proof. intros H. by rewrite join_app. Qed.

End JoinFacts.

Section FixVirtualization3Stable.

Import Py Re FixVirtualization3.

Lemma blanks_free (l : text) : nl ∉ l -> nl ∉ blanks l.
Proof.
  intros H Hb. apply H. rewrite (blanks_drop l). apply elem_of_app. by left.
Qed.

Lemma insert_line_free (a : text) (lines : list text) :
  Forall (fun l => nl ∉ l) lines ->
  Forall (fun l => nl ∉ l) (insert_line a lines).
Proof.
  induction lines as [|l lines IH]; intros H; [done|].
  inversion H as [|? ? Hl Hlines]; subst.
  destruct lines as [|l' rest]; [done|]. rewrite insert_line_cons2.
  inversion Hlines as [|? ? Hl' Hrest]; subst.
  destruct (endswith l a && blank_headed l').
  - destruct (enabled_next _); [done|].
    constructor; [done|]. constructor; [|done].
    apply not_elem_of_app. split; [by apply blanks_free|].
    by apply free_of_spec.
  - constructor; [done|]. by apply IH.
Qed.

(** The rule leaves the lines as they are or puts one line after a line
    that ends with the name and is not the last. *)
Lemma insert_line_cases (a : text) (lines : list text) :
  insert_line a lines = lines
  \/ exists pre l1 N post,
       lines = pre ++ l1 :: post /\ post <> []
       /\ insert_line a lines = pre ++ l1 :: N :: post
       /\ a `suffix_of` l1.
Proof.
  induction lines as [|l lines IH]; [by left|].
  destruct lines as [|l' rest]; [by left|]. rewrite insert_line_cons2.
  destruct (endswith l a && blank_headed l') eqn:Em.
  - destruct (enabled_next _); [by left|]. right.
    apply andb_true_iff in Em as [Ha _]. apply endswith_true in Ha.
    by exists [], l, (blanks l' ++ txt "enabled: false,"), (l' :: rest).
  - destruct IH as [-> | (pre & l1 & N & post & E & Hp & -> & Ha)]; [by left|].
    right. exists (l :: pre), l1, N, post. by rewrite E.
Qed.

Lemma name_line_last (module : text) :
  name_line module = (txt "name: " ++ dq :: module) ++ [dq] ++ [","%char].
Proof. unfold name_line. by rewrite <- app_assoc. Qed.

(** The line the rule puts in ends with no name. *)
Lemma inserted_line_no_name (module W : text) :
  endswith (W ++ txt "enabled: false,") (name_line module) = false.
Proof.
  apply bool_decide_eq_false_2. intros [k E].
  rewrite name_line_last in E.
  change (txt "enabled: false,")
    with (txt "enabled: fals" ++ ["e"%char] ++ [","%char]) in E.
  rewrite !app_assoc in E.
  apply app_inj_tail in E as [E _]. by apply app_inj_tail in E as [_ E].
Qed.

Lemma exists_suffix (P : ascii -> Prop) (l u : text) :
  l `suffix_of` u -> Exists P l -> Exists P u.
Proof. intros [k ->] H. apply Exists_app. by right. Qed.

Lemma name_line_nonspace (module : text) :
  Exists (fun c => isspace c = false) (name_line module).
Proof. by apply Exists_cons_hd. Qed.

(** A line that ends with a name holds something after its blanks. *)
Lemma drop_blanks_nonspace (module l : text) :
  name_line module `suffix_of` l ->
  Exists (fun c => isspace c = false) (drop (length (blanks l)) l).
Proof.
  intros [k E]. rewrite name_line_last, !app_assoc in E.
  pose proof (blanks_drop l) as Hl. pose proof (blanks_all l) as Hb.
  destruct (drop (length (blanks l)) l) as [|c d] eqn:Ed using rev_ind.
  - exfalso. rewrite app_nil_r in Hl. rewrite <- Hl, E in Hb.
    rewrite forallb_app in Hb. by apply andb_true_iff in Hb as [_ Hb].
  - apply Exists_app. right. apply Exists_cons_hd.
    rewrite Hl, app_assoc in E. by apply app_inj_tail in E as [_ ->].
Qed.

Section Pair.

Variables m m' : text.
Hypothesis plain_m : plain m = true.
Hypothesis plain_m' : plain m' = true.
Hypothesis distinct : m <> m'.

(** The check of one rule is not touched by the line another rule puts in
    further down. *)
Lemma enabled_next_after_other (d l' : text) (rest Y : list text) :
  insert_line (name_line m') (l' :: rest) = l' :: Y ->
  (name_line m' `suffix_of` l' -> Exists (fun c => isspace c = false) d) ->
  enabled_next (join nl (d :: Y)) = enabled_next (join nl (d :: rest)).
Proof.
  intros E Hd.
  destruct (insert_line_cases (name_line m') (l' :: rest))
    as [E' | (pre & l1 & N & post & E1 & Hp & E2 & Ha)].
  - rewrite E' in E. by injection E as <-.
  - rewrite E in E2. destruct pre as [|p pre]; cbn [app] in E1, E2.
    + injection E1 as <- <-. injection E2 as ->.
      rewrite join_cons2, (join_cons nl d rest) by done.
      by apply enabled_next_line_only, Hd.
    + injection E1 as <- ->. injection E2 as ->.
      change (d :: pre ++ l1 :: N :: post)
        with ((d :: pre) ++ [l1] ++ N :: post).
      change (d :: pre ++ l1 :: post) with ((d :: pre) ++ [l1] ++ post).
      rewrite !app_assoc, !(join_app nl ((d :: pre) ++ [l1])) by (done || by destruct pre).
      apply enabled_next_line_only.
      rewrite join_snoc by done.
      apply (exists_suffix _ l1); [by apply suffix_app_r, suffix_cons_r|].
      apply (exists_suffix _ (name_line m')); [done|].
      apply name_line_nonspace.
Qed.

(** A rule that has nothing to do on the lines still has nothing to do
    after another rule has run. *)
Lemma insert_line_stable (lines : list text) :
  insert_line (name_line m) lines = lines ->
  insert_line (name_line m) (insert_line (name_line m') lines)
  = insert_line (name_line m') lines.
Proof.
  induction lines as [|l lines IH]; intros H; [done|].
  destruct lines as [|l' rest]; [done|].
  rewrite insert_line_cons2 in H. rewrite (insert_line_cons2 (name_line m')).
  pose proof (endswith_exclusive m m' plain_m plain_m' distinct l) as Hx.
  destruct (endswith l (name_line m') && blank_headed l') eqn:Em'.
  - apply andb_true_iff in Em' as [Ha' Hb].
    rewrite Ha', andb_true_r in Hx. rewrite Hx in H. cbn [andb] in H.
    apply (f_equal (@tail text)) in H. cbn [tail] in H.
    destruct (enabled_next _).
    + rewrite insert_line_cons2, Hx. cbn [andb]. by rewrite H.
    + rewrite insert_line_cons2, Hx. cbn [andb]. f_equal.
      rewrite insert_line_cons2, inserted_line_no_name. cbn [andb].
      by rewrite H.
  - destruct (insert_line_head (name_line m') l' rest) as [Y EY].
    rewrite EY, insert_line_cons2.
    destruct (endswith l (name_line m) && blank_headed l') eqn:Em.
    + rewrite (enabled_next_after_other _ l' rest Y EY)
        by apply drop_blanks_nonspace.
      destruct (enabled_next _); [done|].
      apply (f_equal length) in H. cbn [length] in H. lia.
    + apply (f_equal (@tail text)) in H. cbn [tail] in H.
      rewrite <- EY. f_equal. by apply IH.
Qed.

End Pair.

Lemma step3_stable (m m' content : text) :
  plain m = true -> plain m' = true -> m <> m' ->
  step3 m content = content ->
  step3 m (step3 m' content) = step3 m' content.
Proof.
  intros Hm Hm' Hd.
  destruct (text_cut nl content) as (lines & -> & Hne & Hfree).
  rewrite (step3_lines m' Hm' lines Hfree).
  rewrite (step3_lines m Hm lines Hfree).
  intros E. apply join_inj in E;
    [|by apply insert_line_free|done|by apply insert_line_nonempty|done].
  rewrite (step3_lines m Hm) by (by apply insert_line_free).
  f_equal. by apply insert_line_stable.
Qed.

Lemma step3_twice (module content : text) :
  step3 module (step3 module content) = step3 module content.
Proof.
  pose proof (proj1 (fv3_disable_twice module content [])) as H.
  unfold step3. rewrite fv3_disable_report in H. cbn [fst] in H.
  rewrite (fv3_disable_report module (step3 module content)) in H.
  exact H.
Qed.

Lemma run_rules3_content (modules : list text) (st : state) :
  (run_rules modules st).1 = run_all step3 modules st.1.
Proof.
  revert st. induction modules as [|module modules IH]; intros st; [done|].
  unfold run_rules in *. cbn [fold_left run_all]. rewrite IH.
  f_equal. unfold step3. destruct st as [c out].
  by rewrite (fv3_disable_report module c out).
Qed.

Lemma problematic_modules_plain :
  forall module, In module problematic_modules -> plain module = true.
Proof. apply forallb_forall. reflexivity. Qed.

(** fix_virtualization3.py run twice. *)
Lemma fv3_patch_twice (content : text) :
  (patch (patch content).1).1 = (patch content).1.
Proof.
  unfold patch. rewrite !run_rules3_content. cbn [fst].
  apply run_all_twice.
  - intros i x _. apply step3_twice.
  - intros i j x Hi Hj Hij.
    apply step3_stable; [by apply problematic_modules_plain..|done].
Qed.

End FixVirtualization3Stable.

(** C1, as the code has it.  A second run of fix_virtualization.py, of
    fix_virtualization3.py or of fix_profiling.py leaves the content of the
    first run, whatever the content; a second run of fix_virtualization4.py
    does so on every content in which no occurrence of one of its old
    literals shares a character with another occurrence of the same
    literal. *)
Theorem second_run_changes_nothing (content : text) :
  (FixVirtualization.patch (FixVirtualization.patch content).1).1
  = (FixVirtualization.patch content).1
  /\ (FixVirtualization3.patch (FixVirtualization3.patch content).1).1
     = (FixVirtualization3.patch content).1
  /\ (FixProfiling.patch (FixProfiling.patch content).1).1
     = (FixProfiling.patch content).1
  /\ (no_self_overlap content = true ->
      (FixVirtualization4.patch (FixVirtualization4.patch content).1).1
      = (FixVirtualization4.patch content).1).
Proof.
  split; [apply fv1_patch_twice|].
  split; [apply fv3_patch_twice|].
  split; [apply profiling_patch_twice|].
  apply fv4_patch_twice.
Qed.

Lemma second_run_changes_nothing_witness :
  let arm := FixVirtualization4.quoted (txt ":microdroid_kernel_prebuilt-arm64") in
  let content := txt "a: " ++ arm ++ txt ", b: " ++ arm ++ txt "," in
  (FixVirtualization4.patch (FixVirtualization4.patch content).1).1
  = (FixVirtualization4.patch content).1.
Proof.
  intros arm content.
  apply (proj2 (proj2 (proj2 (second_run_changes_nothing content)))). reflexivity.
Defined.

(** * Further properties of the scripts *)

Section CountFacts.

Import Py.

Lemma count_char_app (c : ascii) (s t : text) :
  count_char c (s ++ t) = count_char c s + count_char c t.
Proof. unfold count_char. by rewrite List.filter_app, length_app. Qed.

Lemma count_char_interleave (c : ascii) (sep : text) (segs : list text) (tail : text) :
  count_char c (interleave sep segs tail)
  = count_char c (concat segs) + length segs * count_char c sep
    + count_char c tail.
Proof.
  induction segs as [|s segs IH]; cbn [interleave concat length]; [done|].
  rewrite !count_char_app, IH. lia.
Qed.

Lemma count_char_blanks (W : text) :
  forallb Re.is_blank W = true -> count_char nl W = 0.
Proof.
  induction W as [|c W IH]; [done|]. cbn [forallb].
  intros [Hc HW]%andb_true_iff. unfold count_char in *. cbn [List.filter].
  destruct (Ascii.eqb nl c) eqn:E; [|by apply IH].
  apply Ascii.eqb_eq in E. by subst c.
Qed.

Lemma step1_newlines (module content : text) :
  count_char nl (step1 module content) = count_char nl content.
Proof.
  rewrite step1_eq. destruct (FixVirtualization.guard module content); [|done].
  destruct (interleave_exists (FixVirtualization.pattern module) content)
    as (segs & tail & -> & Hs & Ht); [done|].
  rewrite replace_interleave by done.
  rewrite !count_char_interleave.
  unfold FixVirtualization.replacement, FixVirtualization.pattern.
  rewrite !count_char_app. done.
Qed.

Lemma step3_newlines (module content : text) :
  count_char nl (step3 module content)
  = count_char nl content
    + match FixVirtualization3.outcome module content with
      | applied => 1
      | _ => 0
      end.
Proof.
  unfold step3.
  destruct (first_match_cases module content)
    as [H | (l & W & r & -> & HW & Hall & Hr & Hno)].
  - destruct (fv3_disable_no_match module content [] H) as [E O].
    rewrite E, O. cbn [fst]. lia.
  - destruct (fv3_disable_first_match module l W r []) as [E O]; try done.
    rewrite E, O. destruct (enabled_next r); cbn [fst]; [lia|].
    unfold enabled_line. rewrite !count_char_app.
    change (count_char nl (nl :: W)) with (S (count_char nl W)).
    rewrite (count_char_blanks W Hall).
    change (count_char nl (txt "enabled: false,")) with 0. lia.
Qed.

Lemma report3_disabled (module : text) (o : PatchResult) :
  startswith (report3 module o) (txt "Disabled: ")
  = match o with applied => true | _ => false end.
Proof. destruct o; [apply startswith_app | reflexivity | reflexivity]. Qed.

End CountFacts.

(** X1. fix_virtualization.py never changes the number of lines of the
    file: for each of its eight modules the substitution writes the
    newline of its match back before the inserted property and none after
    it, so the property lands at the head of the line that followed the
    name. *)
Theorem fix_virtualization_keeps_line_count (content : text) :
  count_char nl (FixVirtualization.patch content).1 = count_char nl content.
Proof.
  unfold FixVirtualization.patch. rewrite run_rules1_content. cbn [fst].
  generalize FixVirtualization.modules_to_disable. intros modules.
  revert content.
  induction modules as [|m ms IH]; intros content; [done|].
  cbn [run_all fold_left]. fold (run_all step1 ms (step1 m content)).
  by rewrite IH, step1_newlines.
Qed.

(** X2. fix_virtualization3.py adds to the file exactly one line for each
    [Disabled:] line it prints, and no line for the other rules. *)
Theorem fix_virtualization3_lines_added (modules : list text) (content : text) :
  count_char nl (FixVirtualization3.run_rules modules (content, [])).1
  = count_char nl content
    + disabled_lines (FixVirtualization3.run_rules modules (content, [])).2.
Proof.
  rewrite fv3_run_rules_log. cbn [fst snd app].
  rewrite run_rules3_content. cbn [fst]. revert content.
  induction modules as [|m ms IH]; intros content.
  { unfold disabled_lines. cbn [run_all fold_left log3 List.filter length]. lia. }
  cbn [run_all fold_left log3]. fold (run_all step3 ms (step3 m content)).
  fold (step3 m content). rewrite IH, step3_newlines.
  unfold disabled_lines. cbn [List.filter]. rewrite report3_disabled.
  destruct (FixVirtualization3.outcome m content); cbn [length]; lia.
Qed.

Lemma run_all3_settled (mods : list text) (module content : text) :
  (forall m, In m mods -> plain m = true) -> In module mods ->
  (FixVirtualization3.disable module (run_all step3 mods content, [])).1
  = run_all step3 mods content.
Proof.
  intros Hplain Hm.
  apply (run_all_settles step3 mods) with (done := []).
  - intros i x _. apply step3_twice.
  - intros i j x Hi Hj Hij. apply step3_stable; [by apply Hplain..|done].
  - intros i Hi. exact Hi.
  - intros i [].
  - exact Hm.
Qed.

(** X3. After one run of fix_virtualization3.py no rule is left to apply:
    on the content the run leaves, each module of the list takes the
    skipped or the not-found branch, so a second run prints no
    [Disabled:] line. *)
Theorem fix_virtualization3_settled (module content : text) :
  In module FixVirtualization3.problematic_modules ->
  FixVirtualization3.outcome module (FixVirtualization3.patch content).1
  <> applied.
Proof.
  intros Hm Ho. apply fv3_applied_changes in Ho. apply Ho.
  unfold FixVirtualization3.patch. rewrite run_rules3_content.
  apply run_all3_settled; [apply problematic_modules_plain | exact Hm].
Qed.

Lemma fix_virtualization3_settled_witness :
  let module := txt "microdroid_kernel" in
  let content :=
    txt "    name: " ++ dq :: module ++ dq :: txt "," ++ nl ::
    txt "    srcs: []," in
  FixVirtualization3.outcome module (FixVirtualization3.patch content).1
  <> applied.
Proof.
  intros module content.
  apply (fix_virtualization3_settled module content).
  right. right. by left.
Defined.

Section MoreQuotedFacts.

Import Py FixVirtualization4.

Lemma relabel_set_cons (labels : list text) (n x y : text) (tl : list text) :
  relabel_set labels n (x :: y :: tl)
  = (if bool_decide (x ∈ labels) then n else x) :: relabel_set labels n (y :: tl).
Proof. reflexivity. Qed.

Lemma relabel_set_cons_ne (labels : list text) (n x : text) (tl : list text) :
  tl <> [] ->
  relabel_set labels n (x :: tl)
  = (if bool_decide (x ∈ labels) then n else x) :: relabel_set labels n tl.
Proof. by destruct tl. Qed.

Lemma relabel_set_nil (n : text) (tl : list text) : relabel_set [] n tl = tl.
Proof.
  induction tl as [|x tl IH]; [done|]. destruct tl as [|y tl]; [done|].
  rewrite relabel_set_cons, IH. rewrite bool_decide_eq_false_2; [done|].
  apply not_elem_of_nil.
Qed.

Lemma relabel_set_all (labels : list text) (b n : text) (tl : list text) :
  n ∉ labels ->
  relabel_set labels n (relabel_all b n tl) = relabel_set (b :: labels) n tl.
Proof.
  intros Hn. induction tl as [|x tl IH]; [done|].
  destruct tl as [|y tl]; [done|].
  rewrite relabel_all_cons.
  rewrite (relabel_set_cons (b :: labels) n x y tl).
  rewrite relabel_set_cons_ne by (by apply relabel_all_nonempty).
  rewrite IH. f_equal.
  destruct (decide (x = b)) as [-> | Hx].
  - rewrite (bool_decide_eq_true_2 (b = b)) by done.
    rewrite (bool_decide_eq_false_2 (n ∈ labels)) by done.
    rewrite bool_decide_eq_true_2; [done|]. by left.
  - rewrite (bool_decide_eq_false_2 (x = b)) by done.
    apply (f_equal (fun c : bool => if c then n else x)).
    apply bool_decide_ext. rewrite elem_of_cons.
    split; [by right | by intros [E|E]].
Qed.

(** The run as one pass, when no reference occurs twice in a row. *)
Lemma relabel_run_set (labels : list text) (n : text) (tl : list text) :
  (forall b, In b labels -> ~ in_a_row b b tl) ->
  (forall b, In b labels -> n <> b) ->
  relabel_run labels n tl = relabel_set labels n tl.
Proof.
  revert tl. induction labels as [|b labels IH]; intros tl Hr Hn.
  - by rewrite relabel_set_nil.
  - cbn [relabel_run fold_left]. fold (relabel_run labels n (relabel b n tl)).
    rewrite relabel_is_all by (apply Hr; by left).
    rewrite IH.
    + apply relabel_set_all. intros Hin. apply list_elem_of_In in Hin.
      by apply (Hn n); [right|].
    + intros b' Hb'. apply relabel_all_in_a_row; [apply Hn | apply Hr]; by right.
    + intros b' Hb'. apply Hn. by right.
Qed.

Lemma relabel_set_perm (labels labels' : list text) (n : text) (tl : list text) :
  labels ≡ₚ labels' -> relabel_set labels n tl = relabel_set labels' n tl.
Proof.
  intros Hp. induction tl as [|x tl IH]; [done|].
  destruct tl as [|y tl]; [done|]. rewrite !relabel_set_cons, IH. f_equal.
  apply (f_equal (fun c : bool => if c then n else x)).
  apply bool_decide_ext. by rewrite Hp.
Qed.

(** A reference that is no inner piece does not occur in the content. *)
Lemma not_inner_absent (b s0 : text) (tl : list text) :
  dq ∉ b -> dq ∉ s0 -> Forall (fun seg => dq ∉ seg) tl ->
  ~ inner b tl -> ~ occurs (quoted b) (join dq (s0 :: tl)).
Proof.
  intros Hb Hs0 Htl Hi Ho.
  apply (replace_changes (quoted b) (quoted ("!"%char :: b))) in Ho.
  - apply Ho. rewrite replace_quoted by done. by rewrite relabel_fixed.
  - unfold quoted. intros E. apply (f_equal length) in E.
    cbn [length app] in E. rewrite !length_app in E. cbn [length] in E. lia.
Qed.

End MoreQuotedFacts.

(** ** Every occurrence, where none overlaps another *)

Section ScanFacts.

Import Py.





End ScanFacts.





Lemma fix_virtualization4_result_aux (s0 : text) (tl : list text) :
  dq ∉ s0 -> Forall (fun seg => dq ∉ seg) tl ->
  no_self_overlap (join dq (s0 :: tl)) = true ->
  (FixVirtualization4.patch (join dq (s0 :: tl))).1
  = join dq (s0 :: relabel_set prebuilt_labels (txt ":empty_file") tl).
Proof.
  intros Hs0 Htl Ho. unfold FixVirtualization4.patch.
  rewrite replacements_labels.
  rewrite (fv4_run_join prebuilt_labels);
    [|apply prebuilt_labels_free|by apply free_of_spec|done|done].
  f_equal. f_equal. apply relabel_run_set.
  - by apply (no_self_overlap_rows s0).
  - apply prebuilt_labels_new.
Qed.

(** X4. What fix_virtualization4.py does, in one pass: on a content cut at
    its double quotes, where no old literal overlaps itself, every piece
    between two quotes that is one of the six labels becomes [:empty_file]
    and nothing else changes. *)
Theorem fix_virtualization4_result (s0 : text) (tl : list text) :
  dq ∉ s0 -> Forall (fun seg => dq ∉ seg) tl ->
  no_self_overlap (join dq (s0 :: tl)) = true ->
  (FixVirtualization4.patch (join dq (s0 :: tl))).1
  = join dq (s0 :: relabel_set prebuilt_labels (txt ":empty_file") tl).
Proof.
  intros Hs0 Htl Ho. unfold FixVirtualization4.patch.
  rewrite replacements_labels.
  rewrite (fv4_run_join prebuilt_labels);
    [|apply prebuilt_labels_free|by apply free_of_spec|done|done].
  f_equal. f_equal. apply relabel_run_set.
  - by apply (no_self_overlap_rows s0).
  - apply prebuilt_labels_new.
Qed.

Lemma fix_virtualization4_result_witness :
  let arm := txt ":microdroid_kernel_prebuilt-arm64" in
  (FixVirtualization4.patch
     (join dq [txt "srcs: ["; arm; txt ", "; txt ":other"; txt "],"])).1
  = join dq [txt "srcs: ["; txt ":empty_file"; txt ", "; txt ":other"; txt "],"].
Proof.
  intros arm.
  apply (fix_virtualization4_result (txt "srcs: [")
           [arm; txt ", "; txt ":other"; txt "],"]).
  - by apply free_of_spec.
  - repeat constructor; by apply free_of_spec.
  - reflexivity.
Defined.

(** X5. After a run of fix_virtualization4.py on a content where no old
    literal overlaps itself, none of the six old literals occurs in the
    content any more. *)
Theorem fix_virtualization4_clean (rule : text * text) (content : text) :
  In rule FixVirtualization4.replacements ->
  no_self_overlap content = true ->
  Py.str_in rule.1 (FixVirtualization4.patch content).1 = false.
Proof.
  intros Hr Ho. rewrite replacements_labels in Hr.
  apply in_map_iff in Hr as (b & <- & Hb). cbn [fst].
  destruct (text_cut dq content) as ([|s0 tl] & -> & Hne & Hfree); [done|].
  inversion Hfree as [|? ? Hs0 Htl]; subst.
  apply str_in_absent.
  unfold FixVirtualization4.patch. rewrite replacements_labels.
  rewrite (fv4_run_join prebuilt_labels);
    [|apply prebuilt_labels_free|by apply free_of_spec|done|done].
  apply not_inner_absent; [by apply prebuilt_labels_free|done| |].
  - apply relabel_run_free; [by apply free_of_spec | done].
  - apply (relabel_run_clean _ prebuilt_labels []); [done| | |done].
    + by apply (no_self_overlap_rows s0).
    + apply prebuilt_labels_new.
Qed.

Lemma fix_virtualization4_clean_witness :
  let arm := FixVirtualization4.quoted (txt ":microdroid_kernel_prebuilt-arm64") in
  Py.str_in arm
    (FixVirtualization4.patch (txt "a: " ++ arm ++ txt ", b: " ++ arm)).1
  = false.
Proof.
  intros arm.
  apply (fix_virtualization4_clean (arm, FixVirtualization4.empty_file)).
  - by left.
  - reflexivity.
Defined.

(** X6. The order of the rules of fix_virtualization4.py does not matter
    on a content where no old literal overlaps itself: the six rules in any
    order leave the content the script leaves. *)
Theorem fix_virtualization4_any_order (rules : list (text * text)) (content : text) :
  rules ≡ₚ FixVirtualization4.replacements ->
  no_self_overlap content = true ->
  (FixVirtualization4.run_rules rules (content, [])).1
  = (FixVirtualization4.patch content).1.
Proof.
  intros Hp Ho. rewrite replacements_labels in Hp.
  apply Permutation_map_inv in Hp as (labels & -> & Hl).
  destruct (text_cut dq content) as ([|s0 tl] & -> & Hne & Hfree); [done|].
  inversion Hfree as [|? ? Hs0 Htl]; subst.
  assert (Hin : forall b, In b labels -> In b prebuilt_labels).
  { intros b Hb. apply list_elem_of_In. rewrite Hl. by apply list_elem_of_In. }
  rewrite fix_virtualization4_result_aux by done.
  rewrite (fv4_run_join labels);
    [|intros b Hb; by apply prebuilt_labels_free, Hin
     |by apply free_of_spec|done|done].
  f_equal. f_equal. rewrite relabel_run_set.
  - apply relabel_set_perm. by symmetry.
  - intros b Hb. by apply (no_self_overlap_rows s0), Hin.
  - intros b Hb. by apply prebuilt_labels_new, Hin.
Qed.

Lemma fix_virtualization4_any_order_witness :
  let arm := FixVirtualization4.quoted (txt ":microdroid_kernel_prebuilt-arm64") in
  let content := txt "a: " ++ arm ++ txt ", b: " ++ arm in
  (FixVirtualization4.run_rules (rev FixVirtualization4.replacements)
     (content, [])).1
  = (FixVirtualization4.patch content).1.
Proof.
  intros arm content.
  apply (fix_virtualization4_any_order (rev FixVirtualization4.replacements)).
  - symmetry. apply Permutation_rev.
  - reflexivity.
Defined.


(** ** fix_profiling.py leaves no old block *)

(** X7. After fix_profiling.py has run, the old sdk block occurs nowhere
    in the content, whatever the content was. *)
Theorem fix_profiling_clean (content : text) :
  Py.str_in FixProfiling.old_sdk (FixProfiling.patch content).1 = false.
Proof.
  apply str_in_absent. unfold FixProfiling.patch. cbn [fst].
  destruct (interleave_exists FixProfiling.old_sdk content)
    as (segs & tail & -> & Hs & Ht); [done|].
  rewrite replace_interleave by done.
  apply replaced_clean; [done | by vm_compute | done | done].
Qed.

(** ** Rules that commute, in any order *)

Section RunPerm.

Context {X I : Type}.
Variable f : I -> X -> X.
Variable P : I -> Prop.

Hypothesis commute : forall i j x, P i -> P j -> f i (f j x) = f j (f i x).

Lemma run_all_cons (i : I) (l : list I) (x : X) :
  run_all f (i :: l) x = run_all f l (f i x).
Proof. reflexivity. Qed.

Lemma run_all_perm (l l' : list I) (x : X) :
  Forall P l -> l ≡ₚ l' -> run_all f l x = run_all f l' x.
Proof.
  intros Hl Hp. revert x Hl.
  induction Hp as [|i l l' Hp IH|i j l|l l' l'' Hp IH Hp' IH']; intros x Hl.
  - done.
  - rewrite !run_all_cons. apply IH. by inversion Hl.
  - rewrite !run_all_cons.
    inversion Hl as [|? ? Hi Hl']. inversion Hl' as [|? ? Hj Hl''].
    by rewrite commute.
  - rewrite IH by done. apply IH'. by rewrite <- Hp.
Qed.

End RunPerm.

(** X8. The order of the modules of fix_virtualization.py does not matter:
    its eight rules in any order leave the content the script leaves. *)
Theorem fix_virtualization_any_order (modules : list text) (content : text) :
  modules ≡ₚ FixVirtualization.modules_to_disable ->
  (FixVirtualization.run_rules modules (content, [])).1
  = (FixVirtualization.patch content).1.
Proof.
  intros Hp. unfold FixVirtualization.patch.
  rewrite !run_rules1_content. cbn [fst]. symmetry.
  apply (run_all_perm step1 (fun m => plain m = true)).
  - intros i j x Hi Hj. by apply step1_commute.
  - apply List.Forall_forall. apply modules_to_disable_plain.
  - by symmetry.
Qed.

Lemma fix_virtualization_any_order_witness :
  let content :=
    txt "    name: " ++ dq :: txt "microdroid_kernel" ++ dq :: txt "," ++ nl ::
    txt "    name: " ++ dq :: txt "microdroid_gki_kernel" ++ dq :: txt "," ++ nl ::
    txt "}" in
  (FixVirtualization.run_rules (rev FixVirtualization.modules_to_disable)
     (content, [])).1
  = (FixVirtualization.patch content).1.
Proof.
  intros content.
  apply (fix_virtualization_any_order
           (rev FixVirtualization.modules_to_disable) content).
  symmetry. apply Permutation_rev.
Defined.

(** ** The run and the other files *)

Section RunFrame.

Import Run.


End RunFrame.

(** X9. A run touches one file: every other path holds after the run what
    it held before, whether the run failed or not; the paths that may not
    be written stay the same, and what was printed or written before the
    run stays at the head of the trace. *)
Theorem run_touches_one_file
    (path other : string) (patch : text -> state) (last : text)
    (w : Run.world) :
  other <> path ->
  Run.files (Run.script path patch last w).2 !! other = Run.files w !! other
  /\ Run.read_only (Run.script path patch last w).2 = Run.read_only w
  /\ Run.trace w `prefix_of` Run.trace (Run.script path patch last w).2.
Proof.
  intros Hne. rewrite script_result.
  destruct (Run.files w !! path) as [content|]; [|done]. cbn zeta.
  destruct (decide (path ∈ Run.read_only w)); cbn.
  - split; [done|]. split; [done|]. by apply prefix_app_r.
  - destruct (decide (_ = (patch content).1)); cbn.
    + split; [by rewrite lookup_insert_ne|]. split; [done|].
      by apply prefix_app_r, prefix_app_r.
    + split; [by rewrite lookup_insert_ne|]. split; [done|].
      by apply prefix_app_r, prefix_app_r.
Qed.

Lemma run_touches_one_file_witness :
  let w := {| Run.files := {[ Run.virtualization_bp := txt "cc_binary {}";
                              Run.profiling_bp := txt "sdk {}" ]};
              Run.read_only := ∅; Run.room := ∅; Run.trace := [] |} in
  Run.files (Run.fix_virtualization4 w).2 !! Run.profiling_bp
  = Run.files w !! Run.profiling_bp
  /\ Run.read_only (Run.fix_virtualization4 w).2 = Run.read_only w
  /\ Run.trace w `prefix_of` Run.trace (Run.fix_virtualization4 w).2.
Proof.
  intros w.
  apply (run_touches_one_file Run.virtualization_bp Run.profiling_bp
           FixVirtualization4.patch (txt "Done!") w).
  discriminate.
Defined.



(** ** The expressions of fix_virtualization2.py *)

Section StarFacts.

Import Py FixVirtualization2.

Context {R : Type}.

Lemma literal_some (l s r : text) : literal l s = Some r <-> s = l ++ r.
Proof.
  unfold literal. split.
  - destruct (startswith s l) eqn:E; [|done]. intros [= <-].
    apply startswith_true in E as [k ->]. by rewrite drop_app_length.
  - intros ->. by rewrite startswith_app, drop_app_length.
Qed.

Lemma star_sound (cls : ascii -> bool) (taken s : text)
    (k : text -> text -> option R) (r : R) :
  star cls taken s k = Some r ->
  exists a b, s = a ++ b /\ forallb cls a = true /\ k (taken ++ a) b = Some r.
Proof.
  revert taken. induction s as [|c s IH]; intros taken H; cbn [star] in H.
  - exists [], []. by rewrite !app_nil_r.
  - destruct (cls c) eqn:Ec.
    + destruct (star cls (taken ++ [c]) s k) as [r'|] eqn:E.
      * injection H as ->. apply IH in E as (a & b & -> & Ha & Hk).
        exists (c :: a), b. cbn [forallb]. rewrite Ec, Ha.
        rewrite <- app_assoc in Hk. done.
      * exists [], (c :: s). by rewrite !app_nil_r.
    + exists [], (c :: s). by rewrite !app_nil_r.
Qed.

(** The run that no character of the class follows is tried first. *)
Lemma star_longest (cls : ascii -> bool) (taken a b : text)
    (k : text -> text -> option R) (r : R) :
  forallb cls a = true ->
  match b with c :: _ => cls c = false | [] => True end ->
  k (taken ++ a) b = Some r ->
  star cls taken (a ++ b) k = Some r.
Proof.
  revert taken. induction a as [|c a IH]; intros taken Ha Hb Hk.
  - rewrite app_nil_r in Hk. cbn [app]. destruct b as [|c b]; [done|].
    cbn [star]. by rewrite Hb.
  - cbn [forallb] in Ha. apply andb_true_iff in Ha as [Hc Ha].
    cbn [app star]. rewrite Hc. rewrite (IH (taken ++ [c])); [done..|].
    by rewrite <- app_assoc.
Qed.

(** Some run is found as soon as one lets the rest match. *)
Lemma star_complete (cls : ascii -> bool) (taken a b : text)
    (k : text -> text -> option R) :
  forallb cls a = true -> is_Some (k (taken ++ a) b) ->
  is_Some (star cls taken (a ++ b) k).
Proof.
  revert taken. induction a as [|c a IH]; intros taken Ha Hk.
  - rewrite app_nil_r in Hk. cbn [app]. destruct b as [|c b]; [done|].
    cbn [star]. destruct (cls c); [|done].
    by destruct (star cls (taken ++ [c]) b k).
  - cbn [forallb] in Ha. apply andb_true_iff in Ha as [Hc Ha].
    cbn [app star]. rewrite Hc.
    destruct (IH (taken ++ [c])) as [r Hr]; [done| |by rewrite Hr].
    by rewrite <- app_assoc.
Qed.

End StarFacts.

Section PatternFacts.

Import Py FixVirtualization2.

Lemma not_quote_all (x : text) : forallb not_quote x = true <-> dq ∉ x.
Proof.
  induction x as [|c x IH]; cbn [forallb].
  - split; [intros _; apply not_elem_of_nil | done].
  - rewrite andb_true_iff, IH, not_elem_of_cons. unfold not_quote.
    rewrite negb_true_iff, Ascii.eqb_neq. intuition congruence.
Qed.

Lemma name_line_microdroid (r rest : text) :
  name_line (txt "microdroid" ++ r) ++ rest
  = (txt "name: " ++ dq :: txt "microdroid") ++ r ++ dq :: txt "," ++ rest.
Proof. unfold name_line. cbn. by rewrite <- !app_assoc. Qed.

Lemma pattern_sound (s g rest : text) :
  pattern s = Some (g, rest) -> microdroid_name g /\ s = name_line g ++ rest.
Proof.
  unfold pattern. intros H.
  destruct (literal _ s) as [[|c s']|] eqn:E; [done| |done].
  apply literal_some in E as ->.
  destruct (not_quote c) eqn:Ec; [|done].
  apply star_sound in H as (a & b & -> & Ha & Hk).
  destruct (literal _ b) as [rest'|] eqn:E; [|done].
  apply literal_some in E as ->. injection Hk as <- <-. split.
  - exists (c :: a). split; [done|]. split; [done|].
    apply not_quote_all. cbn [forallb]. by rewrite Ec, Ha.
  - transitivity (name_line (txt "microdroid" ++ c :: a) ++ rest'); [|done].
    rewrite name_line_microdroid. by rewrite <- !app_assoc.
Qed.

Lemma pattern_complete (g rest : text) :
  microdroid_name g -> pattern (name_line g ++ rest) = Some (g, rest).
Proof.
  intros (r & -> & Hne & Hr). rewrite name_line_microdroid. unfold pattern.
  rewrite (proj2 (literal_some _ _ (r ++ dq :: txt "," ++ rest))) by done.
  destruct r as [|c a]; [done|]. apply not_quote_all in Hr.
  cbn [forallb] in Hr. apply andb_true_iff in Hr as [Hc Ha].
  cbn [app]. rewrite Hc.
  apply (star_longest not_quote [c] a); [done|by vm_compute|].
  by rewrite (proj2 (literal_some _ _ rest)).
Qed.

(** *** [re.findall] *)

Lemma findall_scan_drop (k : nat) (s : text) :
  findall_scan k s = findall (drop k s).
Proof.
  revert k. induction s as [|c s IH]; intros k; [by destruct k|].
  destruct k as [|k]; [done|]. cbn [findall_scan drop]. apply IH.
Qed.

Lemma findall_match (s g rest : text) :
  pattern s = Some (g, rest) -> findall s = g :: findall rest.
Proof.
  intros H. pose proof (pattern_sound _ _ _ H) as [_ E].
  destruct (name_line g) as [|c0 nm] eqn:En; [done|].
  cbn [app] in E. subst s. unfold findall at 1.
  cbn [findall_scan]. rewrite H. f_equal.
  rewrite findall_scan_drop. f_equal.
  cbn [length]. rewrite length_app.
  replace (_ - _ - 1) with (length nm) by lia. apply drop_app_length.
Qed.

Lemma findall_nomatch (c : ascii) (s : text) :
  pattern (c :: s) = None -> findall (c :: s) = findall s.
Proof. intros H. unfold findall at 1. cbn [findall_scan]. by rewrite H. Qed.

Lemma name_line_length (m : text) : length (name_line m) = length m + 9.
Proof.
  unfold name_line. cbn [app length list_ascii_of_string].
  rewrite length_app. cbn [length]. lia.
Qed.

Lemma findall_sound (m s : text) :
  In m (findall s) -> microdroid_name m /\ occurs (name_line m) s.
Proof.
  remember (length s) as n eqn:Hn. revert s Hn.
  induction n as [n IH] using lt_wf_ind. intros s -> H.
  destruct (pattern s) as [[g rest]|] eqn:E.
  - rewrite (findall_match _ _ _ E) in H.
    apply pattern_sound in E as [Hg ->]. destruct H as [<- | H].
    + split; [done|]. by exists [], rest.
    + apply (IH (length rest)) in H as [Hm Ho]; [|rewrite length_app, name_line_length; lia|done].
      split; [done|]. by apply occurs_app_r.
  - destruct s as [|c s]; [done|]. rewrite findall_nomatch in H by done.
    apply (IH (length s)) in H as [Hm Ho]; [|cbn [length]; lia|done].
    split; [done|]. by apply occurs_cons.
Qed.

Lemma microdroid_name_free (m : text) : microdroid_name m -> dq ∉ m.
Proof.
  intros (r & -> & _ & Hr). apply not_elem_of_app. split; [|done].
  apply not_quote_all. reflexivity.
Qed.

Lemma microdroid_name_head (m : text) :
  microdroid_name m -> exists r, m = "m"%char :: r.
Proof. intros (r & -> & _). by eexists. Qed.

(** Two name lines of the kind meet only as one and the same. *)
Lemma name_lines_apart (g m rest l r : text) :
  microdroid_name g -> microdroid_name m ->
  name_line g ++ rest = l ++ name_line m ++ r ->
  (l = [] /\ g = m) \/ exists l', rest = l' ++ name_line m ++ r.
Proof.
  intros Hg Hm E. pose proof (microdroid_name_free _ Hg) as Fg.
  pose proof (microdroid_name_free _ Hm) as Fm.
  assert (FN : dq ∉ txt "name: ") by (apply not_quote_all; reflexivity).
  unfold name_line in E. repeat (rewrite <- app_assoc in E; cbn [app] in E).
  destruct (decide (dq ∈ l)) as [Hl | Hl].
  - right. apply list_elem_of_split_l in Hl as (l1 & l2 & -> & Hl1).
    rewrite <- !app_assoc in E. cbn [app] in E.
    apply not_elem_of_app_cons_inv_l in E as (_ & _ & E); [|done..].
    destruct (decide (dq ∈ l2)) as [Hl2 | Hl2].
    + apply list_elem_of_split_l in Hl2 as (l3 & l4 & -> & Hl3).
      rewrite <- !app_assoc in E. cbn [app] in E.
      apply not_elem_of_app_cons_inv_l in E as (_ & _ & E); [|done..].
      destruct l4 as [|c l4]; [done|]. cbn in E.
      injection E as _ E. exists l4. rewrite E. unfold name_line. cbn.
      by rewrite <- !app_assoc.
    + rewrite (app_assoc l2) in E.
      apply not_elem_of_app_cons_inv_l in E as (_ & _ & E);
        [|by apply not_elem_of_app|done].
      by destruct (microdroid_name_head _ Hm) as [r' ->].
  - left. rewrite (app_assoc l) in E.
    apply not_elem_of_app_cons_inv_l in E as (E1 & _ & E);
      [|by apply not_elem_of_app|done].
    apply (f_equal length) in E1. rewrite length_app in E1.
    destruct l; [|cbn [length] in E1; lia]. split; [done|].
    by apply not_elem_of_app_cons_inv_l in E as (E & _).
Qed.

Lemma findall_complete (m s : text) :
  microdroid_name m -> occurs (name_line m) s -> In m (findall s).
Proof.
  intros Hm. remember (length s) as n eqn:Hn. revert s Hn.
  induction n as [n IH] using lt_wf_ind. intros s -> (l & r & E).
  unfold occurs_at in E. destruct (pattern s) as [[g rest]|] eqn:P.
  - rewrite (findall_match _ _ _ P).
    apply pattern_sound in P as [Hg ->].
    destruct (name_lines_apart _ _ _ _ _ Hg Hm E) as [[_ ->] | [l' ->]];
      [by left|].
    right. apply (IH (length (l' ++ name_line m ++ r))); [|done|by exists l', r].
    rewrite (length_app (name_line g)), name_line_length. lia.
  - destruct l as [|c l].
    + subst s. cbn [app] in P. by rewrite pattern_complete in P.
    + subst s. cbn [app] in *. rewrite findall_nomatch by done.
      apply (IH (length (l ++ name_line m ++ r))); [cbn [length]; lia|done|].
      by exists l, r.
Qed.


End PatternFacts.


(** ** Texts cut at a separator, again *)

Section CutFacts.

Variable sep : ascii.

Lemma join_head_app (u b : text) (post : list text) :
  join sep ((u ++ b) :: post) = u ++ join sep (b :: post).
Proof. destruct post; [done|]. rewrite !join_cons2. by rewrite <- app_assoc. Qed.

(** A join cut in two: the cut falls inside one piece. *)
Lemma join_cut (ps : list text) (L R : text) :
  ps <> [] -> join sep ps = L ++ R ->
  exists pre a b post,
    ps = pre ++ (a ++ b) :: post
    /\ L = join sep (pre ++ [a]) /\ R = join sep (b :: post).
Proof.
  revert L. induction ps as [|x ps IH]; intros L Hne E; [done|].
  destruct ps as [|y ps].
  - cbn [join] in E. exists [], L, R, []. by rewrite E.
  - rewrite join_cons2 in E.
    apply app_eq_inv in E as [(k & -> & ->) | (k & -> & E)].
    + exists [], L, k, (y :: ps). by rewrite join_cons2.
    + destruct k as [|c k].
      * cbn [app] in E. exists [], x, [], (y :: ps).
        rewrite !app_nil_r. by rewrite <- E.
      * cbn [app] in E. injection E as <- E.
        destruct (IH k) as (pre & a & b & post & Eps & -> & ->); [done..|].
        exists (x :: pre), a, b, post. rewrite Eps. split; [done|].
        split; [|done]. cbn [app]. rewrite join_cons; [done|]. by destruct pre.
Qed.

Lemma join_middle (pre : list text) (a b : text) (post : list text) :
  join sep (pre ++ (a ++ b) :: post)
  = join sep (pre ++ [a]) ++ join sep (b :: post).
Proof.
  induction pre as [|p pre IH]; cbn [app].
  - apply join_head_app.
  - rewrite !(join_cons sep p) by (by destruct pre).
    rewrite IH. by rewrite <- app_assoc.
Qed.

Lemma join_inj_sep (xs ys : list text) :
  Forall (fun l => sep ∉ l) xs -> Forall (fun l => sep ∉ l) ys ->
  xs <> [] -> ys <> [] -> join sep xs = join sep ys -> xs = ys.
Proof.
  revert ys. induction xs as [|x xs IH]; intros ys Hx Hy Hnx Hny E; [done|].
  destruct ys as [|y ys]; [done|].
  inversion Hx as [|? ? Hx0 Hxs]; inversion Hy as [|? ? Hy0 Hys]; subst.
  destruct xs as [|x' xs], ys as [|y' ys].
  - cbn in E. by rewrite E.
  - rewrite join_cons2 in E. cbn [join] in E. destruct Hx0. rewrite E.
    apply elem_of_app. right. by left.
  - rewrite join_cons2 in E. cbn [join] in E. destruct Hy0. rewrite <- E.
    apply elem_of_app. right. by left.
  - rewrite !join_cons2 in E.
    apply not_elem_of_app_cons_inv_l in E as (-> & _ & E); [|done..].
    f_equal. by apply IH.
Qed.

(** A text free of the separator at the head of a join lies in the first
    piece. *)
Lemma join_head_free (u r b : text) (post : list text) :
  sep ∉ u -> join sep (b :: post) = u ++ r ->
  exists r', b = u ++ r'.
Proof.
  intros Hu E. destruct post as [|y post]; [cbn [join] in E; by exists r|].
  rewrite join_cons2 in E.
  apply app_eq_inv in E as [(k & -> & _) | (k & -> & E)]; [by exists k|].
  destruct k as [|c k]; [exists []; by rewrite !app_nil_r|].
  cbn [app] in E. injection E as <- _. destruct Hu.
  apply elem_of_app. right. by left.
Qed.

End CutFacts.

Section NamePieces.

Import Py FixVirtualization2.

Local Abbreviation N := (txt "name: ") (only parsing).

Lemma name_free : dq ∉ N.
Proof. apply not_quote_all. reflexivity. Qed.

(** An occurrence of a name line, on the pieces. *)
Lemma occurs_at_pieces (m l r : text) (ps : list text) :
  Forall (fun p => dq ∉ p) ps -> ps <> [] -> dq ∉ m ->
  join dq ps = l ++ name_line m ++ r ->
  exists pre a b post,
    ps = pre ++ (a ++ N) :: m :: (","%char :: b) :: post
    /\ l = join dq (pre ++ [a]) /\ r = join dq (b :: post).
Proof.
  intros Hf Hne Hm E.
  apply join_cut in E as (pre & a & b & post & -> & -> & E); [|done].
  symmetry in E.
  apply join_cut in E as (pre2 & a2 & b2 & post2 & E2 & E3 & ->); [|done].
  apply Forall_app in Hf as [_ Hf].
  apply Forall_cons in Hf as [Hab Hpost].
  apply not_elem_of_app in Hab as [_ Hb].
  assert (Hf2 : Forall (fun p => dq ∉ p) (b :: post)) by (by constructor).
  rewrite E2 in Hf2. apply Forall_app in Hf2 as [Hpre2 Hf2].
  apply Forall_cons in Hf2 as [Hab2 Hpost2].
  apply not_elem_of_app in Hab2 as [Ha2 _].
  change (name_line m) with (join dq [N; m; txt ","]) in E3.
  apply join_inj_sep in E3.
  - destruct pre2 as [|p1 [|p2 [|p3 pre2]]]; try done.
    + injection E3 as <- <- <-. injection E2 as -> ->.
      by exists pre, a, b2, post2.
    + injection E3 as _ _ _ E3. by destruct pre2.
  - repeat constructor; [apply name_free | done | ].
    apply not_quote_all. reflexivity.
  - apply Forall_app. split; [done|]. by constructor.
  - done.
  - by destruct pre2.
Qed.

Lemma join_pieces (m a b J : text) (pre post : list text) :
  join dq (pre ++ (a ++ N) :: m :: (","%char :: J ++ b) :: post)
  = join dq (pre ++ [a]) ++ name_line m ++ J ++ join dq (b :: post).
Proof.
  rewrite join_middle. f_equal. rewrite !join_cons2.
  change (","%char :: J ++ b) with ((","%char :: J) ++ b).
  rewrite join_head_app. unfold name_line.
  repeat (rewrite <- app_assoc; cbn [app]). done.
Qed.

(** *** The pieces by their index *)

Lemma named_at_middle (m a b : text) (pre post : list text) :
  named_at m (pre ++ (a ++ N) :: m :: (","%char :: b) :: post) (length pre) b.
Proof.
  split; [|split].
  - exists (a ++ N). split; [by apply list_lookup_middle | by apply suffix_app_r].
  - rewrite lookup_app_r by lia.
    by replace (S (length pre) - length pre) with 1 by lia.
  - rewrite lookup_app_r by lia.
    by replace (S (S (length pre)) - length pre) with 2 by lia.
Qed.

Lemma named_at_split (m b : text) (ps : list text) (i : nat) :
  named_at m ps i b ->
  exists pre a post,
    ps = pre ++ (a ++ N) :: m :: (","%char :: b) :: post /\ i = length pre.
Proof.
  intros ((x & Hx & [a ->]) & Hm & Hy).
  apply list_elem_of_split_length in Hx as (pre & rest & -> & ->).
  rewrite lookup_app_r in Hm, Hy by lia.
  replace (S (length pre) - length pre) with 1 in Hm by lia.
  replace (S (S (length pre)) - length pre) with 2 in Hy by lia.
  destruct rest as [|m' [|y' post]]; try done.
  cbn in Hm, Hy. injection Hm as ->. injection Hy as ->.
  by exists pre, a, post.
Qed.

Lemma insert_named (m b y' : text) (pre post : list text) (a : text) :
  <[S (S (length pre)) := y']>
    (pre ++ (a ++ N) :: m :: (","%char :: b) :: post)
  = pre ++ (a ++ N) :: m :: y' :: post.
Proof.
  rewrite insert_app_r_alt by lia.
  by replace (S (S (length pre)) - length pre) with 2 by lia.
Qed.

Lemma occurs_pieces (m : text) (ps : list text) :
  Forall (fun p => dq ∉ p) ps -> ps <> [] -> dq ∉ m ->
  occurs (name_line m) (join dq ps) <-> exists i b, named_at m ps i b.
Proof.
  intros Hf Hne Hm. split.
  - intros (l & r & E). unfold occurs_at in E.
    apply occurs_at_pieces in E as (pre & a & b & post & -> & _); [|done..].
    exists (length pre), b. apply named_at_middle.
  - intros (i & b & H).
    apply named_at_split in H as (pre & a & post & -> & _).
    exists (join dq (pre ++ [a])), (join dq (b :: post)).
    unfold occurs_at. by rewrite (join_pieces m a b []).
Qed.

End NamePieces.


(** ** The check of fix_virtualization2.py *)

Section CheckFacts.

Import Py FixVirtualization2.

Local Abbreviation N := (txt "name: ") (only parsing).
Local Abbreviation ins := (nl :: FixVirtualization.inserted) (only parsing).

Lemma check_pattern_spec (m s : text) :
  check_pattern m s = true
  <-> exists t, s = name_line m ++ t /\ enabled_after t.
Proof.
  unfold check_pattern. split.
  - destruct (literal (name_line m) s) as [s'|] eqn:E; [|done].
    apply literal_some in E as ->.
    destruct (star isspace [] s' _) as [u|] eqn:S; [|done]. intros _.
    apply star_sound in S as (W1 & b & -> & H1 & Hk).
    destruct b as [|c b]; [done|].
    destruct (Ascii.eqb c nl) eqn:Ec; [|done].
    apply Ascii.eqb_eq in Ec as ->. unfold spaces_enabled in Hk.
    apply star_sound in Hk as (W2 & b2 & -> & H2 & Hk).
    destruct (startswith b2 (txt "enabled: false")) eqn:Es; [|done].
    apply startswith_true in Es as [r ->].
    exists (W1 ++ nl :: W2 ++ txt "enabled: false" ++ r).
    split; [done|]. by exists W1, W2, r.
  - intros (t & -> & W1 & W2 & r & -> & H1 & H2).
    rewrite (proj2 (literal_some (name_line m) _ _) eq_refl).
    match goal with
    | |- match star isspace [] _ ?k with _ => _ end = true =>
        destruct (star_complete isspace [] W1
                    (nl :: W2 ++ txt "enabled: false" ++ r) k H1) as [u ->];
          [|done]
    end.
    cbn [app]. rewrite Ascii.eqb_refl. unfold spaces_enabled.
    apply star_complete; [done|]. cbn [app]. by rewrite startswith_app.
Qed.

Lemma search_spec (m s : text) :
  search m s = true
  <-> exists l t, s = l ++ name_line m ++ t /\ enabled_after t.
Proof.
  induction s as [|c s IH]; cbn [search];
    rewrite orb_true_iff, check_pattern_spec.
  - split.
    + intros [(t & E & H) | ?]; [|done]. by exists [], t.
    + intros (l & t & E & H). left. destruct l; [by exists t|done].
  - rewrite IH. split.
    + intros [(t & E & H) | (l & t & -> & H)];
        [by exists [], t | by exists (c :: l), t].
    + intros (l & t & E & H). destruct l as [|c' l]; [left; by exists t|].
      right. cbn [app] in E. injection E as -> ->. by exists l, t.
Qed.

Lemma isspace_free (W : text) : forallb isspace W = true -> dq ∉ W.
Proof.
  induction W as [|c W IH]; cbn [forallb]; [intros _; apply not_elem_of_nil|].
  intros [Hc HW]%andb_true_iff. apply not_elem_of_cons.
  split; [by intros <- | by apply IH].
Qed.

(** The check stays within the piece that follows the name. *)
Lemma enabled_after_piece (b : text) (post : list text) :
  enabled_after (join dq (b :: post)) <-> enabled_after b.
Proof.
  split.
  - intros (W1 & W2 & r & E & H1 & H2).
    replace (W1 ++ nl :: W2 ++ txt "enabled: false" ++ r)
      with ((W1 ++ nl :: W2 ++ txt "enabled: false") ++ r) in E
      by (by rewrite <- !app_assoc; cbn [app]; rewrite <- !app_assoc).
    apply join_head_free in E as [r' ->].
    + exists W1, W2, r'. split; [|done].
      rewrite <- !app_assoc. cbn [app]. by rewrite <- !app_assoc.
    + apply not_elem_of_app. split; [by apply isspace_free|].
      apply not_elem_of_cons. split; [done|].
      apply not_elem_of_app. split; [by apply isspace_free|].
      apply not_quote_all. reflexivity.
  - intros (W1 & W2 & r & -> & H1 & H2).
    exists W1, W2, (join dq (r :: post)). split; [|done].
    rewrite <- (join_head_app dq (txt "enabled: false")).
    rewrite <- (join_head_app dq W2).
    change (nl :: join dq ((W2 ++ txt "enabled: false" ++ r) :: post))
      with ([nl] ++ join dq ((W2 ++ txt "enabled: false" ++ r) :: post)).
    rewrite <- (join_head_app dq [nl]).
    by rewrite <- (join_head_app dq W1).
Qed.

Lemma search_pieces (m : text) (ps : list text) :
  Forall (fun p => dq ∉ p) ps -> ps <> [] -> dq ∉ m ->
  search m (join dq ps) = true
  <-> exists i b, named_at m ps i b /\ enabled_after b.
Proof.
  intros Hf Hne Hm. rewrite search_spec. split.
  - intros (l & t & E & Ht).
    apply occurs_at_pieces in E as (pre & a & b & post & -> & _ & ->);
      [|done..].
    exists (length pre), b. split; [apply named_at_middle|].
    by apply enabled_after_piece in Ht.
  - intros (i & b & H & Hb).
    apply named_at_split in H as (pre & a & post & -> & _).
    exists (join dq (pre ++ [a])), (join dq (b :: post)).
    split; [by rewrite (join_pieces m a b [])|]. by apply enabled_after_piece.
Qed.

(** *** One rule *)

Lemma step2_eq (m c : text) :
  step2 m c
  = if negb (search m c) && str_in (old m) c
    then replace1 (old m) (new m) c else c.
Proof.
  unfold step2, disable. cbn [fst snd].
  destruct (search m c); cbn [negb andb]; [done|].
  by destruct (str_in (old m) c).
Qed.

Lemma step2_cases (m c : text) :
  (search m c = true /\ step2 m c = c)
  \/ (~ occurs (name_line m) c /\ step2 m c = c)
  \/ (search m c = false
      /\ exists l r, c = l ++ name_line m ++ r
                     /\ step2 m c = l ++ name_line m ++ ins ++ r).
Proof.
  rewrite step2_eq. destruct (search m c); [by left|]. right.
  destruct (str_in (old m) c) eqn:E; cbn [negb andb].
  - right. split; [done|].
    apply str_in_occurs, occurs_leftmost in E as (l & r & -> & Hl).
    exists l, r. split; [done|]. rewrite replace1_leftmost by done.
    unfold new. by rewrite <- app_assoc.
  - left. by apply str_in_absent in E.
Qed.

Lemma step2_pieces (m : text) (ps : list text) :
  Forall (fun p => dq ∉ p) ps -> ps <> [] -> dq ∉ m ->
  step2 m (join dq ps) = join dq ps
  \/ (search m (join dq ps) = false
      /\ exists i b,
           named_at m ps i b
           /\ step2 m (join dq ps)
              = join dq (<[S (S i) := ","%char :: ins ++ b]> ps)).
Proof.
  intros Hf Hne Hm.
  destruct (step2_cases m (join dq ps))
    as [[_ E] | [[_ E] | (Hs & l & r & E & ->)]]; [by left..|].
  right. split; [done|].
  apply occurs_at_pieces in E as (pre & a & b & post & -> & -> & ->);
    [|done..].
  exists (length pre), b. split; [apply named_at_middle|].
  rewrite insert_named. by rewrite join_pieces.
Qed.

(** *** What the insertion leaves as it was *)

Lemma suffix_name_insert (J b : text) :
  N `suffix_of` ","%char :: b -> N `suffix_of` ","%char :: J ++ b.
Proof.
  intros H. apply suffix_cons_inv in H as [H | H]; [done|].
  by apply suffix_cons_r, suffix_app_r.
Qed.

Lemma suffix_after (s p t : text) (c : ascii) :
  c ∉ s -> s `suffix_of` p ++ c :: t -> s `suffix_of` t.
Proof.
  intros Hc [k E].
  apply app_eq_inv in E as [(k' & -> & ->) | (k' & -> & E)].
  - destruct Hc. apply elem_of_app. right. by left.
  - destruct k' as [|c' k']; cbn [app] in E.
    + destruct Hc. rewrite <- E. by left.
    + injection E as _ ->. by exists k'.
Qed.

Lemma suffix_name_inserted (b : text) :
  N `suffix_of` ","%char :: ins ++ b -> N `suffix_of` ","%char :: b.
Proof.
  intros H. apply suffix_cons_r.
  apply (suffix_after _ (","%char :: nl :: txt "    enabled: false") _ ","%char);
    [by apply free_of_spec|exact H].
Qed.

End CheckFacts.


(** ** The rules of fix_virtualization2.py, one after the other *)

Section FixVirtualization2Rules.

Import Py FixVirtualization2.

Local Abbreviation N := (txt "name: ") (only parsing).
Local Abbreviation ins := (nl :: FixVirtualization.inserted) (only parsing).

Lemma microdroid_name_comma (b : text) : ~ microdroid_name (","%char :: b).
Proof. by intros [r [=]]%microdroid_name_head. Qed.

Section Insert.

Variables (m m' b' : text) (ps : list text) (j : nat).

Hypothesis Hm : microdroid_name m.
Hypothesis Hj : named_at m' ps j b'.

Local Abbreviation ps' := (<[S (S j) := ","%char :: ins ++ b']> ps)
  (only parsing).

(** A name line that is there stays there. *)
Lemma named_insert (i : nat) (b : text) :
  named_at m ps i b ->
  named_at m ps' i (if decide (i = j) then ins ++ b' else b).
Proof.
  destruct Hj as ((x' & Hx' & Sx') & Hm' & Hy').
  intros ((x & Hx & Sx) & Hmi & Hy).
  pose proof (lookup_lt_Some _ _ _ Hy') as Hlt.
  split; [|split].
  - destruct (decide (i = S (S j))) as [-> | Hd].
    + rewrite Hy' in Hx. injection Hx as <-.
      exists (","%char :: ins ++ b').
      split; [by apply list_lookup_insert_eq | by apply suffix_name_insert].
    + exists x. by rewrite list_lookup_insert_ne.
  - destruct (decide (i = S j)) as [-> | Hd].
    + rewrite Hy' in Hmi. injection Hmi as <-.
      by apply microdroid_name_comma in Hm.
    + rewrite list_lookup_insert_ne by lia. done.
  - destruct (decide (i = j)) as [-> | Hd].
    + by apply list_lookup_insert_eq.
    + rewrite list_lookup_insert_ne by lia. done.
Qed.

(** No name line comes with the insertion. *)
Lemma named_insert_inv (i : nat) (b : text) :
  named_at m ps' i b -> named_at m ps i (if decide (i = j) then b' else b).
Proof.
  destruct Hj as ((x' & Hx' & Sx') & Hm' & Hy').
  intros ((x & Hx & Sx) & Hmi & Hy).
  pose proof (lookup_lt_Some _ _ _ Hy') as Hlt.
  assert (Hmi' : ps !! S i = Some m).
  { destruct (decide (i = S j)) as [-> | Hd].
    - rewrite list_lookup_insert_eq in Hmi by done. injection Hmi as <-.
      by apply microdroid_name_comma in Hm.
    - rewrite list_lookup_insert_ne in Hmi by lia. done. }
  assert (Hx0 : exists x0, ps !! i = Some x0 /\ N `suffix_of` x0).
  { destruct (decide (i = S (S j))) as [-> | Hd].
    - rewrite list_lookup_insert_eq in Hx by done. injection Hx as <-.
      exists (","%char :: b'). split; [done|]. by apply suffix_name_inserted.
    - rewrite list_lookup_insert_ne in Hx by done. by exists x. }
  destruct (decide (i = j)) as [-> | Hd]; [done|].
  rewrite list_lookup_insert_ne in Hy by lia. done.
Qed.

End Insert.

(** A piece of the content after an insertion. *)
Lemma insert_free (m' b' : text) (ps : list text) (j : nat) :
  Forall (fun p => dq ∉ p) ps -> named_at m' ps j b' ->
  Forall (fun p => dq ∉ p) (<[S (S j) := ","%char :: ins ++ b']> ps).
Proof.
  intros Hf (_ & _ & Hy). apply Forall_insert; [done|].
  apply (Forall_lookup_1 _ _ _ _ Hf) in Hy.
  apply not_elem_of_cons in Hy as [_ Hb].
  apply not_elem_of_cons. split; [done|].
  apply not_elem_of_app. split; [|done].
  apply not_quote_all. reflexivity.
Qed.

Lemma insert_nonempty (y : text) (ps : list text) (j : nat) :
  ps <> [] -> <[j := y]> ps <> [].
Proof.
  intros Hne E. apply (f_equal length) in E. rewrite length_insert in E.
  by destruct ps.
Qed.

(** A module that passes the check passes it after any other rule. *)
Lemma step2_keeps (m m' c : text) :
  microdroid_name m -> dq ∉ m' ->
  search m c = true -> search m (step2 m' c) = true.
Proof.
  intros Hm Hm' Hs.
  destruct (text_cut dq c) as (ps & -> & Hne & Hf).
  destruct (step2_pieces m' ps) as [-> | (Hs' & j & b' & Hj & ->)];
    [done..|].
  pose proof (microdroid_name_free _ Hm) as Fm.
  apply search_pieces in Hs as (i & b & Hi & Hb); [|done..].
  apply search_pieces; [by apply (insert_free m')|by apply insert_nonempty|done|].
  assert (Hne' : i <> j).
  { intros ->. pose proof Hi as (_ & Hi2 & _). pose proof Hj as (_ & Hj2 & _).
    rewrite Hi2 in Hj2. injection Hj2 as <-.
    assert (search m (join dq ps) = true); [|congruence].
    apply search_pieces; [done..|]. by exists j, b. }
  exists i, b. split; [|done].
  pose proof (named_insert m m' b' ps j Hm Hj i b Hi) as H.
  by rewrite decide_False in H.
Qed.

(** A name line that occurs still occurs after any rule, *)
Lemma step2_occurs (m m' c : text) :
  microdroid_name m -> dq ∉ m' ->
  occurs (name_line m) c -> occurs (name_line m) (step2 m' c).
Proof.
  intros Hm Hm' Ho.
  destruct (text_cut dq c) as (ps & -> & Hne & Hf).
  destruct (step2_pieces m' ps) as [-> | (Hs' & j & b' & Hj & ->)];
    [done..|].
  pose proof (microdroid_name_free _ Hm) as Fm.
  apply occurs_pieces in Ho as (i & b & Hi); [|done..].
  apply occurs_pieces; [by apply (insert_free m')|by apply insert_nonempty|done|].
  eexists i, _. by apply (named_insert m m' b' ps j).
Qed.

(** and one that occurs after a rule occurred before it. *)
Lemma step2_occurs_inv (m m' c : text) :
  microdroid_name m -> dq ∉ m' ->
  occurs (name_line m) (step2 m' c) -> occurs (name_line m) c.
Proof.
  intros Hm Hm' Ho.
  destruct (text_cut dq c) as (ps & -> & Hne & Hf).
  destruct (step2_pieces m' ps) as [E | (Hs' & j & b' & Hj & E)];
    [done..| |]; rewrite E in Ho; [done|].
  pose proof (microdroid_name_free _ Hm) as Fm.
  apply occurs_pieces in Ho as (i & b & Hi);
    [|by apply (insert_free m')|by apply insert_nonempty|done].
  apply occurs_pieces; [done..|].
  eexists i, _. by apply (named_insert_inv m m' b' ps j).
Qed.

(** A rule leaves its module passing the check. *)
Lemma step2_disables (m c : text) :
  occurs (name_line m) c -> search m (step2 m c) = true.
Proof.
  intros Ho.
  destruct (step2_cases m c) as [[Hs ->] | [[Hn _] | (_ & l & r & -> & ->)]];
    [done..|].
  apply search_spec. exists l, (ins ++ r). split; [done|].
  exists [], (txt "    "), (","%char :: r). by repeat split.
Qed.

(** *** The whole list *)

Lemma disable2_content (m : text) (st : state * nat) :
  (disable m st).1.1 = step2 m st.1.1.
Proof.
  unfold step2, disable. cbn [fst snd].
  destruct (search m st.1.1); cbn [negb]; [done|].
  by destruct (str_in (old m) st.1.1).
Qed.

Lemma run_rules2_content (ms : list text) (st : state * nat) :
  (run_rules ms st).1.1 = run_all step2 ms st.1.1.
Proof.
  revert st. induction ms as [|m ms IH]; intros st; [done|].
  unfold run_rules in *. cbn [fold_left run_all]. rewrite IH.
  by rewrite disable2_content.
Qed.

Lemma run_all2_keeps (ms : list text) (m c : text) :
  microdroid_name m -> Forall microdroid_name ms ->
  search m c = true -> search m (run_all step2 ms c) = true.
Proof.
  intros Hm Hms. revert c. induction Hms as [|m' ms Hm' Hms IH]; intros c Hs;
    [done|].
  rewrite run_all_cons. apply IH.
  by apply step2_keeps; [|apply microdroid_name_free|].
Qed.

Lemma run_all2_disabled (ms : list text) (c : text) :
  Forall microdroid_name ms ->
  (forall m, In m ms -> occurs (name_line m) c) ->
  forall m, In m ms -> search m (run_all step2 ms c) = true.
Proof.
  intros Hms. revert c. induction Hms as [|m' ms Hm' Hms IH]; intros c Ho m Hin;
    [done|].
  rewrite run_all_cons. destruct Hin as [<- | Hin].
  - apply run_all2_keeps; [done..|]. apply step2_disables, Ho. by left.
  - apply IH; [|done]. intros m0 H0.
    apply step2_occurs; [|by apply microdroid_name_free|apply Ho; by right].
    by apply (proj1 (List.Forall_forall _ _) Hms).
Qed.

Lemma run_all2_occurs_inv (ms : list text) (m c : text) :
  microdroid_name m -> Forall microdroid_name ms ->
  occurs (name_line m) (run_all step2 ms c) -> occurs (name_line m) c.
Proof.
  intros Hm Hms. revert c. induction Hms as [|m' ms Hm' Hms IH]; intros c Ho;
    [done|].
  rewrite run_all_cons in Ho. apply IH in Ho.
  by apply step2_occurs_inv in Ho; [|done|apply microdroid_name_free].
Qed.

Lemma findall_names (s : text) : Forall microdroid_name (findall s).
Proof.
  apply List.Forall_forall. intros m Hm. by apply findall_sound in Hm as [? _].
Qed.

Lemma patch2_content (content : text) :
  (patch content).1.1 = run_all step2 (findall content) content.
Proof. unfold patch. by rewrite run_rules2_content. Qed.

Lemma patch2_disabled (m content : text) :
  In m (findall content) -> search m (patch content).1.1 = true.
Proof.
  intros Hm. rewrite patch2_content.
  apply run_all2_disabled; [apply findall_names| |done].
  intros m0 H0. by apply findall_sound in H0 as [_ ?].
Qed.

Lemma disable2_skip (m : text) (st : state * nat) :
  search m st.1.1 = true -> disable m st = st.
Proof. intros H. unfold disable. by rewrite H. Qed.

Lemma run_rules2_fixed (ms : list text) (st : state * nat) :
  (forall m, In m ms -> search m st.1.1 = true) -> run_rules ms st = st.
Proof.
  intros H. induction ms as [|m ms IH]; [done|].
  unfold run_rules in *. cbn [fold_left].
  rewrite disable2_skip by (apply H; by left).
  apply IH. intros m0 H0. apply H. by right.
Qed.

Lemma patch2_twice (content : text) :
  patch (patch content).1.1
  = ((patch content).1.1,
     [found_line (length (findall (patch content).1.1))], 0).
Proof.
  unfold patch at 1. apply run_rules2_fixed. intros m Hm. cbn [fst print].
  apply patch2_disabled. apply findall_sound in Hm as [Hn Ho].
  apply findall_complete; [done|]. rewrite patch2_content in Ho.
  by apply run_all2_occurs_inv in Ho; [|done|apply findall_names].
Qed.

End FixVirtualization2Rules.


(** ** What fix_virtualization2.py prints *)

Section FixVirtualization2Log.

Import Py FixVirtualization2.

Local Abbreviation ins := (nl :: FixVirtualization.inserted) (only parsing).
Local Abbreviation Disabled := (app (txt "Disabled: ")) (only parsing).

(** A module that passes the check after the rule of another module passed
    it before. *)
Lemma step2_keeps_inv (m m' c : text) :
  microdroid_name m -> dq ∉ m' -> m <> m' ->
  search m (step2 m' c) = true -> search m c = true.
Proof.
  intros Hm Hm' Hne Hs.
  destruct (text_cut dq c) as (ps & -> & Hnil & Hf).
  destruct (step2_pieces m' ps) as [E | (Hs' & j & b' & Hj & E)];
    [done..| |]; rewrite E in Hs; [done|].
  pose proof (microdroid_name_free _ Hm) as Fm.
  apply search_pieces in Hs as (i & b & Hi & Hb);
    [|by apply (insert_free m')|by apply insert_nonempty|done].
  apply search_pieces; [done..|].
  apply (named_insert_inv m m' b' ps j Hm Hj) in Hi.
  destruct (decide (i = j)) as [-> | Hd]; [|by exists i, b].
  destruct Hi as (_ & Hi & _), Hj as (_ & Hj & _).
  rewrite Hi in Hj. by injection Hj.
Qed.

Lemma disable2_cases (m : text) (st : state * nat) :
  (search m st.1.1 = true /\ disable m st = st)
  \/ (~ occurs (name_line m) st.1.1 /\ disable m st = st)
  \/ (search m st.1.1 = false
      /\ (disable m st).1.2 = st.1.2 ++ [Disabled m]
      /\ (disable m st).2 = S st.2
      /\ exists l r, st.1.1 = l ++ name_line m ++ r
                     /\ (disable m st).1.1 = l ++ name_line m ++ ins ++ r).
Proof.
  rewrite disable2_content. unfold disable.
  destruct (step2_cases m st.1.1) as [[Hs E] | [[Hn E] | (Hs & l & r & Ec & E)]].
  - left. by rewrite Hs.
  - right. left. split; [done|].
    apply str_in_absent in Hn. unfold old. rewrite Hn. by destruct (negb _).
  - right. right. rewrite Hs. cbn [negb].
    assert (Ho : str_in (old m) st.1.1 = true).
    { apply str_in_occurs. by exists l, r. }
    rewrite Ho. cbn [fst snd print set_content].
    split; [done|]. split; [done|]. split; [done|]. by exists l, r.
Qed.

Lemma inserted_length (l r x : text) :
  length (l ++ x ++ ins ++ r) = length (l ++ x ++ r) + 20.
Proof.
  rewrite !length_app.
  change (length ins) with 20. lia.
Qed.

Lemma inserted_newline (l r x : text) :
  count_char nl (l ++ x ++ ins ++ r) = count_char nl (l ++ x ++ r) + 1.
Proof.
  rewrite !count_char_app.
  change (count_char nl ins) with 1. lia.
Qed.

Lemma run_rules2_cons (m : text) (ms : list text) (st : state * nat) :
  run_rules (m :: ms) st = run_rules ms (disable m st).
Proof. reflexivity. Qed.

Lemma run_rules2_log (ms : list text) (st : state * nat) :
  Forall microdroid_name ms ->
  (forall m, In m ms -> occurs (name_line m) st.1.1) ->
  exists ds,
    ds `sublist_of` ms /\ NoDup ds
    /\ (forall d, In d ds <-> In d ms /\ search d st.1.1 = false)
    /\ (run_rules ms st).1.2 = st.1.2 ++ map Disabled ds
    /\ (run_rules ms st).2 = st.2 + length ds
    /\ length (run_rules ms st).1.1 = length st.1.1 + 20 * length ds
    /\ count_char nl (run_rules ms st).1.1
       = count_char nl st.1.1 + length ds.
Proof.
  intros Hms. revert st.
  induction Hms as [|m ms Hm Hms IH]; intros st Ho.
  - exists []. split; [constructor|]. split; [constructor|].
    split; [by intros d; split; [|intros []]|].
    cbn. rewrite app_nil_r. repeat split; lia.
  - rewrite run_rules2_cons.
    pose proof (microdroid_name_free _ Hm) as Fm.
    destruct (disable2_cases m st)
      as [[Hs E] | [[Hn E] | (Hs & Eo & Ek & l & r & Ec & E)]].
    + rewrite E. destruct (IH st) as (ds & Hsub & Hnd & Hin & Hrest).
      { intros m0 H0. apply Ho. by right. }
      exists ds. split; [by apply sublist_cons|]. split; [done|].
      split; [|done]. intros d. rewrite Hin. split.
      * intros [H1 H2]. split; [by right | done].
      * intros [[<- | H1] H2]; [congruence | done].
    + destruct Hn. apply Ho. by left.
    + assert (Ec' : (disable m st).1.1 = step2 m st.1.1)
        by apply disable2_content.
      destruct (IH (disable m st)) as (ds & Hsub & Hnd & Hin & Hp & Hk & Hl & Hc).
      { intros m0 H0. rewrite Ec'.
        apply step2_occurs; [|done|apply Ho; by right].
        by apply (proj1 (List.Forall_forall _ _) Hms). }
      exists (m :: ds). split; [by apply sublist_skip|].
      split; [|split; [|repeat split]].
      * apply NoDup_cons. split; [|done]. intros Hd.
        apply list_elem_of_In, Hin in Hd as [_ Hd]. rewrite Ec' in Hd.
        rewrite step2_disables in Hd; [done|]. apply Ho. by left.
      * intros d. split.
        -- intros [<- | Hd]; [split; [by left | done]|].
           apply Hin in Hd as [H1 H2]. split; [by right|].
           destruct (search d st.1.1) eqn:Hsd; [|done].
           rewrite Ec' in H2. rewrite step2_keeps in H2; [done| |done|done].
           by apply (proj1 (List.Forall_forall _ _) Hms).
        -- intros [H1 H2]. destruct (decide (d = m)) as [-> | Hd]; [by left|].
           right. apply Hin. destruct H1 as [<- | H1]; [done|].
           split; [done|]. rewrite Ec'.
           destruct (search d (step2 m st.1.1)) eqn:Hsd; [|done].
           apply step2_keeps_inv in Hsd; [congruence| |done|done].
           by apply (proj1 (List.Forall_forall _ _) Hms).
      * rewrite Hp, Eo. by rewrite <- app_assoc.
      * rewrite Hk, Ek. cbn [length]. lia.
      * rewrite Hl, E, Ec, inserted_length. cbn [length]. lia.
      * rewrite Hc, E, Ec, inserted_newline. cbn [length]. lia.
Qed.

End FixVirtualization2Log.

(** X11. What fix_virtualization2.py finds: a name is in the list of
    [re.findall] exactly when it is [microdroid] followed by at least one
    character, holds no double quote, and its name line
    [name: "<name>",] occurs in the content. *)
Theorem fix_virtualization2_findall (module content : text) :
  In module (FixVirtualization2.findall content)
  <-> microdroid_name module /\ occurs (name_line module) content.
Proof.
  split.
  - apply findall_sound.
  - intros [Hn Ho]. by apply findall_complete.
Qed.

(** X12. The check of fix_virtualization2.py holds exactly when the name
    line of the module occurs somewhere followed by white space that
    holds a newline and then by [enabled: false]. *)
Theorem fix_virtualization2_check (module content : text) :
  FixVirtualization2.search module content = true
  <-> exists l W1 W2 r,
        content = l ++ name_line module ++ W1 ++ nl :: W2
                    ++ txt "enabled: false" ++ r
        /\ forallb Py.isspace W1 = true /\ forallb Py.isspace W2 = true.
Proof.
  rewrite search_spec. split.
  - intros (l & t & -> & W1 & W2 & r & -> & H1 & H2). by exists l, W1, W2, r.
  - intros (l & W1 & W2 & r & -> & H1 & H2).
    exists l, (W1 ++ nl :: W2 ++ txt "enabled: false" ++ r).
    split; [done|]. by exists W1, W2, r.
Qed.

(** X13. After fix_virtualization2.py has run, every module it found
    passes its check: somewhere in the content written the name line of
    the module is followed by white space with a newline and
    [enabled: false]. *)
Theorem fix_virtualization2_disables_all (module content : text) :
  In module (FixVirtualization2.findall content) ->
  FixVirtualization2.search module (FixVirtualization2.main content).1 = true.
Proof.
  intros Hm.
  change ((FixVirtualization2.main content).1)
    with ((FixVirtualization2.patch content).1.1).
  rewrite patch2_content.
  apply run_all2_disabled; [apply findall_names| |done].
  intros m0 H0. by apply findall_sound in H0 as [_ ?].
Qed.

Lemma fix_virtualization2_disables_all_witness :
  let content :=
    txt "    name: " ++ dq :: txt "microdroid_kernel" ++ dq :: txt "," ++ nl ::
    txt "    srcs: []," in
  FixVirtualization2.search (txt "microdroid_kernel")
    (FixVirtualization2.main content).1 = true.
Proof.
  intros content.
  apply (fix_virtualization2_disables_all (txt "microdroid_kernel") content).
  vm_compute. by left.
Defined.

(** X14. A second run of fix_virtualization2.py changes nothing: on the
    content the first run wrote it leaves the content as it is, prints no
    [Disabled:] line and ends with [Total disabled: 0]. *)
Theorem fix_virtualization2_second_run (content : text) :
  FixVirtualization2.main (FixVirtualization2.main content).1
  = ((FixVirtualization2.main content).1,
     [ FixVirtualization2.found_line
         (length (FixVirtualization2.findall
                    (FixVirtualization2.main content).1));
       FixVirtualization2.total_line 0 ]).
Proof.
  unfold FixVirtualization2.main at 1.
  change ((FixVirtualization2.main content).1)
    with ((FixVirtualization2.patch content).1.1).
  by rewrite patch2_twice.
Qed.

(** X15. What fix_virtualization2.py prints and writes: the [Found] line
    with the number of names found, then one [Disabled:] line for each
    name found that did not pass the check on the content read, once each
    and in the order they were found, then [Total disabled:] with the
    number of these lines; the content written is 20 characters and one
    line longer for each of them. *)
Theorem fix_virtualization2_log (content : text) :
  exists ds,
    ds `sublist_of` FixVirtualization2.findall content /\ NoDup ds
    /\ (forall d, In d ds <->
                  In d (FixVirtualization2.findall content)
                  /\ FixVirtualization2.search d content = false)
    /\ (FixVirtualization2.main content).2
       = FixVirtualization2.found_line
           (length (FixVirtualization2.findall content))
         :: map (app (txt "Disabled: ")) ds
            ++ [FixVirtualization2.total_line (length ds)]
    /\ length (FixVirtualization2.main content).1
       = length content + 20 * length ds
    /\ count_char nl (FixVirtualization2.main content).1
       = count_char nl content + length ds.
Proof.
  destruct (run_rules2_log (FixVirtualization2.findall content)
              (print (FixVirtualization2.found_line
                        (length (FixVirtualization2.findall content)))
                 (content, []), 0))
    as (ds & Hsub & Hnd & Hin & Hp & Hk & Hl & Hc).
  { apply findall_names. }
  { intros m Hm. by apply findall_sound in Hm as [_ ?]. }
  exists ds. split; [done|]. split; [done|]. split; [done|].
  change (FixVirtualization2.run_rules _ _)
    with (FixVirtualization2.patch content) in Hp, Hk, Hl, Hc.
  cbn [fst snd print app] in Hp, Hk, Hl, Hc.
  change ((FixVirtualization2.main content).2)
    with ((FixVirtualization2.patch content).1.2
          ++ [FixVirtualization2.total_line (FixVirtualization2.patch content).2]).
  change ((FixVirtualization2.main content).1)
    with ((FixVirtualization2.patch content).1.1).
  by rewrite Hp, Hk, Hl, Hc.
Qed.

(** ** The run of fix_virtualization2.py and the file *)

Section Run2.

Import Run FixVirtualization2.


End Run2.


